(** * Startup orchestration and credential unlock of the travis node

    A shallow embedding of [server/commands/services.go].

    The Go code is a sequence of calls into collaborators (the go-ethereum
    node and keystore, the ABCI server, the tendermint node, the console)
    mixed with process exits.  It is embedded as a program tree: every
    call to a collaborator is a node [Vis] labelled with the call and its
    arguments, the continuation receives the collaborator's answer, and a
    process exit is a leaf [Halt].  A program is run against a handler,
    a state machine that answers the calls; the run yields the trace of
    calls with their answers and the way the program ended. *)

From Stdlib Require Import ZArith NArith List String Ascii Bool Lia.
From Stdlib Require Import DecimalString.
Import ListNotations.
Local Open Scope string_scope.
Local Open Scope list_scope.

Set Implicit Arguments.

(** ** Data model *)

(** [common.Address]: 20 bytes, kept as the number they spell. *)
Definition Address := N.

(** [accounts.URL]. *)
Record URL := mkURL { Scheme : string; Path : string }.

(** [accounts.Account]. *)
Record Account := mkAccount { AccAddress : Address; AccURL : URL }.

Definition URL_eqb (u v : URL) : bool :=
  String.eqb (Scheme u) (Scheme v) && String.eqb (Path u) (Path v).

(** Go's [==] on the struct [accounts.Account]: field by field. *)
Definition Account_eqb (a b : Account) : bool :=
  N.eqb (AccAddress a) (AccAddress b) && URL_eqb (AccURL a) (AccURL b).

(** The [error] values the code tells apart: the sentinel
    [keystore.ErrDecrypt], a [*keystore.AmbiguousAddrError] with its
    fields, and every other error. *)
Inductive error :=
| ErrDecrypt
| AmbiguousAddrError (Addr : Address) (Matches : list Account)
| OtherError (msg : string).

(** A Go pair [(value, err)] returned by a collaborator: the value when
    [err == nil], the error otherwise. *)
Inductive result (A : Type) :=
| Ok (a : A)
| Err (e : error).
Arguments Ok {A} a.
Arguments Err {A} e.

(** References to the long-lived objects; two references are the same
    object when their numbers agree. *)
Variant Node := NodeRef (id : nat).            (* *ethereum.Node *)
Variant Backend := BackendRef (id : nat).      (* *ethereum.Backend *)
Variant RpcClient := ClientRef (id : nat).     (* *rpc.Client *)
Variant KeyStore := KeyStoreRef (id : nat).    (* *keystore.KeyStore *)
Variant EthApp := EthAppRef (id : nat).        (* *abciApp.EthermintApplication *)
Variant Server := ServerRef (id : nat).        (* cmn.Service *)
Variant TmNode := TmNodeRef (id : nat).        (* *node.Node *)
Variant App := AppRef (id : nat).              (* abcitypes.Application *)
Variant StoreApp := StoreAppRef (id : nat).    (* *app.StoreApp *)
Variant Chan := ChanRef (id : nat).            (* chan accounts.WalletEvent *)
Variant PrivValidator := PrivValidatorRef (id : nat).

(** [accounts.Wallet], with the answer of its [URL()]. *)
Record Wallet := mkWallet { wid : nat; WalletURL : URL }.

(** [accounts.WalletEvent]. *)
Record WalletEvent := mkWalletEvent { EvWallet : Wallet; Arrive : bool }.

(** [ethclient.NewClient(c)]: the chain state reader wraps the client. *)
Variant StateReader := NewClient (c : RpcClient).

(** The fields of the tendermint configuration the code reads. *)
Record Config := mkConfig {
  ProxyApp : string;
  ABCI : string;
  DBDir : string;
  PrivValidatorFile : string
}.

(** [proxy.ClientCreator]. *)
Variant ClientCreator :=
| NewLocalClientCreator (app : App)
| DefaultClientCreator (addr transport dbDir : string).

(** [*cli.Context], read through [GlobalString]. *)
Record Context := mkContext { GlobalString : string -> string }.

(** Flag names, as the flag declarations of go-ethereum and of
    [modules/vm/cmd/utils] spell them. *)
Definition UnlockedAccountFlag_Name : string := "unlock".
Definition ABCIAddrFlag_Name : string := "abci_laddr".
Definition ABCIProtocolFlag_Name : string := "abci_protocol".

(** [accounts.DefaultBaseDerivationPath]: m/44'/60'/0'/0. *)
Definition DefaultBaseDerivationPath : list Z :=
  [2147483648 + 44; 2147483648 + 60; 2147483648 + 0; 0]%Z.

(** ** Calls, answers and programs *)

(** An operand of a print, log or fatal message. *)
Inductive arg :=
| AStr (s : string)
| AInt (z : Z)
| AAddr (a : Address)
| AURL (u : URL)
| AErr (e : option error).

Variant level := Info | Warn.

(** The goroutines the code starts, by name; [goroutineBody] below gives
    their code. *)
Variant goroutine :=
| WalletWatcher (stack : Node) (events : Chan).

(** The calls into collaborators. *)
Inductive effect :=
| MakeFullNode                                          (* emtUtils.MakeFullNode(context) *)
| NodeStart (stack : Node)                              (* stack.Start(), inside emtUtils.StartNode *)
| Backends (stack : Node)                               (* stack.AccountManager().Backends(KeyStoreType) *)
| MakePasswordList                                      (* ethUtils.MakePasswordList(ctx) *)
| MakeAddress (ks : KeyStore) (address : string)        (* ethUtils.MakeAddress *)
| Unlock (ks : KeyStore) (a : Account) (passphrase : string) (* ks.Unlock *)
| PromptPassword (prompt : string)                      (* console.Stdin.PromptPassword *)
| Println (args : list arg)                             (* fmt.Println *)
| Printf (format : string) (args : list arg)            (* fmt.Printf *)
| Log (lvl : level) (msg : string) (ctx : list arg)     (* log.Info, log.Warn *)
| MakeChan (capacity : nat)                             (* make(chan accounts.WalletEvent, n) *)
| Subscribe (stack : Node) (events : Chan)              (* stack.AccountManager().Subscribe *)
| Go (g : goroutine)                                    (* go func() { ... }() *)
| Attach (stack : Node)                                 (* stack.Attach() *)
| Wallets (stack : Node)                                (* stack.AccountManager().Wallets() *)
| WalletOpen (w : Wallet) (passphrase : string)         (* wallet.Open *)
| WalletSelfDerive (w : Wallet) (path : list Z) (r : StateReader)
| WalletStatus (w : Wallet)                             (* wallet.Status() *)
| WalletClose (w : Wallet)                              (* wallet.Close() *)
| Service (stack : Node)                                (* emNode.Service(&backend) *)
| NewEthermintApplication (b : Backend) (c : RpcClient) (* abciApp.NewEthermintApplication(b, c, nil) *)
| AppSetLogger (a : EthApp) (module : string)
| NewServer (addr transport : string) (a : EthApp)      (* server.NewServer *)
| SrvSetLogger (s : Server) (module : string)
| SrvStart (s : Server)                                 (* srv.Start() *)
| CreateBaseCoinApp (rootDir : string) (storeApp : StoreApp)
| ParseConfig                                           (* tcmd.ParseConfig() *)
| LoadOrGenPrivValidatorFS (file : string)
| NewNode (cfg : Config) (pv : PrivValidator) (papp : ClientCreator)
| TmStart (n : TmNode).                                 (* n.Start() *)

(** The type of the answer to each call. *)
Definition resp (e : effect) : Type :=
  match e with
  | MakeFullNode => result Node
  | NodeStart _ => option error
  | Backends _ => list KeyStore
  | MakePasswordList => result (list string)
  | MakeAddress _ _ => result Account
  | Unlock _ _ _ => option error
  | PromptPassword _ => result string
  | Println _ => unit
  | Printf _ _ => unit
  | Log _ _ _ => unit
  | MakeChan _ => Chan
  | Subscribe _ _ => unit
  | Go _ => unit
  | Attach _ => result RpcClient
  | Wallets _ => list Wallet
  | WalletOpen _ _ => option error
  | WalletSelfDerive _ _ _ => unit
  | WalletStatus _ => string
  | WalletClose _ => option error
  | Service _ => result Backend
  | NewEthermintApplication _ _ => result EthApp
  | AppSetLogger _ _ => unit
  | NewServer _ _ _ => result Server
  | SrvSetLogger _ _ => unit
  | SrvStart _ => option error
  | CreateBaseCoinApp _ _ => result (option App)
  | ParseConfig => result Config
  | LoadOrGenPrivValidatorFS _ => PrivValidator
  | NewNode _ _ _ => result TmNode
  | TmStart _ => option error
  end.

(** The ways the process ends inside the code: [ethUtils.Fatalf] (prints
    the message and exits with status 1), [os.Exit], and a Go run-time
    panic. *)
Inductive halt :=
| Fatalf (format : string) (args : list arg)
| OsExit (code : Z)
| Panic (what : string).

(** Programs returning an [A]. *)
Inductive prog (A : Type) : Type :=
| Ret (a : A)
| Halt (h : halt)
| Vis (e : effect) (k : resp e -> prog A).
Arguments Ret {A} a.
Arguments Halt {A} h.
Arguments Vis {A} e k.

Fixpoint bind {A B} (p : prog A) (f : A -> prog B) : prog B :=
  match p with
  | Ret a => f a
  | Halt h => Halt h
  | Vis e k => Vis e (fun r => bind (k r) f)
  end.

Definition call (e : effect) : prog (resp e) := Vis e Ret.

Declare Scope prog_scope.
Delimit Scope prog_scope with prog.
Notation "x <- p ;; q" := (bind p (fun x => q))
  (at level 61, p at next level, right associativity) : prog_scope.
Notation "p ;; q" := (bind p (fun _ => q))
  (at level 61, right associativity) : prog_scope.
Local Open Scope prog_scope.

(** One entry of a trace: a call and the answer it got. *)
Record event := Ev { evCall : effect; evAnswer : resp evCall }.

Definition trace := list event.

(** How a run ended. *)
Inductive outcome (A : Type) :=
| Returned (a : A)
| Halted (h : halt).
Arguments Returned {A} a.
Arguments Halted {A} h.

(** A handler answers every call, from a state of its own. *)
Definition handler (S : Type) := forall e : effect, S -> resp e * S.

Record ran (S A : Type) := mkRan {
  traceOf : trace;
  outcomeOf : outcome A;
  finalOf : S
}.
Arguments mkRan {S A} _ _ _.

Fixpoint run {S A} (h : handler S) (p : prog A) (s : S) : ran S A :=
  match p with
  | Ret a => mkRan [] (Returned a) s
  | Halt x => mkRan [] (Halted x) s
  | Vis e k =>
      let (r, s1) := h e s in
      let rest := run h (k r) s1 in
      mkRan (Ev e r :: traceOf rest) (outcomeOf rest) (finalOf rest)
  end.

(** The process is gone: the run ended in a fatal message, an exit or a
    panic. *)
Definition exited {A} (o : outcome A) : bool :=
  match o with
  | Returned _ => false
  | Halted _ => true
  end.

(** ** Strings *)

(** [strings.Split(s, ",")], for the one-byte separator of the call
    site: the pieces between the separators, [""] last when [s] ends in
    one, and the single piece [""] for the empty string. *)
Fixpoint Split (s : string) (sep : ascii) : list string :=
  match s with
  | EmptyString => [EmptyString]
  | String c rest =>
      if Ascii.eqb c sep then EmptyString :: Split rest sep
      else match Split rest sep with
           | [] => [String c EmptyString]
           | piece :: pieces => String c piece :: pieces
           end
  end.

Definition bytes (l : list nat) : list ascii := map ascii_of_nat l.

(** The UTF-8 encodings of the code points of [unicode.White_Space]:
    U+0009..U+000D, U+0020, U+0085, U+00A0, U+1680, U+2000..U+200A,
    U+2028, U+2029, U+202F, U+205F, U+3000. *)
Definition spaceRunes : list (list ascii) :=
  map bytes
    [[9]; [10]; [11]; [12]; [13]; [32]; [194; 133]; [194; 160];
     [225; 154; 128];
     [226; 128; 128]; [226; 128; 129]; [226; 128; 130]; [226; 128; 131];
     [226; 128; 132]; [226; 128; 133]; [226; 128; 134]; [226; 128; 135];
     [226; 128; 136]; [226; 128; 137]; [226; 128; 138];
     [226; 128; 168]; [226; 128; 169]; [226; 128; 175];
     [226; 129; 159]; [227; 128; 128]]%nat.

Fixpoint stripPrefix (p s : list ascii) : option (list ascii) :=
  match p, s with
  | [], _ => Some s
  | _ :: _, [] => None
  | a :: p', c :: s' => if Ascii.eqb a c then stripPrefix p' s' else None
  end.

Fixpoint stripAny (ps : list (list ascii)) (s : list ascii) : option (list ascii) :=
  match ps with
  | [] => None
  | p :: ps' =>
      match stripPrefix p s with
      | Some r => Some r
      | None => stripAny ps' s
      end
  end.

(** Drop leading occurrences of the patterns; [n] bounds the number of
    rounds and the length of the input is enough. *)
Fixpoint trimLeading (ps : list (list ascii)) (n : nat) (s : list ascii) : list ascii :=
  match n with
  | O => s
  | S n' =>
      match stripAny ps s with
      | Some r => trimLeading ps n' r
      | None => s
      end
  end.

(** [strings.TrimSpace]: all leading and trailing white space removed,
    as defined by Unicode. *)
Definition TrimSpace (s : string) : string :=
  let l := list_ascii_of_string s in
  let l1 := trimLeading spaceRunes (List.length l) l in
  let r := rev l1 in
  let r1 := trimLeading (map (@rev ascii) spaceRunes) (List.length r) r in
  string_of_list_ascii (rev r1).

(** The verb [%d] of [fmt.Sprintf]. *)
Definition itoa (z : Z) : string := NilZero.string_of_int (Z.to_int z).

(** ** Credential unlock *)

Definition len {A} (l : list A) : Z := Z.of_nat (List.length l).

(** [l[i]], with the run-time panic of an index out of range. *)
Definition index {A} (l : list A) (i : Z) : prog A :=
  if (0 <=? i)%Z && (i <? len l)%Z then
    match nth_error l (Z.to_nat i) with
    | Some x => Ret x
    | None => Halt (Panic "index out of range")
    end
  else Halt (Panic "index out of range").

(** [for _, x := range l { body }], for a body without [break]. *)
Fixpoint forEach {A} (l : list A) (body : A -> prog unit) : prog unit :=
  match l with
  | [] => Ret tt
  | x :: rest => body x ;; forEach rest body
  end.

(** [getPassPhrase] retrieves the password associated with an account,
    either fetched from a list of preloaded passphrases, or requested
    interactively from the user. *)
Definition getPassPhrase (prompt : string) (confirmation : bool) (i : Z)
    (passwords : list string) : prog string :=
  if (len passwords >? 0)%Z then
    if (i <? len passwords)%Z then index passwords i
    else index passwords (len passwords - 1)
  else
    (if negb (prompt =? "") then call (Println [AStr prompt]) else Ret tt) ;;
    r <- call (PromptPassword "Passphrase: ") ;;
    match r with
    | Err err => Halt (Fatalf "Failed to read passphrase: %v" [AErr (Some err)])
    | Ok password =>
        if confirmation then
          r2 <- call (PromptPassword "Repeat passphrase: ") ;;
          match r2 with
          | Err err =>
              Halt (Fatalf "Failed to read passphrase confirmation: %v" [AErr (Some err)])
          | Ok confirm =>
              if negb (password =? confirm)
              then Halt (Fatalf "Passphrases do not match" [])
              else Ret password
          end
        else Ret password
    end.

(** The search loop of [ambiguousAddrRecovery]: the first of the matches
    that [auth] unlocks, [None] for Go's [match == nil]. *)
Fixpoint firstUnlocked (ks : KeyStore) (matches : list Account) (auth : string)
    : prog (option Account) :=
  match matches with
  | [] => Ret None
  | a :: rest =>
      err <- call (Unlock ks a auth) ;;
      match err with
      | None => Ret (Some a)
      | Some _ => firstUnlocked ks rest auth
      end
  end.

(** [ambiguousAddrRecovery(ks, err, auth)], with the fields of [err]. *)
Definition ambiguousAddrRecovery (ks : KeyStore) (Addr : Address)
    (Matches : list Account) (auth : string) : prog Account :=
  call (Printf "Multiple key files exist for address %x:\n" [AAddr Addr]) ;;
  forEach Matches (fun a => call (Println [AStr "  "; AURL (AccURL a)])) ;;
  call (Println [AStr "Testing your passphrase against all of them..."]) ;;
  found <- firstUnlocked ks Matches auth ;;
  match found with
  | None => Halt (Fatalf "None of the listed files could be unlocked." [])
  | Some matched =>
      call (Printf "Your passphrase unlocked %s\n" [AURL (AccURL matched)]) ;;
      call (Println [AStr "In order to avoid this warning, remove the following duplicate key files:"]) ;;
      forEach Matches (fun a =>
        if negb (Account_eqb a matched)
        then call (Println [AStr "  "; AURL (AccURL a)])
        else Ret tt) ;;
      Ret matched
  end.

(** The statement after the loop of [unlockAccount]: all trials expended
    to unlock account, bail out. *)
Definition bailOut {A} (address : string) (err : option error) : prog A :=
  Halt (Fatalf "Failed to unlock account %s (%v)" [AStr address; AErr err]).

(** The loop [for trials := 0; trials < 3; trials++] of [unlockAccount],
    entered with [remaining] iterations to go, so that
    [trials = 3 - remaining]; [err] is the variable [err] of the
    function, which the statement after the loop reports. *)
Fixpoint unlockTrials (ks : KeyStore) (account : Account) (address : string)
    (i : Z) (passwords : list string) (remaining : nat) (err : option error)
    : prog (Account * string) :=
  match remaining with
  | O => bailOut address err
  | S remaining' =>
      let trials := (3 - Z.of_nat remaining)%Z in
      let prompt := ("Unlocking account " ++ address ++ " | Attempt "
                     ++ itoa (trials + 1) ++ "/" ++ itoa 3)%string in
      password <- getPassPhrase prompt false i passwords ;;
      err <- call (Unlock ks account password) ;;
      match err with
      | None =>
          call (Log Info "Unlocked account" [AStr "address"; AAddr (AccAddress account)]) ;;
          Ret (account, password)
      | Some (AmbiguousAddrError Addr Matches) =>
          call (Log Info "Unlocked account" [AStr "address"; AAddr (AccAddress account)]) ;;
          a <- ambiguousAddrRecovery ks Addr Matches password ;;
          Ret (a, password)
      | Some ErrDecrypt =>
          unlockTrials ks account address i passwords remaining' (Some ErrDecrypt)
      | Some other =>
          (* No need to prompt again if the error is not decryption-related. *)
          bailOut address (Some other)
      end
  end.

(** [unlockAccount] tries unlocking the specified account a few times. *)
Definition unlockAccount (ks : KeyStore) (address : string) (i : Z)
    (passwords : list string) : prog (Account * string) :=
  r <- call (MakeAddress ks address) ;;
  match r with
  | Err err => Halt (Fatalf "Could not list accounts: %v" [AErr (Some err)])
  | Ok account => unlockTrials ks account address i passwords 3 None
  end.

(** The loop [for i, account := range unlocks] of [startNode], entered
    at index [i]. *)
Fixpoint unlockRequested (ks : KeyStore) (passwords : list string) (i : Z)
    (unlocks : list string) : prog unit :=
  match unlocks with
  | [] => Ret tt
  | account :: rest =>
      let trimmed := TrimSpace account in
      (if negb (trimmed =? "")
       then unlockAccount ks trimmed i passwords ;; Ret tt
       else Ret tt) ;;
      unlockRequested ks passwords (i + 1) rest
  end.

(** ** The execution node and the wallet watcher *)

(** Modelled from the spec: [emtUtils.MakeFullNode] is declared in
    [modules/vm/cmd/utils], outside the file embedded here.  Stage 1 of
    the orchestrator constructs the execution node and "failure here is
    fatal". *)
Definition MakeFullNode_ (ctx : Context) : prog Node :=
  r <- call MakeFullNode ;;
  match r with
  | Err err => Halt (Fatalf "Failed to create the protocol stack: %v" [AErr (Some err)])
  | Ok stack => Ret stack
  end.

(** Modelled from the spec: [emtUtils.StartNode] is declared in
    [modules/vm/cmd/utils], outside the file embedded here.  Stage 1 of
    the orchestrator starts the execution node and "failure here is
    fatal". *)
Definition StartNode (stack : Node) : prog unit :=
  err <- call (NodeStart stack) ;;
  match err with
  | Some e => Halt (Fatalf "Error starting protocol stack: %v" [AErr (Some e)])
  | None => Ret tt
  end.

(** The body of the loop over the wallets already attached: open and
    self derive. *)
Definition openKnown (stateReader : StateReader) (wallet : Wallet) : prog unit :=
  err <- call (WalletOpen wallet "") ;;
  match err with
  | Some e =>
      call (Log Warn "Failed to open wallet"
              [AStr "url"; AURL (WalletURL wallet); AStr "err"; AErr (Some e)])
  | None => call (WalletSelfDerive wallet DefaultBaseDerivationPath stateReader)
  end.

(** The body of the loop [for event := range events]. *)
Definition onEvent (stateReader : StateReader) (event : WalletEvent) : prog unit :=
  if Arrive event then
    err <- call (WalletOpen (EvWallet event) "") ;;
    match err with
    | Some e =>
        call (Log Warn "New wallet appeared, failed to open"
                [AStr "url"; AURL (WalletURL (EvWallet event));
                 AStr "err"; AErr (Some e)])
    | None =>
        status <- call (WalletStatus (EvWallet event)) ;;
        call (Log Info "New wallet appeared"
                [AStr "url"; AURL (WalletURL (EvWallet event));
                 AStr "status"; AStr status]) ;;
        call (WalletSelfDerive (EvWallet event) DefaultBaseDerivationPath stateReader)
    end
  else
    call (Log Info "Old wallet dropped"
            [AStr "url"; AURL (WalletURL (EvWallet event))]) ;;
    call (WalletClose (EvWallet event)) ;;
    Ret tt.

(** The body of the goroutine of [startNode].  The loop
    [for event := range events] runs once per event the channel
    delivers, in the order of delivery; [delivered] is that sequence, up
    to the close of the channel. *)
Definition walletWatcher (stack : Node) (delivered : list WalletEvent) : prog unit :=
  (* Create an chain state reader for self-derivation *)
  r <- call (Attach stack) ;;
  match r with
  | Err err => Halt (Fatalf "Failed to attach to self: %v" [AErr (Some err)])
  | Ok rpcClient =>
      let stateReader := NewClient rpcClient in
      (* Open and self derive any wallets already attached *)
      wallets <- call (Wallets stack) ;;
      forEach wallets (openKnown stateReader) ;;
      (* Listen for wallet event till termination *)
      forEach delivered (onEvent stateReader)
  end.

(** The code of each goroutine, given what its channel delivers. *)
Definition goroutineBody (g : goroutine) (delivered : list WalletEvent) : prog unit :=
  match g with
  | WalletWatcher stack _ => walletWatcher stack delivered
  end.

(** [startNode] copies the logic from go-ethereum. *)
Definition startNode (ctx : Context) (stack : Node) : prog unit :=
  StartNode stack ;;
  (* Unlock any account specifically requested *)
  backends <- call (Backends stack) ;;
  match backends with
  | [] => Halt (Panic "index out of range")
  | ks :: _ =>
      r <- call MakePasswordList ;;
      match r with
      | Err err => Halt (Fatalf "Failed to read password file: %v" [AErr (Some err)])
      | Ok passwords =>
          let unlocks := Split (GlobalString ctx UnlockedAccountFlag_Name) "," in
          unlockRequested ks passwords 0 unlocks ;;
          (* Register wallet event handlers to open and auto-derive wallets *)
          events <- call (MakeChan 16) ;;
          call (Subscribe stack events) ;;
          call (Go (WalletWatcher stack events))
      end
  end.

(** ** The orchestrator *)

(** [fmt.Println(err); os.Exit(1)]. *)
Definition printAndExit {A} (err : error) : prog A :=
  call (Println [AErr (Some err)]) ;;
  Halt (OsExit 1).

(** [startTendermint]; the Go pair of a node pointer and an error is a
    pair of options, [None] for [nil]. *)
Definition startTendermint (basecoinApp : option App)
    : prog (option TmNode * option error) :=
  r <- call ParseConfig ;;
  match r with
  | Err err => Ret (None, Some err)
  | Ok cfg =>
      let papp :=
        match basecoinApp with
        | Some a => NewLocalClientCreator a
        | None => DefaultClientCreator (ProxyApp cfg) (ABCI cfg) (DBDir cfg)
        end in
      (* Create & start tendermint node *)
      pv <- call (LoadOrGenPrivValidatorFS (PrivValidatorFile cfg)) ;;
      r <- call (NewNode cfg pv papp) ;;
      match r with
      | Err err => Ret (None, Some err)
      | Ok n =>
          err <- call (TmStart n) ;;
          match err with
          | Some e => Ret (None, Some e)
          | None => Ret (Some n, None)
          end
      end
  end.

(** [type Services struct]; the pointer and interface fields are
    options, [None] for [nil]. *)
Record Services := mkServices {
  backend : option Backend;
  rpcClient : option RpcClient;
  emt : option Server;
  tmNode : option TmNode
}.

(** [startServices]; [context] is the package variable the Go function
    reads. *)
Definition startServices (context : Context) (rootDir : string)
    (storeApp : StoreApp) : prog (option Services * option error) :=
  (* Step 1: Setup the go-ethereum node and start it *)
  emNode <- MakeFullNode_ context ;;
  startNode context emNode ;;
  (* Setup the ABCI server and start it *)
  let addr := GlobalString context ABCIAddrFlag_Name in
  let abci := GlobalString context ABCIProtocolFlag_Name in
  (* Fetch the registered service of this type *)
  r <- call (Service emNode) ;;
  match r with
  | Err err => Halt (Fatalf "ethereum backend service not running: %v" [AErr (Some err)])
  | Ok backend =>
  (* In-proc RPC connection so ABCI.Query can be forwarded over the ethereum rpc *)
  r <- call (Attach emNode) ;;
  match r with
  | Err err => Halt (Fatalf "Failed to attach to the inproc geth: %v" [AErr (Some err)])
  | Ok rpcClient =>
  (* Create the ABCI app *)
  r <- call (NewEthermintApplication backend rpcClient) ;;
  match r with
  | Err err => printAndExit err
  | Ok ethApp =>
  call (AppSetLogger ethApp "ethermint") ;;
  (* Start the app on the ABCI server *)
  r <- call (NewServer addr abci ethApp) ;;
  match r with
  | Err err => printAndExit err
  | Ok srv =>
  call (SrvSetLogger srv "abci-server") ;;
  err <- call (SrvStart srv) ;;
  match err with
  | Some e => printAndExit e
  | None =>
  (* Create Basecoin app *)
  r <- call (CreateBaseCoinApp rootDir storeApp) ;;
  match r with
  | Err err => printAndExit err
  | Ok basecoinApp =>
  (* Create & start tendermint node *)
  tm <- startTendermint basecoinApp ;;
  match snd tm with
  | Some err => printAndExit err
  | None =>
      Ret (Some (mkServices (Some backend) (Some rpcClient) (Some srv) (fst tm)),
           None)
  end end end end end end end.

(** ** A simulated environment

    One concrete handler, used to run the programs on concrete inputs.
    Its key store behaves as go-ethereum's: an account without URL is
    looked up by address, one key file is decrypted with the passphrase,
    several key files for one address are an ambiguous match. *)

Variant fault :=
| FMakeFullNode | FNodeStart | FPasswordFile | FService | FAttach
| FNewApplication | FNewServer | FSrvStart | FBaseCoinApp
| FParseConfig | FNewNode | FTmStart.

Definition fault_eqb (a b : fault) : bool :=
  match a, b with
  | FMakeFullNode, FMakeFullNode | FNodeStart, FNodeStart
  | FPasswordFile, FPasswordFile | FService, FService | FAttach, FAttach
  | FNewApplication, FNewApplication | FNewServer, FNewServer
  | FSrvStart, FSrvStart | FBaseCoinApp, FBaseCoinApp
  | FParseConfig, FParseConfig | FNewNode, FNewNode | FTmStart, FTmStart => true
  | _, _ => false
  end.

Record Sim := mkSim {
  fresh : nat;                       (* the next reference number *)
  faults : list fault;               (* the calls that fail *)
  book : list (string * Account);    (* what MakeAddress resolves *)
  keys : list (Account * string);    (* key files with their passphrase *)
  unlocked : list Account;           (* what Unlock has unlocked, latest first *)
  passwordFile : list string;        (* the preloaded passphrases *)
  stdin : list string;               (* the lines typed at the prompts *)
  attachedWallets : list Wallet;     (* the wallets known at start *)
  brokenWallets : list nat;          (* the wallets that fail to open *)
  baseApp : option App;              (* what createBaseCoinApp builds *)
  config : Config
}.

Definition fails (f : fault) (s : Sim) : bool := existsb (fault_eqb f) (faults s).

Definition refused (what : string) : error := OtherError what.

Definition tick (s : Sim) : Sim :=
  mkSim (S (fresh s)) (faults s) (book s) (keys s) (unlocked s) (passwordFile s)
        (stdin s) (attachedWallets s) (brokenWallets s) (baseApp s) (config s).

Definition markUnlocked (a : Account) (s : Sim) : Sim :=
  mkSim (fresh s) (faults s) (book s) (keys s) (a :: unlocked s) (passwordFile s)
        (stdin s) (attachedWallets s) (brokenWallets s) (baseApp s) (config s).

Definition typed (rest : list string) (s : Sim) : Sim :=
  mkSim (fresh s) (faults s) (book s) (keys s) (unlocked s) (passwordFile s)
        rest (attachedWallets s) (brokenWallets s) (baseApp s) (config s).

Fixpoint lookupAddress (b : list (string * Account)) (address : string) : option Account :=
  match b with
  | [] => None
  | (name, a) :: rest => if name =? address then Some a else lookupAddress rest address
  end.

Definition simUnlock (a : Account) (passphrase : string) (s : Sim) : option error * Sim :=
  let candidates :=
    if Path (AccURL a) =? ""
    then filter (fun k => N.eqb (AccAddress (fst k)) (AccAddress a)) (keys s)
    else filter (fun k => Account_eqb (fst k) a) (keys s) in
  match candidates with
  | [] => (Some (OtherError "no key for given address or file"), s)
  | [k] => if snd k =? passphrase then (None, markUnlocked (fst k) s)
           else (Some ErrDecrypt, s)
  | _ => (Some (AmbiguousAddrError (AccAddress a) (map fst candidates)), s)
  end.

Definition orFail {A} (f : fault) (what : string) (s : Sim) (a : A) : result A * Sim :=
  if fails f s then (Err (refused what), s) else (Ok a, tick s).

Definition orFailErr (f : fault) (what : string) (s : Sim) : option error * Sim :=
  if fails f s then (Some (refused what), s) else (None, s).

Definition sim : handler Sim :=
  fun e =>
    match e as e' return Sim -> resp e' * Sim with
    | MakeFullNode => fun s => orFail FMakeFullNode "no stack" s (NodeRef (fresh s))
    | NodeStart _ => fun s => orFailErr FNodeStart "cannot start" s
    | Backends _ => fun s => ([KeyStoreRef 0], s)
    | MakePasswordList => fun s =>
        if fails FPasswordFile s then (Err (refused "no password file"), s)
        else (Ok (passwordFile s), s)
    | MakeAddress _ address => fun s =>
        match lookupAddress (book s) address with
        | Some a => (Ok a, s)
        | None => (Err (OtherError "invalid account address or index"), s)
        end
    | Unlock _ a passphrase => fun s => simUnlock a passphrase s
    | PromptPassword _ => fun s =>
        match stdin s with
        | [] => (Err (OtherError "EOF"), s)
        | line :: rest => (Ok line, typed rest s)
        end
    | Println _ => fun s => (tt, s)
    | Printf _ _ => fun s => (tt, s)
    | Log _ _ _ => fun s => (tt, s)
    | MakeChan _ => fun s => (ChanRef (fresh s), tick s)
    | Subscribe _ _ => fun s => (tt, s)
    | Go _ => fun s => (tt, s)
    | Attach _ => fun s => orFail FAttach "cannot attach" s (ClientRef (fresh s))
    | Wallets _ => fun s => (attachedWallets s, s)
    | WalletOpen w _ => fun s =>
        if existsb (Nat.eqb (wid w)) (brokenWallets s)
        then (Some (OtherError "cannot open wallet"), s) else (None, s)
    | WalletSelfDerive _ _ _ => fun s => (tt, s)
    | WalletStatus _ => fun s => ("online", s)
    | WalletClose _ => fun s => (None, s)
    | Service _ => fun s => orFail FService "unknown service" s (BackendRef (fresh s))
    | NewEthermintApplication _ _ => fun s =>
        orFail FNewApplication "no application" s (EthAppRef (fresh s))
    | AppSetLogger _ _ => fun s => (tt, s)
    | NewServer _ _ _ => fun s => orFail FNewServer "unknown server type" s (ServerRef (fresh s))
    | SrvSetLogger _ _ => fun s => (tt, s)
    | SrvStart _ => fun s => orFailErr FSrvStart "address already in use" s
    | CreateBaseCoinApp _ _ => fun s =>
        if fails FBaseCoinApp s then (Err (refused "no store"), s)
        else (Ok (baseApp s), s)
    | ParseConfig => fun s =>
        if fails FParseConfig s then (Err (refused "bad config"), s)
        else (Ok (config s), s)
    | LoadOrGenPrivValidatorFS _ => fun s => (PrivValidatorRef (fresh s), tick s)
    | NewNode _ _ _ => fun s => orFail FNewNode "no genesis" s (TmNodeRef (fresh s))
    | TmStart _ => fun s => orFailErr FTmStart "cannot start consensus" s
    end.

(** A quiet simulated world: nothing fails, no key, nothing typed. *)
Definition calm : Sim :=
  mkSim 0 [] [] [] [] [] [] [] [] (Some (AppRef 0))
        (mkConfig "tcp://127.0.0.1:46658" "socket" "data" "priv_validator.json").

Definition withFaults (fs : list fault) (s : Sim) : Sim :=
  mkSim (fresh s) fs (book s) (keys s) (unlocked s) (passwordFile s)
        (stdin s) (attachedWallets s) (brokenWallets s) (baseApp s) (config s).

Definition withKeys (b : list (string * Account)) (k : list (Account * string))
    (s : Sim) : Sim :=
  mkSim (fresh s) (faults s) b k (unlocked s) (passwordFile s)
        (stdin s) (attachedWallets s) (brokenWallets s) (baseApp s) (config s).

Definition withPasswords (p : list string) (s : Sim) : Sim :=
  mkSim (fresh s) (faults s) (book s) (keys s) (unlocked s) p
        (stdin s) (attachedWallets s) (brokenWallets s) (baseApp s) (config s).

Definition withWallets (ws : list Wallet) (broken : list nat) (s : Sim) : Sim :=
  mkSim (fresh s) (faults s) (book s) (keys s) (unlocked s) (passwordFile s)
        (stdin s) ws broken (baseApp s) (config s).

(** The command line of a run: the [--unlock] flag and the ABCI flags. *)
Definition contextWith (unlock : string) : Context :=
  mkContext (fun name =>
    if name =? UnlockedAccountFlag_Name then unlock
    else if name =? ABCIAddrFlag_Name then "tcp://0.0.0.0:8848"
    else if name =? ABCIProtocolFlag_Name then "socket"
    else "").

(** ** Executions and what is observed of them *)

(** [exec p t o]: some environment makes [p] produce the trace [t] and
    end as [o]. *)
Fixpoint exec {A} (p : prog A) (t : trace) (o : outcome A) : Prop :=
  match p with
  | Ret a => t = [] /\ o = Returned a
  | Halt x => t = [] /\ o = Halted x
  | Vis e k => exists (r : resp e) (t' : trace), t = Ev e r :: t' /\ exec (k r) t' o
  end.

Definition calls (t : trace) : list effect := map evCall t.

(** The addresses handed to [MakeAddress], in order. *)
Definition resolutions (t : trace) : list string :=
  flat_map (fun e => match e with MakeAddress _ address => [address] | _ => [] end)
           (calls t).

(** The [Unlock] calls, in order. *)
Definition unlockCalls (t : trace) : list (KeyStore * Account * string) :=
  flat_map (fun e => match e with Unlock ks a p => [(ks, a, p)] | _ => [] end)
           (calls t).

(** The prompts shown on the console, in order. *)
Definition prompts (t : trace) : list string :=
  flat_map (fun e => match e with PromptPassword p => [p] | _ => [] end) (calls t).

(** The passphrase of every [Unlock] call, paired with the address of
    the latest [MakeAddress] call before it ([cur], to start with). *)
Fixpoint unlockLogFrom (cur : string) (es : list effect) : list (string * string) :=
  match es with
  | [] => []
  | MakeAddress _ address :: rest => unlockLogFrom address rest
  | Unlock _ _ p :: rest => (cur, p) :: unlockLogFrom cur rest
  | _ :: rest => unlockLogFrom cur rest
  end.

Definition unlockLog (t : trace) : list (string * string) :=
  unlockLogFrom "" (calls t).

(** The duplicate key files reported for removal: the URLs printed after
    the line that announces them. *)
Definition removalNotice : string :=
  "In order to avoid this warning, remove the following duplicate key files:".

Fixpoint printedURLs (es : list effect) : list URL :=
  match es with
  | Println [AStr _; AURL u] :: rest => u :: printedURLs rest
  | _ :: rest => printedURLs rest
  | [] => []
  end.

Fixpoint reportedDuplicates (es : list effect) : list URL :=
  match es with
  | [] => []
  | Println [AStr line] :: rest =>
      if line =? removalNotice then printedURLs rest else reportedDuplicates rest
  | _ :: rest => reportedDuplicates rest
  end.

(** What the watcher does to the wallets of the credential store. *)
Variant walletOp :=
| Opened (w : Wallet)
| Closed (w : Wallet).

Definition walletOps (t : trace) : list walletOp :=
  flat_map (fun e => match e with
                     | WalletOpen w _ => [Opened w]
                     | WalletClose w => [Closed w]
                     | _ => []
                     end) (calls t).

(** The side effect an event of the channel asks for. *)
Definition opOf (event : WalletEvent) : walletOp :=
  if Arrive event then Opened (EvWallet event) else Closed (EvWallet event).

(** The wallets whose [Open] succeeded, and the wallets with a warning
    logged, in order. *)
Definition openedOk (t : trace) : list Wallet :=
  flat_map (fun ev =>
    match ev with
    | Ev e r =>
        match e as e' return resp e' -> list Wallet with
        | WalletOpen w _ => fun r => match r with None => [w] | Some _ => [] end
        | _ => fun _ => []
        end r
    end) t.

Definition selfDerived (t : trace) : list (Wallet * StateReader) :=
  flat_map (fun e => match e with
                     | WalletSelfDerive w _ r => [(w, r)]
                     | _ => []
                     end) (calls t).

(** The clients handed to the application bridge, the goroutines
    started and the clients obtained by [Attach]. *)
Definition bridgeClients (t : trace) : list RpcClient :=
  flat_map (fun e => match e with NewEthermintApplication _ c => [c] | _ => [] end)
           (calls t).

Definition spawned (t : trace) : list goroutine :=
  flat_map (fun e => match e with Go g => [g] | _ => [] end) (calls t).

Definition attachedClients (t : trace) : list RpcClient :=
  flat_map (fun ev =>
    match ev with
    | Ev e r =>
        match e as e' return resp e' -> list RpcClient with
        | Attach _ => fun r => match r with Ok c => [c] | Err _ => [] end
        | _ => fun _ => []
        end r
    end) t.

(** ** Stages of the orchestrator *)

Variant stage :=
| StartExecution | ResolveBackend | UnlockAccounts | AttachClient
| BuildBridge | StartApplicationServer | StartConsensus.

(** The stage a call of the main sequence belongs to; prints and logs
    belong to none.  Creating the basecoin application, which the
    consensus node is wired to, is counted with the consensus stage. *)
Definition stageOf (e : effect) : option stage :=
  match e with
  | MakeFullNode | NodeStart _ => Some StartExecution
  | Backends _ | MakePasswordList | MakeAddress _ _ | Unlock _ _ _
  | PromptPassword _ | MakeChan _ | Subscribe _ _ | Go _ => Some UnlockAccounts
  | Service _ => Some ResolveBackend
  | Attach _ => Some AttachClient
  | NewEthermintApplication _ _ | AppSetLogger _ _ => Some BuildBridge
  | NewServer _ _ _ | SrvSetLogger _ _ | SrvStart _ => Some StartApplicationServer
  | CreateBaseCoinApp _ _ | ParseConfig | LoadOrGenPrivValidatorFS _
  | NewNode _ _ _ | TmStart _ => Some StartConsensus
  | Println _ | Printf _ _ | Log _ _ _ => None
  | Wallets _ | WalletOpen _ _ | WalletSelfDerive _ _ _
  | WalletStatus _ | WalletClose _ => None
  end.

(** The position of a stage in the list of the specification. *)
Definition listedRank (st : stage) : nat :=
  match st with
  | StartExecution => 1
  | ResolveBackend => 2
  | UnlockAccounts => 3
  | AttachClient => 4
  | BuildBridge => 5
  | StartApplicationServer => 6
  | StartConsensus => 7
  end.

(** The position of a stage in the text of [startServices]. *)
Definition codeRank (st : stage) : nat :=
  match st with
  | StartExecution => 1
  | UnlockAccounts => 2
  | ResolveBackend => 3
  | AttachClient => 4
  | BuildBridge => 5
  | StartApplicationServer => 6
  | StartConsensus => 7
  end.

Definition stagesOf (t : trace) : list stage :=
  flat_map (fun e => match stageOf e with Some st => [st] | None => [] end) (calls t).

Fixpoint nondecreasing (l : list nat) : bool :=
  match l with
  | [] => true
  | x :: rest =>
      match rest with
      | [] => true
      | y :: _ => (x <=? y)%nat && nondecreasing rest
      end
  end.

Definition isErr {A} (r : result A) : bool :=
  match r with Ok _ => false | Err _ => true end.

Definition isSome {A} (r : option A) : bool :=
  match r with Some _ => true | None => false end.

(** The answer reports the failure of a step of a stage.  An error of
    [Unlock] is not one: the retry loop decides what it means. *)
Definition failedAnswer (e : effect) : resp e -> bool :=
  match e as e' return resp e' -> bool with
  | MakeFullNode => isErr
  | NodeStart _ => isSome
  | MakePasswordList => isErr
  | MakeAddress _ _ => isErr
  | PromptPassword _ => isErr
  | Attach _ => isErr
  | Service _ => isErr
  | NewEthermintApplication _ _ => isErr
  | NewServer _ _ _ => isErr
  | SrvStart _ => isSome
  | CreateBaseCoinApp _ _ => isErr
  | ParseConfig => isErr
  | NewNode _ _ _ => isErr
  | TmStart _ => isSome
  | _ => fun _ => false
  end.

Definition failed (ev : event) : bool := failedAnswer (evCall ev) (evAnswer ev).

(** The failed steps of a stage, in order. *)
Definition failures (st : stage) (t : trace) : list event :=
  filter (fun ev => failed ev &&
                    match stageOf (evCall ev) with
                    | Some st' => (codeRank st' =? codeRank st)%nat
                    | None => false
                    end) t.

(** ** Assumptions on the environment of the retry loop *)

(** The handler [h], with a key store that answers every [Unlock] by
    [answer]. *)
Definition withKeyStoreAnswer {S} (answer : option error) (h : handler S) : handler S :=
  fun e =>
    match e as e' return S -> resp e' * S with
    | Unlock _ _ _ => fun s => (answer, s)
    | e' => h e'
    end.

(** The key store answers every attempt to unlock [account] by
    [answer]. *)
Definition keyStoreAnswers {S} (h : handler S) (ks : KeyStore) (account : Account)
    (answer : option error) : Prop :=
  forall passphrase s, fst (h (Unlock ks account passphrase) s) = answer.

(** A passphrase can be obtained: from the list, or else from a console
    that can be read. *)
Definition passphraseAvailable {S} (h : handler S) (i : Z) (passwords : list string)
    : Prop :=
  (passwords <> [] /\ (0 <= i)%Z) \/
  (passwords = [] /\
   forall prompt s, exists typed, fst (h (PromptPassword prompt) s) = Ok typed).

(** ** The shape of the traces of the recovery *)

(** The lines that list key files. *)
Definition keyFileLines (l : list Account) : trace :=
  map (fun a => Ev (Println [AStr "  "; AURL (AccURL a)]) tt) l.

(** The matches other than [matched], by Go's [!=]. *)
Definition otherMatches (matched : Account) (Matches : list Account) : list Account :=
  filter (fun a => negb (Account_eqb a matched)) Matches.

(** Attempts on [tried] that failed, each with its error. *)
Definition failedUnlocks (ks : KeyStore) (auth : string)
    (tried : list (Account * error)) : trace :=
  map (fun ae => Ev (Unlock ks (fst ae) auth) (Some (snd ae))) tried.

(** Three key files for one address, with different passphrases. *)
Definition keyA : Account := mkAccount 10%N (mkURL "keystore" "/keys/A").
Definition keyB : Account := mkAccount 10%N (mkURL "keystore" "/keys/B").
Definition keyC : Account := mkAccount 10%N (mkURL "keystore" "/keys/C").

Definition threeKeyFiles : Sim :=
  withKeys [("0x0a", mkAccount 10%N (mkURL "" ""))]
           [(keyA, "alpha"); (keyB, "bravo"); (keyC, "charlie")] calm.

(** ** Properties of every path of a program *)

(** Every call the program can make satisfies [Q]. *)
Fixpoint allCalls {A} (Q : effect -> Prop) (p : prog A) : Prop :=
  match p with
  | Ret _ => True
  | Halt _ => True
  | Vis e k => Q e /\ forall r, allCalls Q (k r)
  end.

(** Not an address resolution. *)
Definition notResolution (e : effect) : Prop :=
  match e with
  | MakeAddress _ _ => False
  | _ => True
  end.

(** A call of the retry loop when the passphrase [pw] comes from the
    list: no resolution, no reading of the list or of the console, and
    every [Unlock] with [pw]. *)
Definition trialCall (pw : string) (e : effect) : Prop :=
  match e with
  | MakeAddress _ _ => False
  | MakePasswordList => False
  | PromptPassword _ => False
  | Unlock _ _ p => p = pw
  | _ => True
  end.

(** The entries of the [--unlock] flag that are resolved: trimmed, the
    blank ones left out. *)
Definition requested (unlocks : list string) : list string :=
  filter (fun a => negb (a =? "")) (map TrimSpace unlocks).

(** The entry of the password list used for the position [i]. *)
Definition passwordFor (passwords : list string) (i : nat) : string :=
  nth (Nat.min i (List.length passwords - 1)) passwords "".

(** The password lists read during a run. *)
Definition passwordLists (t : trace) : list (list string) :=
  flat_map (fun ev =>
    match ev with
    | Ev e r =>
        match e as e' return resp e' -> list (list string) with
        | MakePasswordList => fun r => match r with Ok l => [l] | Err _ => [] end
        | _ => fun _ => []
        end r
    end) t.

(** Two accounts behind one passphrase. *)
Definition twoAccounts : Sim :=
  withKeys [("0xABC", mkAccount 1%N (mkURL "" "")); ("0xDEF", mkAccount 2%N (mkURL "" ""))]
           [(mkAccount 1%N (mkURL "keystore" "/keys/1"), "p1");
            (mkAccount 2%N (mkURL "keystore" "/keys/2"), "p1")]
           (withPasswords ["p1"] calm).

(** A call of [startNode] made before the unlock loop. *)
Definition earlyCall (e : effect) : Prop :=
  match e with
  | NodeStart _ | Backends _ | MakePasswordList => True
  | _ => False
  end.

(** The passphrase of a log entry is the one of a position of the
    entry's address in the comma-split list. *)
Definition byPosition (unlocks passwords : list string) (ap : string * string) : Prop :=
  exists position entry,
    nth_error unlocks position = Some entry /\
    fst ap = TrimSpace entry /\
    snd ap = passwordFor passwords position.

(** A key store where the second account has another passphrase than
    the one the list holds for it. *)
Definition secondLocked : Sim :=
  withKeys [("0xABC", mkAccount 1%N (mkURL "" "")); ("0xDEF", mkAccount 2%N (mkURL "" ""))]
           [(mkAccount 1%N (mkURL "keystore" "/keys/1"), "p1");
            (mkAccount 2%N (mkURL "keystore" "/keys/2"), "secret")]
           (withPasswords ["p1"; "p2"; "p3"] calm).

(** A call of the retry loop and of the recovery. *)
Definition retryCall (e : effect) : Prop :=
  match e with
  | Unlock _ _ _ | PromptPassword _ | Println _ | Printf _ _ | Log _ _ _ => True
  | _ => False
  end.

(** A call of the loop over the requested accounts. *)
Definition loopCall (e : effect) : Prop :=
  match e with
  | MakeAddress _ _ => True
  | _ => retryCall e
  end.

(** ** The order of the stages on every path *)

(** The program only reports and ends the process: it makes no call of
    a stage and does not return. *)
Fixpoint reportsAndExits {A} (p : prog A) : Prop :=
  match p with
  | Ret _ => False
  | Halt _ => True
  | Vis e k => stageOf e = None /\ forall r, reportsAndExits (k r)
  end.

(** On every path the calls belong to stages whose position in the code
    lies between [lo] and [hi] and never decreases, and after a failed
    step the program only reports and ends the process. *)
Fixpoint staged {A} (lo hi : nat) (p : prog A) : Prop :=
  match p with
  | Ret _ => True
  | Halt _ => True
  | Vis e k =>
      match stageOf e with
      | None => forall r, staged lo hi (k r)
      | Some st =>
          (lo <= codeRank st <= hi)%nat /\
          forall r, (failedAnswer e r = true -> reportsAndExits (k r)) /\
                    staged (codeRank st) hi (k r)
      end
  end.

(** The statements of [startServices] after the call of [startNode]. *)
Definition servicesAfterNode (context : Context) (rootDir : string)
    (storeApp : StoreApp) (emNode : Node) : prog (option Services * option error) :=
  let addr := GlobalString context ABCIAddrFlag_Name in
  let abci := GlobalString context ABCIProtocolFlag_Name in
  r <- call (Service emNode) ;;
  match r with
  | Err err => Halt (Fatalf "ethereum backend service not running: %v" [AErr (Some err)])
  | Ok backend =>
  r <- call (Attach emNode) ;;
  match r with
  | Err err => Halt (Fatalf "Failed to attach to the inproc geth: %v" [AErr (Some err)])
  | Ok rpcClient =>
  r <- call (NewEthermintApplication backend rpcClient) ;;
  match r with
  | Err err => printAndExit err
  | Ok ethApp =>
  call (AppSetLogger ethApp "ethermint") ;;
  r <- call (NewServer addr abci ethApp) ;;
  match r with
  | Err err => printAndExit err
  | Ok srv =>
  call (SrvSetLogger srv "abci-server") ;;
  err <- call (SrvStart srv) ;;
  match err with
  | Some e => printAndExit e
  | None =>
  r <- call (CreateBaseCoinApp rootDir storeApp) ;;
  match r with
  | Err err => printAndExit err
  | Ok basecoinApp =>
  tm <- startTendermint basecoinApp ;;
  match snd tm with
  | Some err => printAndExit err
  | None =>
      Ret (Some (mkServices (Some backend) (Some rpcClient) (Some srv) (fst tm)),
           None)
  end end end end end end end.

(** The client creator [startTendermint] builds. *)
Definition clientCreatorFor (basecoinApp : option App) (cfg : Config) : ClientCreator :=
  match basecoinApp with
  | Some a => NewLocalClientCreator a
  | None => DefaultClientCreator (ProxyApp cfg) (ABCI cfg) (DBDir cfg)
  end.

(** The calls of [servicesAfterNode] when every one of them succeeds. *)
Definition bringUpTrace (context : Context) (rootDir : string) (storeApp : StoreApp)
    (emNode : Node) (b : Backend) (c : RpcClient) (a : EthApp) (srv : Server)
    (basecoinApp : option App) (cfg : Config) (pv : PrivValidator) (n : TmNode) : trace :=
  [Ev (Service emNode) (Ok b);
   Ev (Attach emNode) (Ok c);
   Ev (NewEthermintApplication b c) (Ok a);
   Ev (AppSetLogger a "ethermint") tt;
   Ev (NewServer (GlobalString context ABCIAddrFlag_Name)
                 (GlobalString context ABCIProtocolFlag_Name) a) (Ok srv);
   Ev (SrvSetLogger srv "abci-server") tt;
   Ev (SrvStart srv) None;
   Ev (CreateBaseCoinApp rootDir storeApp) (Ok basecoinApp);
   Ev ParseConfig (Ok cfg);
   Ev (LoadOrGenPrivValidatorFS (PrivValidatorFile cfg)) pv;
   Ev (NewNode cfg pv (clientCreatorFor basecoinApp cfg)) (Ok n);
   Ev (TmStart n) None].

(** Not a call that attaches a client or builds the bridge. *)
Definition nodeCall (e : effect) : Prop :=
  match e with
  | Attach _ | NewEthermintApplication _ _ => False
  | _ => True
  end.

(** A world with one wallet attached, and the event of its arrival. *)
Definition ledger : Wallet := mkWallet 7 (mkURL "ledger" "usb-1").

Definition oneWallet : Sim := withWallets [ledger] [] calm.

(** ** Further observations of the runs *)

(** The [Unlock] calls with their answers, in order. *)
Definition unlockEvents (t : trace) : list (KeyStore * Account * string * option error) :=
  flat_map (fun ev =>
    match ev with
    | Ev e r =>
        match e as e' return resp e' -> list (KeyStore * Account * string * option error) with
        | Unlock ks a p => fun r => [(ks, a, p, r)]
        | _ => fun _ => []
        end r
    end) t.

(** The prompt [unlockAccount] builds for the attempt [k]. *)
Definition attemptLine (address : string) (k : Z) : string :=
  ("Unlocking account " ++ address ++ " | Attempt " ++ itoa k ++ "/" ++ itoa 3)%string.

(** The lines printed right before a password is asked for. *)
Fixpoint headings (es : list effect) : list string :=
  match es with
  | [] => []
  | Println [AStr line] :: rest =>
      match rest with
      | PromptPassword _ :: _ => line :: headings rest
      | _ => headings rest
      end
  | _ :: rest => headings rest
  end.

(** The number of key files offered by the ambiguous answers of a run. *)
Definition offeredMatches (t : trace) : nat :=
  list_sum (map (fun u => match snd u with
                          | Some (AmbiguousAddrError _ Matches) => List.length Matches
                          | _ => 0%nat
                          end) (unlockEvents t)).

(** ** How a failure ends the process *)

(** The program prints the lines [prints], one [fmt.Println] each, and
    ends the process as [x]. *)
Fixpoint endsWith {A} (prints : list (list arg)) (x : halt) (p : prog A) {struct p}
    : Prop :=
  match p with
  | Ret _ => False
  | Halt y => prints = [] /\ y = x
  | Vis e k =>
      match prints with
      | [] => False
      | line :: more =>
          e = Println line /\ forall r, endsWith more x (k r)
      end
  end.

(** What the main sequence does about a failed call, read off the
    statement that follows the call: the lines it prints and the way
    the process ends.  [None] for the answers that are no failure and
    for the calls whose handling lies outside [services.go]. *)
Definition diagnosis (ev : event) : option (list (list arg) * halt) :=
  match ev with
  | Ev e r =>
      match e as e' return resp e' -> option (list (list arg) * halt) with
      | MakeAddress _ _ => fun r =>
          match r with
          | Err err => Some ([], Fatalf "Could not list accounts: %v" [AErr (Some err)])
          | Ok _ => None
          end
      | PromptPassword p => fun r =>
          match r with
          | Err err =>
              if p =? "Passphrase: "
              then Some ([], Fatalf "Failed to read passphrase: %v" [AErr (Some err)])
              else if p =? "Repeat passphrase: "
              then Some ([], Fatalf "Failed to read passphrase confirmation: %v"
                               [AErr (Some err)])
              else None
          | Ok _ => None
          end
      | Service _ => fun r =>
          match r with
          | Err err => Some ([], Fatalf "ethereum backend service not running: %v"
                                   [AErr (Some err)])
          | Ok _ => None
          end
      | Attach _ => fun r =>
          match r with
          | Err err => Some ([], Fatalf "Failed to attach to the inproc geth: %v"
                                   [AErr (Some err)])
          | Ok _ => None
          end
      | NewEthermintApplication _ _ => fun r =>
          match r with Err err => Some ([[AErr (Some err)]], OsExit 1) | Ok _ => None end
      | NewServer _ _ _ => fun r =>
          match r with Err err => Some ([[AErr (Some err)]], OsExit 1) | Ok _ => None end
      | SrvStart _ => fun r =>
          match r with Some err => Some ([[AErr (Some err)]], OsExit 1) | None => None end
      | CreateBaseCoinApp _ _ => fun r =>
          match r with Err err => Some ([[AErr (Some err)]], OsExit 1) | Ok _ => None end
      | ParseConfig => fun r =>
          match r with Err err => Some ([[AErr (Some err)]], OsExit 1) | Ok _ => None end
      | NewNode _ _ _ => fun r =>
          match r with Err err => Some ([[AErr (Some err)]], OsExit 1) | Ok _ => None end
      | TmStart _ => fun r =>
          match r with Some err => Some ([[AErr (Some err)]], OsExit 1) | None => None end
      | _ => fun _ => None
      end r
  end.

(** On every path, a call with a diagnosis is followed by that
    diagnosis and nothing else. *)
Fixpoint diagnosed {A} (p : prog A) : Prop :=
  match p with
  | Ret _ => True
  | Halt _ => True
  | Vis e k =>
      forall r,
        (forall prints x, diagnosis (Ev e r) = Some (prints, x) -> endsWith prints x (k r)) /\
        diagnosed (k r)
  end.

(** ** Run-time panics *)

(** The handler [h], for a node without key store backend. *)
Definition withoutKeyStore {S} (h : handler S) : handler S :=
  fun e =>
    match e as e' return S -> resp e' * S with
    | Backends _ => fun s => ([], s)
    | e' => h e'
    end.

(** ** What the watcher logs *)

(** The failed [Open] calls with their errors, in order. *)
Definition failedOpens (t : trace) : list (Wallet * error) :=
  flat_map (fun ev =>
    match ev with
    | Ev e r =>
        match e as e' return resp e' -> list (Wallet * error) with
        | WalletOpen w _ => fun r => match r with None => [] | Some err => [(w, err)] end
        | _ => fun _ => []
        end r
    end) t.

(** The key-value context of the warnings logged, in order. *)
Definition warnings (t : trace) : list (list arg) :=
  flat_map (fun e => match e with Log Warn _ ctx => [ctx] | _ => [] end) (calls t).

(** The context of the warning about a failed open. *)
Definition warningFor (f : Wallet * error) : list arg :=
  [AStr "url"; AURL (WalletURL (fst f)); AStr "err"; AErr (Some (snd f))].

(** The lines logged at the level of information, in order. *)
Definition infoLines (t : trace) : list (string * list arg) :=
  flat_map (fun e => match e with Log Info msg ctx => [(msg, ctx)] | _ => [] end) (calls t).

(** The line the watcher logs about a status it read and about a wallet
    it closes. *)
Definition announcement (ev : event) : list (string * list arg) :=
  match ev with
  | Ev e r =>
      match e as e' return resp e' -> list (string * list arg) with
      | WalletStatus w => fun status =>
          [("New wallet appeared",
            [AStr "url"; AURL (WalletURL w); AStr "status"; AStr status])]
      | WalletClose w => fun _ =>
          [("Old wallet dropped", [AStr "url"; AURL (WalletURL w)])]
      | _ => fun _ => []
      end r
  end.

(** The derivation paths handed to [SelfDerive], in order. *)
Definition derivationPaths (t : trace) : list (list Z) :=
  flat_map (fun e => match e with
                     | WalletSelfDerive _ path _ => [path]
                     | _ => []
                     end) (calls t).

(** The wallets whose status was read, in order. *)
Definition statusReads (t : trace) : list Wallet :=
  flat_map (fun e => match e with WalletStatus w => [w] | _ => [] end) (calls t).

(** The log of [t] follows its wallet calls. *)
Definition watcherLog (t : trace) : Prop :=
  warnings t = map warningFor (failedOpens t) /\
  infoLines t = flat_map announcement t /\
  Forall (fun path => path = DefaultBaseDerivationPath) (derivationPaths t).

(** ** The wiring of the services *)

(** What a call of the second half of [startServices] is built from,
    given the events [t] that came before it, for the command line
    [ctx]: the objects it works on are answers of successful earlier
    calls, its other operands are the flags and the arguments of
    [startServices]. *)
Definition wired (ctx : Context) (rootDir : string) (storeApp : StoreApp)
    (t : trace) (e : effect) : Prop :=
  match e with
  | Service stack => In (Ev MakeFullNode (Ok stack)) t
  | Attach stack => In (Ev MakeFullNode (Ok stack)) t
  | NewEthermintApplication b c =>
      exists stack, In (Ev (Service stack) (Ok b)) t /\ In (Ev (Attach stack) (Ok c)) t
  | AppSetLogger a module =>
      module = "ethermint" /\ exists b c, In (Ev (NewEthermintApplication b c) (Ok a)) t
  | NewServer addr transport a =>
      addr = GlobalString ctx ABCIAddrFlag_Name /\
      transport = GlobalString ctx ABCIProtocolFlag_Name /\
      exists b c, In (Ev (NewEthermintApplication b c) (Ok a)) t
  | SrvSetLogger srv module =>
      module = "abci-server" /\
      exists addr transport a, In (Ev (NewServer addr transport a) (Ok srv)) t
  | SrvStart srv => exists addr transport a, In (Ev (NewServer addr transport a) (Ok srv)) t
  | CreateBaseCoinApp dir store => dir = rootDir /\ store = storeApp
  | LoadOrGenPrivValidatorFS file =>
      exists cfg, In (Ev ParseConfig (Ok cfg)) t /\ file = PrivValidatorFile cfg
  | NewNode cfg pv papp =>
      In (Ev ParseConfig (Ok cfg)) t /\
      In (Ev (LoadOrGenPrivValidatorFS (PrivValidatorFile cfg)) pv) t /\
      exists basecoinApp,
        In (Ev (CreateBaseCoinApp rootDir storeApp) (Ok basecoinApp)) t /\
        papp = clientCreatorFor basecoinApp cfg
  | TmStart n => exists cfg pv papp, In (Ev (NewNode cfg pv papp) (Ok n)) t
  | _ => True
  end.

(** On every path each call is wired to the events before it; [seen]
    holds the events before the program, latest first. *)
Fixpoint wiredFrom {A} (ctx : Context) (rootDir : string) (storeApp : StoreApp)
    (seen : trace) (p : prog A) : Prop :=
  match p with
  | Ret _ => True
  | Halt _ => True
  | Vis e k =>
      wired ctx rootDir storeApp seen e /\
      forall r, wiredFrom ctx rootDir storeApp (Ev e r :: seen) (k r)
  end.

(** A call of [startNode]. *)
Definition startNodeCall (e : effect) : Prop :=
  match e with
  | NodeStart _ | Backends _ | MakePasswordList | MakeChan _ | Subscribe _ _ | Go _ => True
  | _ => loopCall e
  end.

(** ** Strings *)

Fixpoint containsByte (c : ascii) (s : string) : bool :=
  match s with
  | EmptyString => false
  | String a rest => Ascii.eqb a c || containsByte c rest
  end.

Fixpoint countByte (c : ascii) (s : string) : nat :=
  match s with
  | EmptyString => 0
  | String a rest => (if Ascii.eqb a c then 1 else 0) + countByte c rest
  end.

(** The string starts with white space, ends with white space. *)
Definition startsWithSpace (s : string) : bool :=
  isSome (stripAny spaceRunes (list_ascii_of_string s)).

Definition endsWithSpace (s : string) : bool :=
  isSome (stripAny (map (@rev ascii) spaceRunes) (rev (list_ascii_of_string s))).

(** A key store where one address has three key files, none of which
    the passphrase of the list opens. *)
Definition threeLockedFiles : Sim :=
  withKeys [("0x0a", mkAccount 10%N (mkURL "" ""))]
           [(keyA, "alpha"); (keyB, "bravo"); (keyC, "charlie")]
           (withPasswords ["delta"] calm).

(** A call to the console or to the log. *)
Definition consoleCall (e : effect) : Prop :=
  match e with
  | PromptPassword _ | Println _ | Printf _ _ | Log _ _ _ => True
  | _ => False
  end.

(** The attempt numbers of the iterations of the retry loop entered
    with [remaining] iterations to go: [trials + 1] of each. *)
Fixpoint attemptNumbers (remaining : nat) : list Z :=
  match remaining with
  | O => []
  | S n => (3 - Z.of_nat remaining + 1)%Z :: attemptNumbers n
  end.

(** Not a question to the console. *)
Definition notPrompt (e : effect) : Prop :=
  match e with
  | PromptPassword _ => False
  | _ => True
  end.


(** ** The consensus node *)

(** The error a step of [startTendermint] answered. *)
Definition consensusError (ev : event) : option error :=
  match ev with
  | Ev e r =>
      match e as e' return resp e' -> option error with
      | ParseConfig => fun r => match r with Err err => Some err | Ok _ => None end
      | NewNode _ _ _ => fun r => match r with Err err => Some err | Ok _ => None end
      | TmStart _ => fun r => r
      | _ => fun _ => None
      end r
  end.

(** ** The start of the watcher *)

(** A call that sets the watcher up: the channel, the subscription, the
    goroutine. *)
Definition watcherSetup (e : effect) : bool :=
  match e with
  | MakeChan _ | Subscribe _ _ | Go _ => true
  | _ => false
  end.

(** ** How a run ends *)

(** What the unlocking of the requested accounts has come to, as the
    calls made so far tell: the address being unlocked, the number of
    passphrases the key store refused for it, the key files still to be
    tried once the key store answered with an ambiguous match, and
    whether the account resolved last is still to be unlocked. *)
Record unlocking := mkUnlocking {
  uAddress : string;
  uRefused : nat;
  uOffered : option (list Account);
  uPending : bool
}.

Definition idle : unlocking := mkUnlocking "" 0 None false.

(** The effect of one call on it. *)
Definition advance (u : unlocking) (ev : event) : unlocking :=
  match ev with
  | Ev e r =>
      match e as e' return resp e' -> unlocking with
      | MakeAddress _ address => fun r =>
          match r with
          | Ok _ => mkUnlocking address 0 None true
          | Err _ => u
          end
      | Unlock _ _ _ => fun r =>
          match r with
          | None => mkUnlocking (uAddress u) (uRefused u) (uOffered u) false
          | Some err =>
              match uOffered u with
              | Some remaining =>
                  mkUnlocking (uAddress u) (uRefused u) (Some (tl remaining)) (uPending u)
              | None =>
                  match err with
                  | ErrDecrypt =>
                      mkUnlocking (uAddress u) (S (uRefused u)) None (uPending u)
                  | AmbiguousAddrError _ Matches =>
                      mkUnlocking (uAddress u) (uRefused u) (Some Matches) (uPending u)
                  | OtherError _ => u
                  end
              end
          end
      | _ => fun _ => u
      end r
  end.

Definition unlockingFrom (u : unlocking) (t : trace) : unlocking := fold_left advance t u.

Definition unlockingAfter (t : trace) : unlocking := unlockingFrom idle t.

(** What the code does about the answer [ev], the unlocking standing
    at [u]: [Some (tail, x)] when the answer is a failure, with the calls
    [tail] that still follow it and the way [x] the process ends;
    [None] when the run goes on.  For [Unlock], the third refused
    passphrase of the retry loop is a failure, as is every error that is
    neither [ErrDecrypt] nor an ambiguous match; in the recovery from an
    ambiguous match the refusal of the last key file is; an ambiguous
    match that offers no key file is one as soon as it is answered.  The
    other failures are those of [diagnosis], with their prints; the
    fatal exits of [MakeFullNode], [StartNode] and [MakePasswordList],
    and the panic of the index [[0]] into an empty list of backends,
    are added. *)
Definition verdict (u : unlocking) (ev : event) : option (list effect * halt) :=
  match ev with
  | Ev e r =>
      match e as e' return resp e' -> option (list effect * halt) with
      | MakeFullNode => fun r =>
          match r with
          | Err err =>
              Some ([], Fatalf "Failed to create the protocol stack: %v" [AErr (Some err)])
          | Ok _ => None
          end
      | NodeStart _ => fun r =>
          match r with
          | Some err => Some ([], Fatalf "Error starting protocol stack: %v" [AErr (Some err)])
          | None => None
          end
      | Backends _ => fun r =>
          match r with
          | [] => Some ([], Panic "index out of range")
          | _ :: _ => None
          end
      | MakePasswordList => fun r =>
          match r with
          | Err err => Some ([], Fatalf "Failed to read password file: %v" [AErr (Some err)])
          | Ok _ => None
          end
      | Unlock _ account _ => fun r =>
          match r with
          | None => None
          | Some err =>
              match uOffered u with
              | Some remaining =>
                  match remaining with
                  | _ :: _ :: _ => None
                  | _ => Some ([], Fatalf "None of the listed files could be unlocked." [])
                  end
              | None =>
                  match err with
                  | ErrDecrypt =>
                      if (uRefused u <? 2)%nat then None
                      else Some ([], Fatalf "Failed to unlock account %s (%v)"
                                       [AStr (uAddress u); AErr (Some ErrDecrypt)])
                  | AmbiguousAddrError Addr [] =>
                      Some ([Log Info "Unlocked account"
                               [AStr "address"; AAddr (AccAddress account)];
                             Printf "Multiple key files exist for address %x:\n" [AAddr Addr];
                             Println [AStr "Testing your passphrase against all of them..."]],
                            Fatalf "None of the listed files could be unlocked." [])
                  | AmbiguousAddrError _ (_ :: _) => None
                  | OtherError msg =>
                      Some ([], Fatalf "Failed to unlock account %s (%v)"
                                  [AStr (uAddress u); AErr (Some (OtherError msg))])
                  end
              end
          end
      | e0 => fun r0 =>
          match diagnosis (Ev e0 r0) with
          | Some (prints, x) => Some (map Println prints, x)
          | None => None
          end
      end r
  end.

(** A call that only reports: a print or a log line. *)
Definition reportCall (e : effect) : Prop :=
  match e with
  | Println _ | Printf _ _ | Log _ _ _ => True
  | _ => False
  end.

(** The program makes the calls [tail], all of them reports, and ends
    the process as [x]. *)
Fixpoint endsBy {A} (tail : list effect) (x : halt) (p : prog A) {struct p} : Prop :=
  match p with
  | Ret _ => False
  | Halt y => tail = [] /\ y = x
  | Vis e k =>
      match tail with
      | [] => False
      | e' :: more => e = e' /\ reportCall e /\ forall r, endsBy more x (k r)
      end
  end.

(** On every path of [p], entered with the unlocking at [u]: an answer
    with a verdict is followed by what the verdict says and nothing
    else, the process ends in no other way, and a path that returns
    [a] leaves the unlocking in a state with [post a]. *)
Fixpoint judged {A} (post : A -> unlocking -> Prop) (u : unlocking) (p : prog A) : Prop :=
  match p with
  | Ret a => post a u
  | Halt _ => False
  | Vis e k =>
      forall r,
        match verdict u (Ev e r) with
        | Some (tail, x) => endsBy tail x (k r)
        | None => judged post (advance u (Ev e r)) (k r)
        end
  end.

(** ** The order of the calls, the watcher set apart *)

(** The position of a call in the text of [startServices], the calls
    that set the watcher up ranked after the other calls of their
    stage. *)
Definition fineRank (e : effect) : option nat :=
  match stageOf e with
  | Some st => Some (2 * codeRank st + (if watcherSetup e then 1 else 0))%nat
  | None => None
  end.

Definition fineRanks (t : trace) : list nat :=
  flat_map (fun e => match fineRank e with Some n => [n] | None => [] end) (calls t).

(** On every path the ranks of the calls lie between [lo] and [hi] and
    never decrease. *)
Fixpoint ordered {A} (lo hi : nat) (p : prog A) : Prop :=
  match p with
  | Ret _ => True
  | Halt _ => True
  | Vis e k =>
      match fineRank e with
      | None => forall r, ordered lo hi (k r)
      | Some n => (lo <= n <= hi)%nat /\ forall r, ordered n hi (k r)
      end
  end.

(** ** What a stage finds done *)

(** What a call of the stage [st] finds among the events [seen] before
    it: the last step of the stage before, answered without error. *)
Definition entered (seen : trace) (st : stage) : Prop :=
  match st with
  | StartExecution => True
  | UnlockAccounts => exists stack, In (Ev (NodeStart stack) None) seen
  | ResolveBackend => exists g, In (Ev (Go g) tt) seen
  | AttachClient => exists stack b, In (Ev (Service stack) (Ok b)) seen
  | BuildBridge => exists stack c, In (Ev (Attach stack) (Ok c)) seen
  | StartApplicationServer => exists b c a, In (Ev (NewEthermintApplication b c) (Ok a)) seen
  | StartConsensus => exists srv, In (Ev (SrvStart srv) None) seen
  end.

Definition prepared (seen : trace) (e : effect) : Prop :=
  match stageOf e with
  | Some st => entered seen st
  | None => True
  end.

(** On every path each call finds its stage entered; [seen] holds the
    events before the program, latest first. *)
Fixpoint preparedFrom {A} (seen : trace) (p : prog A) : Prop :=
  match p with
  | Ret _ => True
  | Halt _ => True
  | Vis e k => prepared seen e /\ forall r, preparedFrom (Ev e r :: seen) (k r)
  end.

(** ** The passphrases tried for each entry *)

(** The passphrases of the [Unlock] calls up to the next [MakeAddress]. *)
Fixpoint attemptsOf (es : list effect) : list string :=
  match es with
  | [] => []
  | MakeAddress _ _ :: _ => []
  | Unlock _ _ p :: rest => p :: attemptsOf rest
  | _ :: rest => attemptsOf rest
  end.

(** Every resolution, with the passphrases tried for it before the next
    resolution. *)
Fixpoint unlockSessions (es : list effect) : list (string * list string) :=
  match es with
  | [] => []
  | MakeAddress _ address :: rest => (address, attemptsOf rest) :: unlockSessions rest
  | _ :: rest => unlockSessions rest
  end.

(** The entries of the comma-split flag that are not blank, trimmed,
    each with its position in the list, the blank ones counted; [i] is
    the position of the first entry. *)
Fixpoint requestedAt (i : nat) (unlocks : list string) : list (nat * string) :=
  match unlocks with
  | [] => []
  | account :: rest =>
      (if negb (TrimSpace account =? "") then [(i, TrimSpace account)] else [])
        ++ requestedAt (S i) rest
  end.

(** The session [ses] is that of the entry [req]: its address is
    resolved, and every passphrase tried is the one of the entry's own
    position. *)
Definition servedWith (passwords : list string) (req : nat * string)
    (ses : string * list string) : Prop :=
  fst ses = snd req /\
  Forall (fun p => p = passwordFor passwords (fst req)) (snd ses).

(** A key store that refuses every passphrase, in front of the
    simulated world. *)
Definition refusing : handler Sim := withKeyStoreAnswer (Some ErrDecrypt) sim.

(** A call that leaves the unlocking and the watcher as they are. *)
Definition settled (e : effect) : Prop :=
  match e with
  | MakeAddress _ _ | Unlock _ _ _ | MakeChan _ | Subscribe _ _ | Go _ => False
  | _ => True
  end.

(** Every failed [Open] of [t] is followed at once by the warning about
    it. *)
Definition warnedAtOnce (t : trace) : Prop :=
  forall t1 ev t2 f,
    t = t1 ++ ev :: t2 -> failedOpens [ev] = [f] ->
    exists msg rest, t2 = Ev (Log Warn msg (warningFor f)) tt :: rest.
(** * Properties *)

(** ** Runs and executions *)

Lemma run_bind St A B (h : handler St) (p : prog A) (f : A -> prog B) (s : St) :
  run h (bind p f) s =
  match outcomeOf (run h p s) with
  | Returned a =>
      let r2 := run h (f a) (finalOf (run h p s)) in
      mkRan (traceOf (run h p s) ++ traceOf r2) (outcomeOf r2) (finalOf r2)
  | Halted x => mkRan (traceOf (run h p s)) (Halted x) (finalOf (run h p s))
  end.
Proof.
  revert s; induction p as [a | x | e k IH]; intros s; simpl.
  - destruct (run h (f a) s); reflexivity.
  - reflexivity.
  - destruct (h e s) as [r s1]; simpl.
    rewrite IH.
    destruct (outcomeOf (run h (k r) s1)); reflexivity.
Qed.

Lemma run_exec St A (h : handler St) (p : prog A) (s : St) :
  exec p (traceOf (run h p s)) (outcomeOf (run h p s)).
Proof.
  revert s; induction p as [a | x | e k IH]; intros s; simpl; auto.
  destruct (h e s) as [r s1]; simpl.
  exists r, (traceOf (run h (k r) s1)); auto.
Qed.

Lemma exec_bind A B (p : prog A) (f : A -> prog B) t o :
  exec (bind p f) t o ->
  (exists x, exec p t (Halted x) /\ o = Halted x) \/
  (exists a t1 t2, exec p t1 (Returned a) /\ exec (f a) t2 o /\ t = t1 ++ t2).
Proof.
  revert t; induction p as [a | x | e k IH]; intros t H; simpl in *.
  - right. exists a, [], t. auto.
  - left. destruct H as [-> ->]. exists x. auto.
  - destruct H as (r & t' & -> & H).
    destruct (IH r t' H) as [(x & Hx & ->) | (a & t1 & t2 & H1 & H2 & ->)].
    + left. exists x. split; auto. exists r, t'. auto.
    + right. exists a, (Ev e r :: t1), t2. split; [|split]; auto.
      exists r, t1. auto.
Qed.

Lemma calls_app t1 t2 : calls (t1 ++ t2) = calls t1 ++ calls t2.
Proof. apply map_app. Qed.

Lemma unlockCalls_app t1 t2 : unlockCalls (t1 ++ t2) = unlockCalls t1 ++ unlockCalls t2.
Proof. unfold unlockCalls. rewrite calls_app. apply flat_map_app. Qed.

Lemma resolutions_app t1 t2 : resolutions (t1 ++ t2) = resolutions t1 ++ resolutions t2.
Proof. unfold resolutions. rewrite calls_app. apply flat_map_app. Qed.

Lemma prompts_app t1 t2 : prompts (t1 ++ t2) = prompts t1 ++ prompts t2.
Proof. unfold prompts. rewrite calls_app. apply flat_map_app. Qed.

(** ** Obtaining a passphrase *)

Lemma index_in_range A (l : list A) (i : Z) (d : A) :
  (0 <= i < len l)%Z -> index l i = Ret (nth (Z.to_nat i) l d).
Proof.
  intros Hi. unfold index.
  replace ((0 <=? i)%Z && (i <? len l)%Z) with true
    by (symmetry; apply andb_true_iff; split; [apply Z.leb_le | apply Z.ltb_lt]; lia).
  destruct (nth_error l (Z.to_nat i)) as [x |] eqn:E.
  - rewrite (nth_error_nth _ _ d E). reflexivity.
  - apply nth_error_None in E. unfold len in Hi. lia.
Qed.

Lemma len_pos A (l : list A) : l <> [] -> (0 < len l)%Z.
Proof. destruct l; [congruence | unfold len; simpl; lia]. Qed.

Lemma nth_last_entry A (l : list A) (d : A) :
  nth (List.length l - 1) l d = last l d.
Proof.
  induction l as [| a l IH]; [reflexivity |].
  destruct l as [| b l']; [reflexivity |].
  replace (List.length (a :: b :: l') - 1)%nat with (S (List.length (b :: l') - 1))
    by (simpl; lia).
  exact IH.
Qed.

Lemma getPassPhrase_preloaded prompt confirmation i passwords :
  passwords <> [] -> (0 <= i)%Z ->
  getPassPhrase prompt confirmation i passwords =
  Ret (nth (Z.to_nat (Z.min i (len passwords - 1))) passwords "").
Proof.
  intros Hne Hi. pose proof (len_pos Hne) as Hl. unfold getPassPhrase.
  replace (len passwords >? 0)%Z with true by (symmetry; apply Z.gtb_lt; lia).
  destruct (i <? len passwords)%Z eqn:E.
  - apply Z.ltb_lt in E. rewrite Z.min_l by lia. apply index_in_range. lia.
  - apply Z.ltb_ge in E. rewrite Z.min_r by lia. apply index_in_range. lia.
Qed.

(** C6.  With a password list, the passphrase is the entry at the index,
    and the last entry for every index at or beyond the length of the
    list, without any call to the console; without a list, the passphrase
    is what the echo-free console prompt "Passphrase: " returns, after the
    prompt line is printed, and a failed read ends the process. *)
Theorem getPassPhrase_clamps_or_prompts :
  forall (prompt : string) (i : Z) (passwords : list string),
    (passwords <> [] -> (0 <= i)%Z ->
       ((i < len passwords)%Z ->
          getPassPhrase prompt false i passwords = Ret (nth (Z.to_nat i) passwords "")) /\
       ((len passwords <= i)%Z ->
          getPassPhrase prompt false i passwords = Ret (last passwords ""))) /\
    (forall St (h : handler St) (s : St),
       let r := run h (getPassPhrase prompt false i []) s in
       prompts (traceOf r) = ["Passphrase: "] /\
       exists answer,
         In (Ev (PromptPassword "Passphrase: ") answer) (traceOf r) /\
         outcomeOf r =
           match answer with
           | Ok password => Returned password
           | Err err => Halted (Fatalf "Failed to read passphrase: %v" [AErr (Some err)])
           end).
Proof.
  intros prompt i passwords. split.
  - intros Hne Hi. pose proof (len_pos Hne) as Hl. split; intros Hb.
    + rewrite getPassPhrase_preloaded by assumption.
      rewrite Z.min_l by lia. reflexivity.
    + rewrite getPassPhrase_preloaded by assumption.
      rewrite Z.min_r by lia.
      replace (Z.to_nat (len passwords - 1)) with (List.length passwords - 1)%nat
        by (unfold len; lia).
      rewrite nth_last_entry. reflexivity.
  - intros St h s. unfold getPassPhrase. simpl.
    destruct (negb (prompt =? "")); simpl.
    + destruct (h (Println [AStr prompt]) s) as [[] s1]; simpl.
      destruct (h (PromptPassword "Passphrase: ") s1) as [[pw | err] s2]; simpl;
        (split; [reflexivity |]);
        [exists (Ok pw) | exists (Err err)]; simpl; auto.
    + destruct (h (PromptPassword "Passphrase: ") s) as [[pw | err] s2]; simpl;
        (split; [reflexivity |]);
        [exists (Ok pw) | exists (Err err)]; simpl; auto.
Qed.
(** ** The string functions on the inputs of the scenarios *)

Example Split_example :
  Split "0xABC, , 0xDEF" "," = ["0xABC"; " "; " 0xDEF"].
Proof. reflexivity. Qed.

Example Split_empty : Split "" "," = [""] /\ Split "a," "," = ["a"; ""].
Proof. split; reflexivity. Qed.

Example TrimSpace_example :
  map TrimSpace ["0xABC"; " "; " 0xDEF"; "	a b
"] = ["0xABC"; ""; "0xDEF"; "a b"].
Proof. reflexivity. Qed.

Example itoa_example : map itoa [1; 2; 3; 0; 12]%Z = ["1"; "2"; "3"; "0"; "12"].
Proof. reflexivity. Qed.

(** White space beyond ASCII: a no-break space (U+00A0) in front and an
    ideographic space (U+3000) behind are trimmed, a lone byte 0xA0 is
    not. *)
Example TrimSpace_unicode :
  TrimSpace (string_of_list_ascii (bytes [194; 160; 97; 32; 98; 227; 128; 128])) = "a b" /\
  TrimSpace (string_of_list_ascii (bytes [160; 97])) = string_of_list_ascii (bytes [160; 97]).
Proof. split; reflexivity. Qed.

(** ** The retry loop of [unlockAccount] *)

Lemma run_call_bind St B (h : handler St) (e : effect) (f : resp e -> prog B) (s : St) :
  run h (bind (call e) f) s =
  let rest := run h (f (fst (h e s))) (snd (h e s)) in
  mkRan (Ev e (fst (h e s)) :: traceOf rest) (outcomeOf rest) (finalOf rest).
Proof. simpl. destruct (h e s); reflexivity. Qed.

Lemma getPassPhrase_available St (h : handler St) i passwords :
  passphraseAvailable h i passwords ->
  forall prompt s, exists password,
    outcomeOf (run h (getPassPhrase prompt false i passwords) s) = Returned password /\
    unlockCalls (traceOf (run h (getPassPhrase prompt false i passwords) s)) = [].
Proof.
  intros [[Hne Hi] | [-> Hread]] prompt s.
  - rewrite getPassPhrase_preloaded by assumption. simpl. eauto.
  - unfold getPassPhrase. simpl.
    destruct (negb (prompt =? "")); simpl.
    + destruct (h (Println [AStr prompt]) s) as [[] s1]; simpl.
      destruct (Hread "Passphrase: " s1) as [pw Hpw].
      destruct (h (PromptPassword "Passphrase: ") s1) as [r s2]; simpl in *.
      subst r. simpl. eauto.
    + destruct (Hread "Passphrase: " s) as [pw Hpw].
      destruct (h (PromptPassword "Passphrase: ") s) as [r s2]; simpl in *.
      subst r. simpl. eauto.
Qed.

Lemma unlockTrials_step ks account address i passwords n err0 :
  unlockTrials ks account address i passwords (S n) err0 =
  (password <- getPassPhrase
                 ("Unlocking account " ++ address ++ " | Attempt "
                  ++ itoa (3 - Z.of_nat (S n) + 1) ++ "/" ++ itoa 3)%string
                 false i passwords ;;
   err <- call (Unlock ks account password) ;;
   match err with
   | None =>
       call (Log Info "Unlocked account" [AStr "address"; AAddr (AccAddress account)]) ;;
       Ret (account, password)
   | Some (AmbiguousAddrError Addr Matches) =>
       call (Log Info "Unlocked account" [AStr "address"; AAddr (AccAddress account)]) ;;
       a <- ambiguousAddrRecovery ks Addr Matches password ;;
       Ret (a, password)
   | Some ErrDecrypt =>
       unlockTrials ks account address i passwords n (Some ErrDecrypt)
   | Some other => bailOut address (Some other)
   end).
Proof. reflexivity. Qed.

(** One iteration of the loop, against a key store with a fixed
    answer. *)
Lemma unlockTrials_iteration St (h : handler St) ks account address i passwords answer :
  passphraseAvailable h i passwords ->
  keyStoreAnswers h ks account answer ->
  forall n err0 s, exists password s1 t1,
    unlockCalls t1 = [] /\
    run h (unlockTrials ks account address i passwords (S n) err0) s =
    let rest :=
      run h (match answer with
             | None =>
                 call (Log Info "Unlocked account"
                         [AStr "address"; AAddr (AccAddress account)]) ;;
                 Ret (account, password)
             | Some (AmbiguousAddrError Addr Matches) =>
                 call (Log Info "Unlocked account"
                         [AStr "address"; AAddr (AccAddress account)]) ;;
                 a <- ambiguousAddrRecovery ks Addr Matches password ;;
                 Ret (a, password)
             | Some ErrDecrypt =>
                 unlockTrials ks account address i passwords n (Some ErrDecrypt)
             | Some other => bailOut address (Some other)
             end) s1 in
    mkRan (t1 ++ Ev (Unlock ks account password) answer :: traceOf rest)
          (outcomeOf rest) (finalOf rest).
Proof.
  intros Hpw Hks n err0 s.
  rewrite unlockTrials_step, run_bind.
  destruct (getPassPhrase_available Hpw
              ("Unlocking account " ++ address ++ " | Attempt "
               ++ itoa (3 - Z.of_nat (S n) + 1) ++ "/" ++ itoa 3)%string s)
    as (password & Hout & Hcalls).
  rewrite Hout. cbv zeta. rewrite run_call_bind. cbv zeta.
  specialize (Hks password
    (finalOf (run h (getPassPhrase
       ("Unlocking account " ++ address ++ " | Attempt "
        ++ itoa (3 - Z.of_nat (S n) + 1) ++ "/" ++ itoa 3)%string false i passwords) s))).
  rewrite Hks. simpl traceOf. simpl outcomeOf. simpl finalOf.
  eexists password, _, _. split; [exact Hcalls | reflexivity].
Qed.

(** C4.  Against a key store that answers every attempt with a
    decryption error the loop makes exactly three attempts and the
    process ends in the fatal message; entered with [n] iterations to go
    it makes exactly [n].  Wherever the loop stands, an error that is
    neither a decryption error nor an ambiguous match ends the process
    after that one attempt, and a successful attempt returns at once. *)
Theorem unlockAccount_retry_bounds :
  forall St (h : handler St) (ks : KeyStore) (address : string) (account : Account)
         (i : Z) (passwords : list string),
    passphraseAvailable h i passwords ->
    (keyStoreAnswers h ks account (Some ErrDecrypt) ->
       (forall s, fst (h (MakeAddress ks address) s) = Ok account ->
          let r := run h (unlockAccount ks address i passwords) s in
          List.length (unlockCalls (traceOf r)) = 3%nat /\
          outcomeOf r = Halted (Fatalf "Failed to unlock account %s (%v)"
                                  [AStr address; AErr (Some ErrDecrypt)])) /\
       (forall n err0 s,
          let r := run h (unlockTrials ks account address i passwords n err0) s in
          List.length (unlockCalls (traceOf r)) = n /\
          exited (outcomeOf r) = true)) /\
    (forall msg, keyStoreAnswers h ks account (Some (OtherError msg)) ->
       forall n err0 s,
         let r := run h (unlockTrials ks account address i passwords (S n) err0) s in
         List.length (unlockCalls (traceOf r)) = 1%nat /\
         outcomeOf r = Halted (Fatalf "Failed to unlock account %s (%v)"
                                 [AStr address; AErr (Some (OtherError msg))])) /\
    (keyStoreAnswers h ks account None ->
       forall n err0 s,
         let r := run h (unlockTrials ks account address i passwords (S n) err0) s in
         List.length (unlockCalls (traceOf r)) = 1%nat /\
         exists password, outcomeOf r = Returned (account, password)).
Proof.
  intros St h ks address account i passwords Hpw.
  assert (Hloop : keyStoreAnswers h ks account (Some ErrDecrypt) ->
            forall n err0 s,
              let r := run h (unlockTrials ks account address i passwords n err0) s in
              List.length (unlockCalls (traceOf r)) = n /\
              outcomeOf r = Halted (Fatalf "Failed to unlock account %s (%v)"
                [AStr address;
                 AErr (match n with O => err0 | _ => Some ErrDecrypt end)])).
  { intros Hks n. induction n as [| n IH]; intros err0 s.
    - simpl. auto.
    - destruct (@unlockTrials_iteration _ h ks account address i passwords _ Hpw Hks n err0 s)
        as (pw & s1 & t1 & Hc & ->).
      cbv zeta. simpl traceOf. simpl outcomeOf.
      destruct (IH (Some ErrDecrypt) s1) as [Hlen Hout].
      rewrite unlockCalls_app, Hc. simpl.
      split.
      + f_equal. exact Hlen.
      + rewrite Hout. destruct n; reflexivity. }
  split; [| split].
  - intros Hks. split.
    + intros s Hres. unfold unlockAccount. cbv zeta.
      rewrite run_call_bind. cbv zeta. rewrite Hres.
      simpl traceOf. simpl outcomeOf.
      destruct (Hloop Hks 3%nat None (snd (h (MakeAddress ks address) s))) as [Hlen Hout].
      split; [exact Hlen | exact Hout].
    + intros n err0 s. destruct (Hloop Hks n err0 s) as [Hlen Hout].
      split; [exact Hlen | cbv zeta; rewrite Hout; reflexivity].
  - intros msg Hks n err0 s.
    destruct (@unlockTrials_iteration _ h ks account address i passwords _ Hpw Hks n err0 s)
      as (pw & s1 & t1 & Hc & ->).
    cbv zeta. simpl. rewrite unlockCalls_app, Hc. simpl. auto.
  - intros Hks n err0 s.
    destruct (@unlockTrials_iteration _ h ks account address i passwords _ Hpw Hks n err0 s)
      as (pw & s1 & t1 & Hc & ->).
    cbv zeta. simpl.
    destruct (h (Log Info "Unlocked account" [AStr "address"; AAddr (AccAddress account)]) s1)
      as [[] s2]. simpl.
    rewrite unlockCalls_app, Hc. simpl. eauto.
Qed.

(** ** Ambiguous-match recovery *)

Lemma run_forEach_lines St (h : handler St) (l : list Account) (s : St) :
  traceOf (run h (forEach l (fun a => call (Println [AStr "  "; AURL (AccURL a)]))) s)
    = keyFileLines l /\
  outcomeOf (run h (forEach l (fun a => call (Println [AStr "  "; AURL (AccURL a)]))) s)
    = Returned tt.
Proof.
  revert s; induction l as [| a l IH]; intros s; [split; reflexivity |].
  simpl. destruct (h (Println [AStr "  "; AURL (AccURL a)]) s) as [[] s1]. simpl.
  destruct (IH s1) as [Ht Ho]. rewrite Ht, Ho. split; reflexivity.
Qed.

Lemma run_forEach_others St (h : handler St) (matched : Account) (l : list Account)
    (s : St) :
  let p := forEach l (fun a =>
             if negb (Account_eqb a matched)
             then call (Println [AStr "  "; AURL (AccURL a)])
             else Ret tt) in
  traceOf (run h p s) = keyFileLines (otherMatches matched l) /\
  outcomeOf (run h p s) = Returned tt.
Proof.
  cbv zeta. revert s; induction l as [| a l IH]; intros s; [split; reflexivity |].
  simpl. destruct (negb (Account_eqb a matched)); simpl.
  - destruct (h (Println [AStr "  "; AURL (AccURL a)]) s) as [[] s1]. simpl.
    destruct (IH s1) as [Ht Ho]. rewrite Ht, Ho. split; reflexivity.
  - apply IH.
Qed.

Lemma run_firstUnlocked St (h : handler St) ks auth (Matches : list Account) (s : St) :
  let r := run h (firstUnlocked ks Matches auth) s in
  exists tried : list (Account * error),
    (exists matched rest,
        Matches = map fst tried ++ matched :: rest /\
        traceOf r = failedUnlocks ks auth tried ++ [Ev (Unlock ks matched auth) None] /\
        outcomeOf r = Returned (Some matched)) \/
    (Matches = map fst tried /\
     traceOf r = failedUnlocks ks auth tried /\
     outcomeOf r = Returned None).
Proof.
  cbv zeta. revert s; induction Matches as [| a l IH]; intros s.
  - exists []. right. auto.
  - simpl. destruct (h (Unlock ks a auth) s) as [[err |] s1]; simpl.
    + destruct (IH s1) as (tried & [(m & rest & HM & Ht & Ho) | (HM & Ht & Ho)]);
        exists ((a, err) :: tried); [left; exists m, rest | right];
        simpl; rewrite Ht, Ho, <- HM; auto.
    + exists []. left. exists a, l. auto.
Qed.

Lemma printedURLs_lines (l : list Account) :
  printedURLs (calls (keyFileLines l)) = map AccURL l.
Proof. induction l as [| a l IH]; simpl; [| rewrite IH]; reflexivity. Qed.

Lemma reportedDuplicates_lines (l : list Account) (rest : list effect) :
  reportedDuplicates (calls (keyFileLines l) ++ rest) = reportedDuplicates rest.
Proof. induction l as [| a l IH]; simpl; auto. Qed.

Lemma reportedDuplicates_unlocks ks auth tried (rest : list effect) :
  reportedDuplicates (calls (failedUnlocks ks auth tried) ++ rest)
  = reportedDuplicates rest.
Proof. induction tried as [| a l IH]; simpl; auto. Qed.

(** C5.  The recovery tries the matches in turn with the passphrase
    already entered and stops at the first that unlocks: that match is
    the result, and the key files reported for removal are exactly the
    other matches; when none unlocks, every match was tried and the
    process ends in the fatal message.  For the matches [A; B; C] and a
    passphrase that only unlocks [B], the result is [B], [C] is not
    tried, and the files reported are [A] and [C]. *)
Theorem ambiguousAddrRecovery_first_match :
  (forall St (h : handler St) (s : St) (ks : KeyStore) (Addr : Address)
          (Matches : list Account) (auth : string),
     let r := run h (ambiguousAddrRecovery ks Addr Matches auth) s in
     let heading :=
       Ev (Printf "Multiple key files exist for address %x:\n" [AAddr Addr]) tt
       :: keyFileLines Matches
       ++ [Ev (Println [AStr "Testing your passphrase against all of them..."]) tt] in
     exists tried : list (Account * error),
       (exists matched rest,
           Matches = map fst tried ++ matched :: rest /\
           traceOf r =
             heading ++ failedUnlocks ks auth tried
             ++ Ev (Unlock ks matched auth) None
             :: Ev (Printf "Your passphrase unlocked %s\n" [AURL (AccURL matched)]) tt
             :: Ev (Println [AStr removalNotice]) tt
             :: keyFileLines (otherMatches matched Matches) /\
           reportedDuplicates (calls (traceOf r))
             = map AccURL (otherMatches matched Matches) /\
           outcomeOf r = Returned matched) \/
       (Matches = map fst tried /\
        traceOf r = heading ++ failedUnlocks ks auth tried /\
        outcomeOf r = Halted (Fatalf "None of the listed files could be unlocked." []))) /\
  (let r := run sim (ambiguousAddrRecovery (KeyStoreRef 0) 10%N [keyA; keyB; keyC] "bravo")
                threeKeyFiles in
   outcomeOf r = Returned keyB /\
   unlockCalls (traceOf r) = [(KeyStoreRef 0, keyA, "bravo"); (KeyStoreRef 0, keyB, "bravo")] /\
   reportedDuplicates (calls (traceOf r)) = [AccURL keyA; AccURL keyC]).
Proof.
  split; [| cbv zeta; repeat split; reflexivity].
  intros St h s ks Addr Matches auth. cbv zeta.
  unfold ambiguousAddrRecovery.
  rewrite run_call_bind. cbv zeta.
  destruct (h (Printf "Multiple key files exist for address %x:\n" [AAddr Addr]) s)
    as [[] s1]. simpl fst. simpl snd.
  rewrite run_bind.
  destruct (run_forEach_lines h Matches s1) as [Ht1 Ho1]. rewrite Ho1, Ht1. cbv zeta.
  remember (finalOf (run h (forEach Matches
              (fun a => call (Println [AStr "  "; AURL (AccURL a)]))) s1)) as s2.
  rewrite run_call_bind. cbv zeta.
  destruct (h (Println [AStr "Testing your passphrase against all of them..."]) s2)
    as [[] s3]. simpl fst. simpl snd.
  rewrite run_bind.
  destruct (run_firstUnlocked h ks auth Matches s3)
    as (tried & [(m & rest & HM & Ht & Ho) | (HM & Ht & Ho)]);
    exists tried; rewrite Ho, Ht; cbv zeta.
  - left. exists m, rest.
    remember (finalOf (run h (firstUnlocked ks Matches auth) s3)) as s4.
    rewrite run_call_bind. cbv zeta.
    destruct (h (Printf "Your passphrase unlocked %s\n" [AURL (AccURL m)]) s4) as [[] s5].
    simpl fst. simpl snd.
    rewrite run_call_bind. cbv zeta.
    destruct (h (Println [AStr "In order to avoid this warning, remove the following duplicate key files:"]) s5)
      as [[] s6].
    simpl fst. simpl snd.
    rewrite run_bind.
    destruct (run_forEach_others h m Matches s6) as [Ht2 Ho2]. rewrite Ho2, Ht2.
    cbv zeta. simpl traceOf. simpl outcomeOf.
    assert (Htrace :
      Ev (Printf "Multiple key files exist for address %x:\n" [AAddr Addr]) tt
      :: keyFileLines Matches
         ++ Ev (Println [AStr "Testing your passphrase against all of them..."]) tt
            :: (failedUnlocks ks auth tried ++ [Ev (Unlock ks m auth) None])
               ++ Ev (Printf "Your passphrase unlocked %s\n" [AURL (AccURL m)]) tt
                  :: Ev (Println [AStr "In order to avoid this warning, remove the following duplicate key files:"]) tt
                     :: keyFileLines (otherMatches m Matches) ++ []
      = (Ev (Printf "Multiple key files exist for address %x:\n" [AAddr Addr]) tt
         :: keyFileLines Matches
         ++ [Ev (Println [AStr "Testing your passphrase against all of them..."]) tt])
        ++ failedUnlocks ks auth tried
        ++ Ev (Unlock ks m auth) None
        :: Ev (Printf "Your passphrase unlocked %s\n" [AURL (AccURL m)]) tt
        :: Ev (Println [AStr removalNotice]) tt
        :: keyFileLines (otherMatches m Matches)).
    { rewrite app_nil_r. simpl. f_equal. rewrite <- !app_assoc. simpl.
      reflexivity. }
    rewrite Htrace. split; [exact HM | split; [reflexivity | split; [| reflexivity]]].
    rewrite !calls_app. simpl calls at 1. cbn [app reportedDuplicates].
    rewrite calls_app, <- app_assoc, reportedDuplicates_lines. simpl.
    rewrite reportedDuplicates_unlocks. simpl.
    apply printedURLs_lines.
  - right. simpl. rewrite app_nil_r.
    split; [exact HM | split; [| reflexivity]].
    rewrite <- app_assoc. reflexivity.
Qed.

(** ** The wallet watcher *)

Lemma walletOps_app t1 t2 : walletOps (t1 ++ t2) = walletOps t1 ++ walletOps t2.
Proof. unfold walletOps. rewrite calls_app. apply flat_map_app. Qed.

Lemma selfDerived_app t1 t2 : selfDerived (t1 ++ t2) = selfDerived t1 ++ selfDerived t2.
Proof. unfold selfDerived. rewrite calls_app. apply flat_map_app. Qed.

Lemma openedOk_app t1 t2 : openedOk (t1 ++ t2) = openedOk t1 ++ openedOk t2.
Proof. apply flat_map_app. Qed.

Lemma flat_map_single A B (g : A -> B) (l : list A) :
  flat_map (fun x => [g x]) l = map g l.
Proof. induction l as [| x l IH]; simpl; [| rewrite IH]; reflexivity. Qed.

(** A loop whose body always returns: it returns, and a property of
    traces that holds of every round and is kept by concatenation holds
    of the whole loop. *)
Lemma run_forEach_inv St A (h : handler St) (body : A -> prog unit) (P : trace -> Prop) :
  P [] ->
  (forall t1 t2, P t1 -> P t2 -> P (t1 ++ t2)) ->
  (forall x s, P (traceOf (run h (body x) s)) /\
               outcomeOf (run h (body x) s) = Returned tt) ->
  forall l s,
    P (traceOf (run h (forEach l body) s)) /\
    outcomeOf (run h (forEach l body) s) = Returned tt.
Proof.
  intros Hnil Happ Hbody l. induction l as [| x l IH]; intros s.
  - simpl. auto.
  - simpl forEach. rewrite run_bind.
    destruct (Hbody x s) as [HP Ho]. rewrite Ho. cbv zeta. simpl.
    destruct (IH (finalOf (run h (body x) s))) as [HP' Ho']. auto.
Qed.

(** The same, for an observation that is additive on traces. *)
Lemma run_forEach_obs St A B (h : handler St) (body : A -> prog unit)
    (obs : trace -> list B) (f : A -> list B) :
  obs [] = [] ->
  (forall t1 t2, obs (t1 ++ t2) = obs t1 ++ obs t2) ->
  (forall x s, obs (traceOf (run h (body x) s)) = f x /\
               outcomeOf (run h (body x) s) = Returned tt) ->
  forall l s, obs (traceOf (run h (forEach l body) s)) = flat_map f l.
Proof.
  intros Hnil Happ Hbody l. induction l as [| x l IH]; intros s.
  - simpl. auto.
  - simpl forEach. rewrite run_bind.
    destruct (Hbody x s) as [HP Ho]. rewrite Ho. cbv zeta. simpl.
    rewrite Happ, HP, IH. reflexivity.
Qed.

Lemma walletWatcher_unfold stack delivered :
  walletWatcher stack delivered =
  (r <- call (Attach stack) ;;
   match r with
   | Err err => Halt (Fatalf "Failed to attach to self: %v" [AErr (Some err)])
   | Ok c =>
       wallets <- call (Wallets stack) ;;
       forEach wallets (openKnown (NewClient c)) ;;
       forEach delivered (onEvent (NewClient c))
   end).
Proof. reflexivity. Qed.

Lemma openKnown_round St (h : handler St) reader w (s : St) :
  let t := traceOf (run h (openKnown reader w) s) in
  walletOps t = [Opened w] /\
  selfDerived t = map (fun w' => (w', reader)) (openedOk t) /\
  outcomeOf (run h (openKnown reader w) s) = Returned tt.
Proof.
  cbv zeta. unfold openKnown. simpl.
  destruct (h (WalletOpen w "") s) as [[e |] s1]; simpl.
  - destruct (h (Log Warn "Failed to open wallet"
                   [AStr "url"; AURL (WalletURL w); AStr "err"; AErr (Some e)]) s1)
      as [[] s2]; simpl. auto.
  - destruct (h (WalletSelfDerive w DefaultBaseDerivationPath reader) s1) as [[] s2];
      simpl. auto.
Qed.

Lemma onEvent_round St (h : handler St) reader event (s : St) :
  let t := traceOf (run h (onEvent reader event) s) in
  walletOps t = [opOf event] /\
  selfDerived t = map (fun w' => (w', reader)) (openedOk t) /\
  outcomeOf (run h (onEvent reader event) s) = Returned tt.
Proof.
  cbv zeta. unfold onEvent, opOf. destruct event as [w arrive]; simpl.
  destruct arrive; simpl.
  - destruct (h (WalletOpen w "") s) as [[e |] s1]; simpl.
    + destruct (h (Log Warn "New wallet appeared, failed to open"
                     [AStr "url"; AURL (WalletURL w); AStr "err"; AErr (Some e)]) s1)
        as [[] s2]; simpl. auto.
    + destruct (h (WalletStatus w) s1) as [status s2]; simpl.
      destruct (h (Log Info "New wallet appeared"
                     [AStr "url"; AURL (WalletURL w); AStr "status"; AStr status]) s2)
        as [[] s3]; simpl.
      destruct (h (WalletSelfDerive w DefaultBaseDerivationPath reader) s3) as [[] s4];
        simpl. auto.
  - destruct (h (Log Info "Old wallet dropped" [AStr "url"; AURL (WalletURL w)]) s)
      as [[] s1]; simpl.
    destruct (h (WalletClose w) s1) as [e s2]; simpl. auto.
Qed.

Lemma derived_by_reader_app reader t1 t2 :
  selfDerived t1 = map (fun w' : Wallet => (w', reader)) (openedOk t1) ->
  selfDerived t2 = map (fun w' : Wallet => (w', reader)) (openedOk t2) ->
  selfDerived (t1 ++ t2) = map (fun w' : Wallet => (w', reader)) (openedOk (t1 ++ t2)).
Proof.
  intros H1 H2. rewrite selfDerived_app, openedOk_app, map_app, H1, H2. reflexivity.
Qed.

(** The shape of every run of the watcher. *)
Lemma walletWatcher_run :
  forall St (h : handler St) (s : St) (stack : Node) (delivered : list WalletEvent),
    let r := run h (walletWatcher stack delivered) s in
    (exists err,
        traceOf r = [Ev (Attach stack) (Err err)] /\
        outcomeOf r = Halted (Fatalf "Failed to attach to self: %v" [AErr (Some err)])) \/
    (exists c known startup steady,
        traceOf r = Ev (Attach stack) (Ok c) :: Ev (Wallets stack) known
                    :: startup ++ steady /\
        walletOps startup = map Opened known /\
        walletOps steady = map opOf delivered /\
        selfDerived (startup ++ steady)
          = map (fun w => (w, NewClient c)) (openedOk (startup ++ steady)) /\
        outcomeOf r = Returned tt).
Proof.
  intros St h s stack delivered. cbv zeta.
  rewrite walletWatcher_unfold, run_call_bind. cbv zeta.
  destruct (h (Attach stack) s) as [[c | err] s1]; simpl fst; simpl snd.
  - right. rewrite run_call_bind. cbv zeta.
    destruct (h (Wallets stack) s1) as [known s2]; simpl fst; simpl snd.
    rewrite run_bind.
    destruct (@run_forEach_inv _ _ h (openKnown (NewClient c))
                (fun t => selfDerived t
                          = map (fun w' => (w', NewClient c)) (openedOk t)))
      with (l := known) (s := s2) as [Hd1 Ho1];
      [reflexivity | apply derived_by_reader_app
      | intros x s'; destruct (openKnown_round h (NewClient c) x s') as (_ & ? & ?); auto |].
    rewrite Ho1. cbv zeta.
    set (s3 := finalOf (run h (forEach known (openKnown (NewClient c))) s2)).
    destruct (@run_forEach_inv _ _ h (onEvent (NewClient c))
                (fun t => selfDerived t
                          = map (fun w' => (w', NewClient c)) (openedOk t)))
      with (l := delivered) (s := s3) as [Hd2 Ho2];
      [reflexivity | apply derived_by_reader_app
      | intros x s'; destruct (onEvent_round h (NewClient c) x s') as (_ & ? & ?); auto |].
    exists c, known,
      (traceOf (run h (forEach known (openKnown (NewClient c))) s2)),
      (traceOf (run h (forEach delivered (onEvent (NewClient c))) s3)).
    simpl. split; [reflexivity |]. split; [| split; [| split]].
    + rewrite (run_forEach_obs h (openKnown (NewClient c)) walletOps
                 (fun w => [Opened w]) eq_refl walletOps_app).
      * apply flat_map_single.
      * intros x s'. destruct (openKnown_round h (NewClient c) x s') as (? & _ & ?). auto.
    + rewrite (run_forEach_obs h (onEvent (NewClient c)) walletOps
                 (fun ev => [opOf ev]) eq_refl walletOps_app).
      * apply flat_map_single.
      * intros x s'. destruct (onEvent_round h (NewClient c) x s') as (? & _ & ?). auto.
    + apply derived_by_reader_app; assumption.
    + exact Ho2.
  - left. exists err. simpl. auto.
Qed.


(** ** The loop over the requested accounts *)

Lemma bind_Ret A B (a : A) (f : A -> prog B) : bind (Ret a) f = f a.
Proof. reflexivity. Qed.

Lemma allCalls_bind A B (Q : effect -> Prop) (p : prog A) (f : A -> prog B) :
  allCalls Q p -> (forall a, allCalls Q (f a)) -> allCalls Q (bind p f).
Proof.
  intros Hp Hf. induction p as [a | x | e k IH]; simpl in *; auto.
  destruct Hp as [He Hk]. split; auto.
Qed.

Lemma allCalls_impl A (Q Q' : effect -> Prop) (p : prog A) :
  (forall e, Q e -> Q' e) -> allCalls Q p -> allCalls Q' p.
Proof.
  intros HQ. induction p as [a | x | e k IH]; simpl; auto.
  intros [He Hk]. split; auto.
Qed.

Lemma allCalls_exec A (Q : effect -> Prop) (p : prog A) t o :
  allCalls Q p -> exec p t o -> Forall Q (calls t).
Proof.
  revert t. induction p as [a | x | e k IH]; simpl; intros t Hp Hx.
  - destruct Hx as [-> _]. constructor.
  - destruct Hx as [-> _]. constructor.
  - destruct Hx as (r & t' & -> & Hx). destruct Hp as [He Hk].
    simpl. constructor; [exact He | eapply IH; eauto].
Qed.

Lemma allCalls_forEach A (Q : effect -> Prop) (l : list A) (body : A -> prog unit) :
  (forall x, allCalls Q (body x)) -> allCalls Q (forEach l body).
Proof.
  intros Hb. induction l as [| x l IH]; simpl; auto.
  apply allCalls_bind; auto.
Qed.

Ltac all_calls :=
  repeat first
    [ progress simpl
    | match goal with
      | |- _ /\ _ => split
      | |- forall _, _ => intro
      | |- True => exact I
      | |- _ = _ => reflexivity
      | |- allCalls _ (bind _ _) => apply allCalls_bind
      | |- allCalls _ (forEach _ _) => apply allCalls_forEach
      | |- allCalls _ (match ?x with _ => _ end) => destruct x
      | |- allCalls _ (if ?x then _ else _) => destruct x
      end ].

Lemma allCalls_index A (Q : effect -> Prop) (l : list A) i : allCalls Q (index l i).
Proof.
  unfold index. destruct ((0 <=? i)%Z && (i <? len l)%Z); [| exact I].
  destruct (nth_error l (Z.to_nat i)); exact I.
Qed.

Lemma getPassPhrase_retryCall prompt confirmation i passwords :
  allCalls retryCall (getPassPhrase prompt confirmation i passwords).
Proof.
  unfold getPassPhrase.
  destruct (len passwords >? 0)%Z.
  - destruct (i <? len passwords)%Z; apply allCalls_index.
  - all_calls.
Qed.

Lemma firstUnlocked_calls (Q : effect -> Prop) ks auth Matches :
  (forall a, Q (Unlock ks a auth)) -> allCalls Q (firstUnlocked ks Matches auth).
Proof.
  intros HQ. induction Matches as [| a l IH]; simpl; auto.
  split; [apply HQ |]. intros [e |]; simpl; auto.
Qed.

Lemma ambiguousAddrRecovery_calls (Q : effect -> Prop) ks Addr Matches auth :
  (forall a, Q (Unlock ks a auth)) ->
  (forall l, Q (Println l)) -> (forall f l, Q (Printf f l)) ->
  allCalls Q (ambiguousAddrRecovery ks Addr Matches auth).
Proof.
  intros HU HP HF. unfold ambiguousAddrRecovery.
  apply allCalls_bind; [simpl; auto |]. intros _.
  apply allCalls_bind; [apply allCalls_forEach; intros; simpl; auto |]. intros _.
  apply allCalls_bind; [simpl; auto |]. intros _.
  apply allCalls_bind; [apply firstUnlocked_calls; auto |]. intros [m |]; [| exact I].
  apply allCalls_bind; [simpl; auto |]. intros _.
  apply allCalls_bind; [simpl; auto |]. intros _.
  apply allCalls_bind; [| intros; exact I].
  apply allCalls_forEach. intros x. destruct (negb (Account_eqb x m)); simpl; auto.
Qed.

Lemma unlockTrials_retryCall ks account address i passwords n err0 :
  allCalls retryCall (unlockTrials ks account address i passwords n err0).
Proof.
  revert err0. induction n as [| n IH]; intros err0; [exact I |].
  rewrite unlockTrials_step.
  apply allCalls_bind; [apply getPassPhrase_retryCall |]. intros pw.
  apply allCalls_bind; [simpl; auto |]. intros [[| Addr Matches | msg] |].
  - apply IH.
  - apply allCalls_bind; [simpl; auto |]. intros _.
    apply allCalls_bind; [| intros; exact I].
    apply ambiguousAddrRecovery_calls; simpl; auto.
  - exact I.
  - apply allCalls_bind; [simpl; auto |]. intros; exact I.
Qed.

Lemma unlockTrials_trialCall ks account address i passwords n err0 :
  passwords <> [] -> (0 <= i)%Z ->
  allCalls (trialCall (passwordFor passwords (Z.to_nat i)))
           (unlockTrials ks account address i passwords n err0).
Proof.
  intros Hne Hi.
  assert (Hpw : forall prompt,
             getPassPhrase prompt false i passwords
             = Ret (passwordFor passwords (Z.to_nat i))).
  { intros prompt. rewrite getPassPhrase_preloaded by assumption.
    unfold passwordFor. f_equal. f_equal.
    pose proof (len_pos Hne). unfold len in *. lia. }
  revert err0. induction n as [| n IH]; intros err0; [exact I |].
  rewrite unlockTrials_step, Hpw, bind_Ret.
  apply allCalls_bind; [simpl; auto |]. intros [[| Addr Matches | msg] |].
  - apply IH.
  - apply allCalls_bind; [simpl; auto |]. intros _.
    apply allCalls_bind; [| intros; exact I].
    apply ambiguousAddrRecovery_calls; simpl; auto.
  - exact I.
  - apply allCalls_bind; [simpl; auto |]. intros; exact I.
Qed.

Lemma no_resolutions es :
  Forall notResolution es ->
  flat_map (fun e => match e with MakeAddress _ address => [address] | _ => [] end) es = [].
Proof.
  induction 1 as [| e es He _ IH]; [reflexivity |].
  destruct e; simpl in *; auto; contradiction.
Qed.

Lemma unlockRequested_cons ks passwords i account rest :
  unlockRequested ks passwords i (account :: rest) =
  ((if negb (TrimSpace account =? "")
    then unlockAccount ks (TrimSpace account) i passwords ;; Ret tt
    else Ret tt) ;;
   unlockRequested ks passwords (i + 1) rest).
Proof. reflexivity. Qed.

Lemma unlockRequested_loopCall ks passwords unlocks :
  forall i, allCalls loopCall (unlockRequested ks passwords i unlocks).
Proof.
  induction unlocks as [| account unlocks IH]; intros i; [exact I |].
  rewrite unlockRequested_cons. apply allCalls_bind; [| intros; apply IH].
  destruct (negb (TrimSpace account =? "")); [| exact I].
  apply allCalls_bind; [| intros; exact I].
  unfold unlockAccount. apply allCalls_bind; [simpl; auto |].
  intros [account0 | err]; [| exact I].
  eapply allCalls_impl; [| apply unlockTrials_retryCall].
  intros e; destruct e; simpl; auto.
Qed.

Lemma loopCall_no_lists t : Forall loopCall (calls t) -> passwordLists t = [].
Proof.
  induction t as [| [e r] t IH]; [reflexivity |].
  simpl. intros H. inversion H; subst.
  destruct e; simpl in *; auto; contradiction.
Qed.

(** [unlockAccount] resolves its address once, first of all. *)
Lemma unlockAccount_exec ks address i passwords t o :
  exec (unlockAccount ks address i passwords) t o ->
  exists r t', t = Ev (MakeAddress ks address) r :: t' /\
               Forall notResolution (calls t') /\
               (passwords <> [] -> (0 <= i)%Z ->
                Forall (trialCall (passwordFor passwords (Z.to_nat i))) (calls t')).
Proof.
  unfold unlockAccount. simpl. intros (r & t' & -> & Hx).
  exists r, t'. split; [reflexivity |].
  destruct r as [account | err]; simpl in Hx.
  - split.
    + eapply allCalls_exec; [| exact Hx].
      eapply allCalls_impl;
        [| apply (unlockTrials_retryCall ks account address i passwords 3 None)].
      intros e; destruct e; simpl; auto.
    + intros Hne Hi. eapply allCalls_exec; [| exact Hx].
      apply (unlockTrials_trialCall ks account address 3 None Hne Hi).
  - destruct Hx as [-> _]. split; [constructor | intros; constructor].
Qed.

Lemma requested_cons account rest :
  requested (account :: rest) =
  (if negb (TrimSpace account =? "") then [TrimSpace account] else []) ++ requested rest.
Proof.
  unfold requested. simpl. destruct (negb (TrimSpace account =? "")); reflexivity.
Qed.

(** The loop resolves a prefix of the requested entries, in order, and
    all of them when it is not cut short. *)
Lemma unlockRequested_resolutions ks passwords unlocks :
  forall i t o,
    exec (unlockRequested ks passwords i unlocks) t o ->
    exists rest, requested unlocks = resolutions t ++ rest /\
                 (o = Returned tt -> rest = []).
Proof.
  induction unlocks as [| account unlocks IH]; intros i t o Hx.
  - simpl in Hx. destruct Hx as [-> ->]. exists []. auto.
  - rewrite unlockRequested_cons in Hx. rewrite requested_cons.
    apply exec_bind in Hx.
    destruct Hx as [(x & Hx & ->) | ([] & t1 & t2 & H1 & H2 & ->)].
    + destruct (negb (TrimSpace account =? "")); [| simpl in Hx; destruct Hx; discriminate].
      apply exec_bind in Hx.
      destruct Hx as [(x' & Hx & _) | (a & t1 & t2 & _ & H2 & _)];
        [| simpl in H2; destruct H2; discriminate].
      apply unlockAccount_exec in Hx. destruct Hx as (r & t' & -> & Hno & _).
      exists (requested unlocks). split; [| discriminate].
      unfold resolutions at 1. simpl. fold (calls t').
      rewrite (no_resolutions Hno). reflexivity.
    + destruct (IH _ _ _ H2) as (rest & Hreq & Hret).
      exists rest. split; [| exact Hret].
      rewrite resolutions_app, Hreq, <- app_assoc. f_equal.
      destruct (negb (TrimSpace account =? "")).
      * apply exec_bind in H1.
        destruct H1 as [(x' & _ & Hd) | (a & t1' & t2' & H1 & H2' & ->)];
          [discriminate |].
        simpl in H2'. destruct H2' as [-> _]. rewrite app_nil_r.
        apply unlockAccount_exec in H1. destruct H1 as (r & t' & -> & Hno & _).
        unfold resolutions. simpl. fold (calls t').
        rewrite (no_resolutions Hno). reflexivity.
      * simpl in H1. destruct H1 as [-> _]. reflexivity.
Qed.

Lemma unlockLogFrom_app es1 es2 :
  forall cur, exists cur',
    unlockLogFrom cur (es1 ++ es2) = unlockLogFrom cur es1 ++ unlockLogFrom cur' es2.
Proof.
  induction es1 as [| e es1 IH]; intros cur; [exists cur; reflexivity |].
  destruct e; simpl; try apply IH.
  destruct (IH cur) as [cur' ->]. exists cur'. reflexivity.
Qed.

Lemma unlockLogFrom_trials pw cur es :
  Forall (trialCall pw) es -> Forall (eq (cur, pw)) (unlockLogFrom cur es).
Proof.
  induction 1 as [| e es He _ IH]; [constructor |].
  destruct e; simpl in *; auto; try contradiction.
  subst. constructor; auto.
Qed.

Lemma no_prompts_trials pw es :
  Forall (trialCall pw) es ->
  flat_map (fun e => match e with PromptPassword p => [p] | _ => [] end) es = [].
Proof.
  induction 1 as [| e es He _ IH]; [reflexivity |].
  destruct e; simpl in *; auto; contradiction.
Qed.

Lemma no_lists_trials pw t :
  Forall (trialCall pw) (calls t) -> passwordLists t = [].
Proof.
  induction t as [| [e r] t IH]; [reflexivity |].
  simpl. intros H. inversion H; subst.
  destruct e; simpl in *; auto; contradiction.
Qed.

Lemma position_shift account unlocks passwords (ap : string * string) i0 :
    (exists j entry, nth_error unlocks j = Some entry /\ fst ap = TrimSpace entry /\
                     snd ap = passwordFor passwords (S i0 + j)) ->
    exists j entry, nth_error (account :: unlocks) j = Some entry /\
                    fst ap = TrimSpace entry /\
                    snd ap = passwordFor passwords (i0 + j).
Proof.
  intros (j & entry & Hn & Ha & Hp). exists (S j), entry.
  split; [exact Hn | split; [exact Ha |]].
  rewrite Hp. f_equal. lia.
Qed.

(** With a password list, the loop never prompts and every unlock uses
    the entry of the list for the position of its address. *)
Lemma unlockRequested_log ks passwords unlocks :
  passwords <> [] ->
  forall i0 t o cur,
    exec (unlockRequested ks passwords (Z.of_nat i0) unlocks) t o ->
    prompts t = [] /\ passwordLists t = [] /\
    Forall (fun ap => exists j entry,
                nth_error unlocks j = Some entry /\ fst ap = TrimSpace entry /\
                snd ap = passwordFor passwords (i0 + j))
           (unlockLogFrom cur (calls t)).
Proof.
  intros Hne. induction unlocks as [| account unlocks IH]; intros i0 t o cur Hx.
  - simpl in Hx. destruct Hx as [-> ->]. repeat split; constructor.
  - rewrite unlockRequested_cons in Hx.
    replace (Z.of_nat i0 + 1)%Z with (Z.of_nat (S i0)) in Hx by lia.
    assert (Hseg : forall t1 o1,
               exec (unlockAccount ks (TrimSpace account) (Z.of_nat i0) passwords) t1 o1 ->
               prompts t1 = [] /\ passwordLists t1 = [] /\
               forall c, Forall (eq (TrimSpace account, passwordFor passwords i0))
                                (unlockLogFrom c (calls t1))).
    { intros t1 o1 H1. apply unlockAccount_exec in H1.
      destruct H1 as (r & t' & -> & _ & Htr).
      specialize (Htr Hne (Nat2Z.is_nonneg i0)). rewrite Nat2Z.id in Htr.
      split; [| split].
      - unfold prompts. simpl. apply (no_prompts_trials Htr).
      - simpl. apply (no_lists_trials _ Htr).
      - intros c. simpl. apply unlockLogFrom_trials. exact Htr. }
    assert (Hhere : forall ap, ap = (TrimSpace account, passwordFor passwords i0) ->
               exists j entry, nth_error (account :: unlocks) j = Some entry /\
                               fst ap = TrimSpace entry /\
                               snd ap = passwordFor passwords (i0 + j)).
    { intros ap ->. exists 0%nat, account. simpl. rewrite Nat.add_0_r. auto. }
    assert (Hlater : forall l,
               Forall (fun ap => exists j entry,
                          nth_error unlocks j = Some entry /\ fst ap = TrimSpace entry /\
                          snd ap = passwordFor passwords (S i0 + j)) l ->
               Forall (fun ap => exists j entry,
                          nth_error (account :: unlocks) j = Some entry /\
                          fst ap = TrimSpace entry /\
                          snd ap = passwordFor passwords (i0 + j)) l).
    { intros l. apply Forall_impl. intros ap. apply position_shift. }
    apply exec_bind in Hx.
    destruct Hx as [(x & Hx & ->) | ([] & t1 & t2 & H1 & H2 & ->)].
    + destruct (negb (TrimSpace account =? "")); [| simpl in Hx; destruct Hx; discriminate].
      apply exec_bind in Hx.
      destruct Hx as [(x' & Hx & _) | (a & t1 & t2 & _ & H2 & _)];
        [| simpl in H2; destruct H2; discriminate].
      destruct (Hseg _ _ Hx) as (Hp & Hl & Hlog).
      split; [exact Hp | split; [exact Hl |]].
      eapply Forall_impl; [| apply (Hlog cur)]. intros ap Hap. apply Hhere. auto.
    + assert (H1' : prompts t1 = [] /\ passwordLists t1 = [] /\
                forall c, Forall (eq (TrimSpace account, passwordFor passwords i0))
                                 (unlockLogFrom c (calls t1))).
      { destruct (negb (TrimSpace account =? "")).
        - apply exec_bind in H1.
          destruct H1 as [(x' & _ & Hd) | (a & t1' & t2' & H1 & H2' & ->)];
            [discriminate |].
          simpl in H2'. destruct H2' as [-> _]. rewrite app_nil_r. eapply Hseg; eauto.
        - simpl in H1. destruct H1 as [-> _]. repeat split. intros c. constructor. }
      destruct H1' as (Hp1 & Hl1 & Hlog1).
      rewrite prompts_app, Hp1. unfold passwordLists in *. rewrite flat_map_app, Hl1.
      rewrite calls_app.
      destruct (unlockLogFrom_app (calls t1) (calls t2) cur) as [cur' ->].
      destruct (IH (S i0) t2 o cur' H2) as (Hp2 & Hl2 & Hlog2).
      split; [exact Hp2 | split; [exact Hl2 |]].
      apply Forall_app. split.
      * eapply Forall_impl; [| apply (Hlog1 cur)]. intros ap Hap. apply Hhere. auto.
      * apply Hlater. exact Hlog2.
Qed.

(** ** [startNode] *)

Lemma startNode_exec ctx stack t o :
  exec (startNode ctx stack) t o ->
  (Forall earlyCall (calls t) /\ passwordLists t = [] /\ exited o = true) \/
  (exists ks bs passwords t1 o1 t2,
      t = Ev (NodeStart stack) None :: Ev (Backends stack) (ks :: bs)
          :: Ev MakePasswordList (Ok passwords) :: t1 ++ t2 /\
      exec (unlockRequested ks passwords 0
              (Split (GlobalString ctx UnlockedAccountFlag_Name) ",")) t1 o1 /\
      ((exists x, o1 = Halted x /\ o = Halted x /\ t2 = []) \/
       (o1 = Returned tt /\ o = Returned tt /\
        exists events,
          t2 = [Ev (MakeChan 16) events; Ev (Subscribe stack events) tt;
                Ev (Go (WalletWatcher stack events)) tt]))).
Proof.
  unfold startNode, StartNode. simpl.
  intros (r & t' & -> & Hx).
  destruct r as [e |]; simpl in Hx.
  { destruct Hx as [-> ->]. left. repeat constructor. }
  destruct Hx as (bs & t'' & -> & Hx).
  destruct bs as [| ks bs]; simpl in Hx.
  { destruct Hx as [-> ->]. left. repeat constructor. }
  destruct Hx as (r & t3 & -> & Hx).
  destruct r as [passwords | e]; simpl in Hx.
  2: { destruct Hx as [-> ->]. left. repeat constructor. }
  right. apply exec_bind in Hx.
  destruct Hx as [(x & Hx & ->) | ([] & t1 & t2 & H1 & H2 & ->)].
  - exists ks, bs, passwords, t3, (Halted x), []. rewrite app_nil_r.
    split; [reflexivity | split; [exact Hx |]]. left. exists x. auto.
  - exists ks, bs, passwords, t1, (Returned tt), t2.
    split; [reflexivity | split; [exact H1 |]]. right.
    simpl in H2. destruct H2 as (events & ta & -> & [] & tb & -> & [] & tc & -> & -> & ->).
    split; [reflexivity | split; [reflexivity |]]. exists events. reflexivity.
Qed.

Lemma early_resolutions es :
  Forall earlyCall es ->
  flat_map (fun e => match e with MakeAddress _ address => [address] | _ => [] end) es = []
  /\ flat_map (fun e => match e with PromptPassword p => [p] | _ => [] end) es = []
  /\ forall cur, unlockLogFrom cur es = [].
Proof.
  induction 1 as [| e es He _ (IH1 & IH2 & IH3)]; [repeat split |].
  destruct e; simpl in *; try contradiction; auto.
Qed.

(** What a run of [startNode] resolves. *)
Lemma startNode_resolutions St (h : handler St) (s : St) ctx stack :
  let r := run h (startNode ctx stack) s in
  let wanted := requested (Split (GlobalString ctx UnlockedAccountFlag_Name) ",") in
  (exists rest, wanted = resolutions (traceOf r) ++ rest) /\
  (outcomeOf r = Returned tt -> resolutions (traceOf r) = wanted).
Proof.
  cbv zeta. pose proof (run_exec h (startNode ctx stack) s) as Hx.
  apply startNode_exec in Hx.
  destruct Hx as [(He & _ & Hd) | (ks & bs & pws & t1 & o1 & t2 & -> & H1 & Hend)].
  - destruct (early_resolutions He) as (Hr & _ & _).
    unfold resolutions. rewrite Hr. split; [eexists; reflexivity |].
    intros Ho. rewrite Ho in Hd. discriminate.
  - destruct (@unlockRequested_resolutions _ _ _ _ _ _ H1) as (rest & Hreq & Hret).
    assert (Hres : resolutions (Ev (NodeStart stack) None :: Ev (Backends stack) (ks :: bs)
                     :: Ev MakePasswordList (Ok pws) :: t1 ++ t2) = resolutions t1).
    { change (resolutions (t1 ++ t2) = resolutions t1). rewrite resolutions_app.
      destruct Hend as [(x & _ & _ & ->) | (_ & _ & ev & ->)]; simpl; apply app_nil_r. }
    destruct (outcomeOf (run h (startNode ctx stack) s)) as [[] | x] eqn:Ho;
      rewrite Hres; split; try (exists rest; exact Hreq); try discriminate.
    intros _. destruct Hend as [(x & _ & Hd & _) | (-> & _ & _)]; [discriminate |].
    rewrite (Hret eq_refl), app_nil_r in Hreq. auto.
Qed.

(** What a run of [startNode] with a password list unlocks with. *)
Lemma startNode_log St (h : handler St) (s : St) ctx stack passwords :
  let r := run h (startNode ctx stack) s in
  In passwords (passwordLists (traceOf r)) -> passwords <> [] ->
  prompts (traceOf r) = [] /\
  Forall (byPosition (Split (GlobalString ctx UnlockedAccountFlag_Name) ",") passwords)
         (unlockLog (traceOf r)).
Proof.
  cbv zeta. pose proof (run_exec h (startNode ctx stack) s) as Hx.
  apply startNode_exec in Hx.
  destruct Hx as [(He & Hl & Hd) | (ks & bs & pws & t1 & o1 & t2 & -> & H1 & Hend)].
  - rewrite Hl. intros [].
  - intros Hin Hne.
    assert (Ht2 : prompts t2 = [] /\ passwordLists t2 = [] /\
                  forall cur, unlockLogFrom cur (calls t2) = []).
    { destruct Hend as [(x & _ & _ & ->) | (_ & _ & ev & ->)]; repeat split. }
    destruct Ht2 as (Hp2 & Hl2 & Hlog2).
    assert (Hl1 : passwordLists t1 = []).
    { apply loopCall_no_lists. eapply allCalls_exec; [| exact H1].
      apply unlockRequested_loopCall. }
    change (In passwords (pws :: passwordLists (t1 ++ t2))) in Hin.
    unfold passwordLists in Hin, Hl1, Hl2.
    rewrite flat_map_app, Hl1, Hl2 in Hin. simpl in Hin.
    destruct Hin as [<- | []].
    destruct (@unlockRequested_log ks _ _ Hne 0%nat _ _ "" H1) as (Hp1 & _ & Hlog1).
    split.
    + change (prompts (t1 ++ t2) = []). rewrite prompts_app, Hp1, Hp2. reflexivity.
    + unfold unlockLog. simpl. rewrite calls_app.
      destruct (unlockLogFrom_app (calls t1) (calls t2) "") as [cur' ->].
      rewrite Hlog2, app_nil_r. exact Hlog1.
Qed.

(** C7.  [startNode] hands to the address resolution the trimmed,
    non-blank entries of the comma-separated [--unlock] flag, each once
    and in the listed order: always a prefix of them, and all of them
    when the loop is not cut short by a fatal exit.  For the flag
    "0xABC, , 0xDEF" and the password list ["p1"] the addresses resolved
    are 0xABC and 0xDEF, every unlock uses "p1", and against a key store
    that "p1" unlocks exactly two unlock attempts are made. *)
Theorem startNode_resolves_each_entry_once :
  (forall St (h : handler St) (s : St) (ctx : Context) (stack : Node),
     let r := run h (startNode ctx stack) s in
     let wanted := requested (Split (GlobalString ctx UnlockedAccountFlag_Name) ",") in
     (exists rest, wanted = resolutions (traceOf r) ++ rest) /\
     (outcomeOf r = Returned tt -> resolutions (traceOf r) = wanted)) /\
  (forall St (h : handler St) (s : St) (stack : Node),
     let r := run h (startNode (contextWith "0xABC, , 0xDEF") stack) s in
     In ["p1"] (passwordLists (traceOf r)) ->
     Forall (fun ap => snd ap = "p1") (unlockLog (traceOf r)) /\
     (outcomeOf r = Returned tt -> resolutions (traceOf r) = ["0xABC"; "0xDEF"])) /\
  (let r := run sim (startNode (contextWith "0xABC, , 0xDEF") (NodeRef 0)) twoAccounts in
   outcomeOf r = Returned tt /\
   unlockLog (traceOf r) = [("0xABC", "p1"); ("0xDEF", "p1")]).
Proof.
  split; [| split].
  - intros St h s ctx stack. apply startNode_resolutions.
  - intros St h s stack. cbv zeta. intros Hin. split.
    + destruct (startNode_log h s (contextWith "0xABC, , 0xDEF") stack Hin) as [_ Hlog];
        [discriminate |].
      eapply Forall_impl; [| exact Hlog].
      intros ap (position & entry & _ & _ & ->).
      unfold passwordFor. simpl. rewrite Nat.min_0_r. reflexivity.
    + intros Ho.
      destruct (startNode_resolutions h s (contextWith "0xABC, , 0xDEF") stack) as [_ H].
      exact (H Ho).
  - cbv zeta. split; reflexivity.
Qed.

Lemma startNode_resolves_each_entry_once_witness :
  let r := run sim (startNode (contextWith "0xABC, , 0xDEF") (NodeRef 0)) twoAccounts in
  resolutions (traceOf r) = ["0xABC"; "0xDEF"] /\
  Forall (fun ap => snd ap = "p1") (unlockLog (traceOf r)).
Proof.
  destruct startNode_resolves_each_entry_once as (Hall & Hscenario & _).
  split.
  - apply (proj2 (Hall Sim sim twoAccounts (contextWith "0xABC, , 0xDEF") (NodeRef 0))).
    reflexivity.
  - apply (proj1 (Hscenario Sim sim twoAccounts (NodeRef 0)
                    ltac:(simpl; left; reflexivity))).
Defined.


Lemma getPassPhrase_clamps_or_prompts_witness :
  getPassPhrase "Unlocking account 0xDEF | Attempt 1/3" false 2 ["p1"] = Ret "p1" /\
  getPassPhrase "Unlocking account 0xDEF | Attempt 1/3" false 1 ["p1"; "p2"] = Ret "p2".
Proof.
  split.
  - apply (proj2 (proj1 (getPassPhrase_clamps_or_prompts
                           "Unlocking account 0xDEF | Attempt 1/3" 2 ["p1"])
                    ltac:(discriminate) ltac:(lia))).
    unfold len; simpl; lia.
  - apply (proj1 (proj1 (getPassPhrase_clamps_or_prompts
                           "Unlocking account 0xDEF | Attempt 1/3" 1 ["p1"; "p2"])
                    ltac:(discriminate) ltac:(lia))).
    unfold len; simpl; lia.
Defined.

(** ** The orchestrator *)

Lemma startServices_unfold ctx rootDir storeApp :
  startServices ctx rootDir storeApp =
  (emNode <- MakeFullNode_ ctx ;;
   startNode ctx emNode ;;
   servicesAfterNode ctx rootDir storeApp emNode).
Proof. reflexivity. Qed.

Ltac exec_step H :=
  simpl in H;
  match type of H with
  | exists _ _, _ /\ _ =>
      let r := fresh "r" in
      let t := fresh "t" in
      destruct H as (r & t & -> & H)
  | _ = [] /\ _ = _ => destruct H as [-> H]
  | exec (match ?x with _ => _ end) _ _ => destruct x
  | exec (bind (match ?x with _ => _ end) _) _ _ => destruct x
  end;
  repeat match goal with u : unit |- _ => destruct u end.

(** The runs of the second half that return. *)
Lemma servicesAfterNode_returned ctx rootDir storeApp emNode t res :
  exec (servicesAfterNode ctx rootDir storeApp emNode) t (Returned res) ->
  exists b c a srv basecoinApp cfg pv n,
    t = bringUpTrace ctx rootDir storeApp emNode b c a srv basecoinApp cfg pv n /\
    res = (Some (mkServices (Some b) (Some c) (Some srv) (Some n)), None).
Proof.
  unfold servicesAfterNode, startTendermint, printAndExit. cbv zeta. intros H.
  repeat exec_step H; try discriminate.
  injection H as H; subst res.
  match goal with
  | |- context [NewNode ?cfg _ (match ?ba with _ => _ end)] =>
      change (match ba with
              | Some a => NewLocalClientCreator a
              | None => DefaultClientCreator (ProxyApp cfg) (ABCI cfg) (DBDir cfg)
              end) with (clientCreatorFor ba cfg)
  end.
  do 8 eexists. split; reflexivity.
Qed.

(** ** Stages *)

Lemma reportsAndExits_bind A B (p : prog A) (f : A -> prog B) :
  reportsAndExits p -> reportsAndExits (bind p f).
Proof.
  induction p as [a | x | e k IH]; simpl; auto; [contradiction |].
  intros [He Hk]. split; auto.
Qed.

Lemma staged_weaken A (p : prog A) :
  forall lo hi lo' hi',
    staged lo hi p -> (lo' <= lo)%nat -> (hi <= hi')%nat -> staged lo' hi' p.
Proof.
  induction p as [a | x | e k IH]; simpl; auto.
  intros lo hi lo' hi' Hp Hlo Hhi.
  destruct (stageOf e) as [st |].
  - destruct Hp as [Hb Hk]. split; [lia |].
    intros r. destruct (Hk r) as [Hf Hs]. split; [exact Hf |].
    eapply IH; eauto.
  - intros r. eapply IH; eauto.
Qed.

Lemma staged_bind A B (p : prog A) (f : A -> prog B) :
  forall lo mid hi,
    (lo <= mid)%nat -> (mid <= hi)%nat ->
    staged lo mid p -> (forall a, staged mid hi (f a)) ->
    staged lo hi (bind p f).
Proof.
  induction p as [a | x | e k IH]; simpl; intros lo mid hi Hlo Hhi Hp Hf.
  - eapply staged_weaken; [apply Hf | lia | lia].
  - exact I.
  - destruct (stageOf e) as [st |].
    + destruct Hp as [Hb Hk]. split; [lia |].
      intros r. destruct (Hk r) as [Hfail Hs]. split.
      * intros Hr. apply reportsAndExits_bind. auto.
      * apply IH with (mid := mid); [lia | lia | exact Hs | exact Hf].
    + intros r. apply IH with (mid := mid); [lia | lia | apply Hp | exact Hf].
Qed.

Lemma staged_forEach A (l : list A) (body : A -> prog unit) (n : nat) :
  (forall x, staged n n (body x)) -> staged n n (forEach l body).
Proof.
  intros Hb. induction l as [| x l IH]; simpl; auto.
  apply staged_bind with (mid := n); auto.
Qed.

Lemma stagesOf_app t1 t2 : stagesOf (t1 ++ t2) = stagesOf t1 ++ stagesOf t2.
Proof. unfold stagesOf. rewrite calls_app. apply flat_map_app. Qed.

Lemma stagesOf_cons e r t :
  stagesOf (Ev e r :: t) =
  match stageOf e with Some st => st :: stagesOf t | None => stagesOf t end.
Proof. unfold stagesOf. simpl. destruct (stageOf e); reflexivity. Qed.

Lemma unstaged_never_fails e (r : resp e) : stageOf e = None -> failedAnswer e r = false.
Proof. destruct e; simpl; intros H; try discriminate; reflexivity. Qed.

Lemma reportsAndExits_exec A (p : prog A) t o :
  reportsAndExits p -> exec p t o -> stagesOf t = [] /\ exited o = true.
Proof.
  revert t. induction p as [a | x | e k IH]; simpl; intros t Hp Hx.
  - contradiction.
  - destruct Hx as [-> ->]. auto.
  - destruct Hx as (r & t' & -> & Hx). destruct Hp as [He Hk].
    rewrite stagesOf_cons, He. eapply IH; eauto.
Qed.

(** What [staged] says of the executions. *)
Lemma staged_exec A (p : prog A) :
  forall lo hi t o,
    staged lo hi p -> exec p t o ->
    nondecreasing (lo :: map codeRank (stagesOf t)) = true /\
    Forall (fun st => (codeRank st <= hi)%nat) (stagesOf t) /\
    (forall t1 ev t2, t = t1 ++ ev :: t2 -> failed ev = true ->
                      stagesOf t2 = [] /\ exited o = true).
Proof.
  induction p as [a | x | e k IH]; simpl; intros lo hi t o Hp Hx.
  - destruct Hx as [-> ->]. split; [reflexivity | split; [apply Forall_nil |]].
    intros [| ? ?] ? ? Heq; discriminate.
  - destruct Hx as [-> ->]. split; [reflexivity | split; [apply Forall_nil |]].
    intros [| ? ?] ? ? Heq; discriminate.
  - destruct Hx as (r & t' & -> & Hx). rewrite stagesOf_cons.
    destruct (stageOf e) as [st |] eqn:Est.
    + destruct Hp as [Hb Hk]. destruct (Hk r) as [Hfail Hs].
      destruct (IH r _ _ _ _ Hs Hx) as (Hnd & Hhi & Hstop).
      split; [| split].
      * simpl map. simpl in Hnd |- *.
        replace (lo <=? codeRank st)%nat with true by (symmetry; apply Nat.leb_le; lia).
        exact Hnd.
      * constructor; [lia | exact Hhi].
      * intros t1 ev t2 Heq Hev. destruct t1 as [| ev1 t1]; simpl in Heq.
        -- injection Heq as <- <-. unfold failed in Hev. simpl in Hev.
           eapply reportsAndExits_exec; eauto.
        -- injection Heq as _ ->. eapply Hstop; eauto.
    + destruct (IH r _ _ _ _ (Hp r) Hx) as (Hnd & Hhi & Hstop).
      split; [exact Hnd | split; [exact Hhi |]].
      intros t1 ev t2 Heq Hev. destruct t1 as [| ev1 t1]; simpl in Heq.
      * injection Heq as <- <-. unfold failed in Hev. simpl in Hev.
        rewrite (unstaged_never_fails e r Est) in Hev. discriminate.
      * injection Heq as _ ->. eapply Hstop; eauto.
Qed.

Ltac staged_tac :=
  repeat first
    [ exact I | discriminate | lia | reflexivity | assumption
    | progress simpl
    | match goal with
      | |- _ /\ _ => split
      | |- forall _, _ => intro
      | |- context [match ?x with _ => _ end] => destruct x
      | |- context [if ?x then _ else _] => destruct x
      | |- staged ?lo _ (bind _ _) => apply staged_bind with (mid := lo)
      | |- staged _ _ (forEach _ _) => apply staged_forEach
      end ].

Lemma staged_index A (l : list A) i lo hi : staged lo hi (index l i).
Proof.
  unfold index. destruct ((0 <=? i)%Z && (i <? len l)%Z); [| exact I].
  destruct (nth_error l (Z.to_nat i)); exact I.
Qed.

Lemma staged_getPassPhrase prompt confirmation i passwords :
  staged 2 2 (getPassPhrase prompt confirmation i passwords).
Proof.
  unfold getPassPhrase.
  destruct (len passwords >? 0)%Z.
  - destruct (i <? len passwords)%Z; apply staged_index.
  - staged_tac.
Qed.

Lemma staged_firstUnlocked ks auth Matches : staged 2 2 (firstUnlocked ks Matches auth).
Proof. induction Matches as [| a l IH]; staged_tac. Qed.

Lemma staged_ambiguousAddrRecovery ks Addr Matches auth :
  staged 2 2 (ambiguousAddrRecovery ks Addr Matches auth).
Proof.
  unfold ambiguousAddrRecovery.
  apply staged_bind with (mid := 2%nat); [lia | lia | staged_tac |]. intros _.
  apply staged_bind with (mid := 2%nat); [lia | lia | staged_tac |]. intros _.
  apply staged_bind with (mid := 2%nat); [lia | lia | staged_tac |]. intros _.
  apply staged_bind with (mid := 2%nat);
    [lia | lia | apply staged_firstUnlocked |]. intros [m |]; [| exact I].
  apply staged_bind with (mid := 2%nat); [lia | lia | staged_tac |]. intros _.
  apply staged_bind with (mid := 2%nat); [lia | lia | staged_tac |]. intros _.
  apply staged_bind with (mid := 2%nat); [lia | lia | | intros; exact I].
  apply staged_forEach. intros x. destruct (negb (Account_eqb x m)); staged_tac.
Qed.

Lemma staged_unlockTrials ks account address i passwords n err0 :
  staged 2 2 (unlockTrials ks account address i passwords n err0).
Proof.
  revert err0. induction n as [| n IH]; intros err0; [exact I |].
  rewrite unlockTrials_step.
  apply staged_bind with (mid := 2%nat); [lia | lia | apply staged_getPassPhrase |].
  intros pw.
  apply staged_bind with (mid := 2%nat); [lia | lia | staged_tac |].
  intros [[| Addr Matches | msg] |].
  - apply IH.
  - apply staged_bind with (mid := 2%nat); [lia | lia | staged_tac |]. intros _.
    apply staged_bind with (mid := 2%nat);
      [lia | lia | apply staged_ambiguousAddrRecovery | intros; exact I].
  - exact I.
  - apply staged_bind with (mid := 2%nat); [lia | lia | staged_tac | intros; exact I].
Qed.

Lemma staged_unlockRequested ks passwords unlocks :
  forall i, staged 2 2 (unlockRequested ks passwords i unlocks).
Proof.
  induction unlocks as [| account unlocks IH]; intros i; [exact I |].
  rewrite unlockRequested_cons.
  apply staged_bind with (mid := 2%nat); [lia | lia | | intros; apply IH].
  destruct (negb (TrimSpace account =? "")); [| exact I].
  apply staged_bind with (mid := 2%nat); [lia | lia | | intros; exact I].
  unfold unlockAccount, call. cbn [bind staged stageOf codeRank failedAnswer].
  split; [lia |].
  intros [account0 | err]; cbn [isErr]; split.
  - discriminate.
  - apply staged_unlockTrials.
  - intros _. exact I.
  - exact I.
Qed.

Lemma staged_startNode ctx stack : staged 1 2 (startNode ctx stack).
Proof.
  unfold startNode, StartNode. simpl. split; [lia |].
  intros [e |]; simpl; (split; [intros; try exact I; discriminate |]); [exact I |].
  split; [lia |]. intros [| ks bs]; (split; [discriminate |]); [exact I |].
  simpl. split; [lia |].
  intros [passwords | e]; simpl; (split; [intros; try exact I; discriminate |]);
    [| exact I].
  apply staged_bind with (mid := 2%nat); [lia | lia | apply staged_unlockRequested |].
  intros _. staged_tac.
Qed.

Lemma staged_servicesAfterNode ctx rootDir storeApp emNode :
  staged 3 7 (servicesAfterNode ctx rootDir storeApp emNode).
Proof.
  unfold servicesAfterNode, startTendermint, printAndExit. cbv zeta. staged_tac.
Qed.

Lemma staged_startServices ctx rootDir storeApp :
  staged 1 7 (startServices ctx rootDir storeApp).
Proof.
  rewrite startServices_unfold.
  apply staged_bind with (mid := 1%nat); [lia | lia | |].
  - unfold MakeFullNode_. staged_tac.
  - intros emNode.
    apply staged_bind with (mid := 2%nat); [lia | lia | apply staged_startNode |].
    intros _. eapply staged_weaken; [apply staged_servicesAfterNode | lia | lia].
Qed.

Lemma startServices_exec ctx rootDir storeApp t o :
  exec (startServices ctx rootDir storeApp) t o ->
  (exists err, t = [Ev MakeFullNode (Err err)] /\ exited o = true) \/
  (exists emNode tn x,
      exec (startNode ctx emNode) tn (Halted x) /\
      t = Ev MakeFullNode (Ok emNode) :: tn /\ o = Halted x) \/
  (exists emNode tn t3,
      exec (startNode ctx emNode) tn (Returned tt) /\
      exec (servicesAfterNode ctx rootDir storeApp emNode) t3 o /\
      t = Ev MakeFullNode (Ok emNode) :: tn ++ t3).
Proof.
  rewrite startServices_unfold. intros H.
  apply exec_bind in H.
  destruct H as [(x & H & ->) | (emNode & t1 & t2 & H1 & H2 & ->)].
  - left. unfold MakeFullNode_ in H. simpl in H.
    destruct H as (r & t' & -> & H). destruct r as [n | err]; simpl in H.
    + destruct H; discriminate.
    + destruct H as [-> _]. exists err. auto.
  - right. unfold MakeFullNode_ in H1. simpl in H1.
    destruct H1 as (r & t' & -> & H1). destruct r as [n | err]; simpl in H1;
      [| destruct H1; discriminate].
    destruct H1 as [-> H1]. injection H1 as H1. subst n.
    apply exec_bind in H2.
    destruct H2 as [(x & H2 & ->) | ([] & tn & t3 & Hn & H3 & ->)].
    + left. exists emNode, t2, x. auto.
    + right. exists emNode, tn, t3. auto.
Qed.

Lemma startServices_returned ctx rootDir storeApp t res :
  exec (startServices ctx rootDir storeApp) t (Returned res) ->
  exists emNode tn b c a srv basecoinApp cfg pv n,
    exec (startNode ctx emNode) tn (Returned tt) /\
    t = Ev MakeFullNode (Ok emNode)
        :: tn ++ bringUpTrace ctx rootDir storeApp emNode b c a srv basecoinApp cfg pv n /\
    res = (Some (mkServices (Some b) (Some c) (Some srv) (Some n)), None).
Proof.
  intros H. apply startServices_exec in H.
  destruct H as [(err & _ & Hd) | [(emNode & tn & x & _ & _ & Hd)
                                  | (emNode & tn & t3 & Hn & H3 & ->)]];
    try discriminate.
  apply servicesAfterNode_returned in H3.
  destruct H3 as (b & c & a & srv & ba & cfg & pv & n & -> & ->).
  exists emNode, tn, b, c, a, srv, ba, cfg, pv, n. auto.
Qed.

(** C10.  When [startServices] returns, the error is nil and the handle
    is not: its four references are set, the backend to the answer of
    the successful [Service] call, the client to the answer of the
    successful [Attach] call, the server to the one built and started,
    the consensus node to the one built and started. *)
Theorem startServices_handle_fully_populated :
  forall St (h : handler St) (s : St) (ctx : Context) (rootDir : string)
         (storeApp : StoreApp) (res : option Services * option error),
    let r := run h (startServices ctx rootDir storeApp) s in
    outcomeOf r = Returned res ->
    snd res = None /\
    exists b c srv n,
      fst res = Some (mkServices (Some b) (Some c) (Some srv) (Some n)) /\
      (exists emNode,
          In (Ev (Service emNode) (Ok b)) (traceOf r) /\
          In (Ev (Attach emNode) (Ok c)) (traceOf r)) /\
      (exists addr abci a,
          In (Ev (NewServer addr abci a) (Ok srv)) (traceOf r)) /\
      In (Ev (SrvStart srv) None) (traceOf r) /\
      (exists cfg pv papp, In (Ev (NewNode cfg pv papp) (Ok n)) (traceOf r)) /\
      In (Ev (TmStart n) None) (traceOf r).
Proof.
  intros St h s ctx rootDir storeApp res. cbv zeta. intros Ho.
  pose proof (run_exec h (startServices ctx rootDir storeApp) s) as Hx.
  rewrite Ho in Hx. apply startServices_returned in Hx.
  destruct Hx as (emNode & tn & b & c & a & srv & ba & cfg & pv & n & _ & -> & ->).
  split; [reflexivity |].
  exists b, c, srv, n. split; [reflexivity |].
  assert (Hin : forall ev,
             In ev (bringUpTrace ctx rootDir storeApp emNode b c a srv ba cfg pv n) ->
             In ev (Ev MakeFullNode (Ok emNode)
                    :: tn ++ bringUpTrace ctx rootDir storeApp emNode b c a srv ba cfg pv n)).
  { intros ev Hev. right. apply in_or_app. right. exact Hev. }
  split; [| split; [| split; [| split]]].
  - exists emNode. split; apply Hin; simpl; auto.
  - eexists _, _, a. apply Hin. simpl. auto 10.
  - apply Hin. simpl. auto 10.
  - exists cfg, pv, (clientCreatorFor ba cfg). apply Hin. simpl. auto 20.
  - apply Hin. simpl. auto 20.
Qed.

Lemma startServices_handle_fully_populated_witness :
  let r := run sim (startServices (contextWith "0xABC, , 0xDEF") "/data" (StoreAppRef 0))
               twoAccounts in
  exists b c srv n,
    outcomeOf r = Returned (Some (mkServices (Some b) (Some c) (Some srv) (Some n)), None) /\
    In (Ev (SrvStart srv) None) (traceOf r) /\
    In (Ev (TmStart n) None) (traceOf r).
Proof.
  destruct (startServices_handle_fully_populated sim twoAccounts
              (contextWith "0xABC, , 0xDEF") "/data" (StoreAppRef 0)
              (res := (Some (mkServices (Some (BackendRef 2)) (Some (ClientRef 3))
                                        (Some (ServerRef 5)) (Some (TmNodeRef 7))), None))
              eq_refl)
    as (_ & b & c & srv & n & Hres & _ & _ & Hsrv & _ & Htm).
  simpl in Hres. injection Hres as <- <- <- <-.
  exists (BackendRef 2), (ClientRef 3), (ServerRef 5), (TmNodeRef 7).
  split; [reflexivity | split; assumption].
Defined.

Lemma in_stagesOf ev st t :
  In ev t -> stageOf (evCall ev) = Some st -> In st (stagesOf t).
Proof.
  intros Hin Hst. unfold stagesOf, calls. apply in_flat_map.
  exists (evCall ev). split; [apply in_map; exact Hin | rewrite Hst; left; reflexivity].
Qed.

Lemma startNode_returned ctx stack tn :
  exec (startNode ctx stack) tn (Returned tt) ->
  exists rest, tn = Ev (NodeStart stack) None :: rest /\ In UnlockAccounts (stagesOf rest).
Proof.
  intros H. apply startNode_exec in H.
  destruct H as [(_ & _ & Hd) | (ks & bs & pws & t1 & o1 & t2 & -> & _ & _)];
    [discriminate |].
  eexists. split; [reflexivity |]. rewrite stagesOf_cons. simpl. auto.
Qed.

Lemma startTendermint_exec basecoinApp t o :
  exec (startTendermint basecoinApp) t o ->
  exists res,
    o = Returned res /\
    isSome (snd res) = existsb failed t /\
    isSome (fst res) = negb (isSome (snd res)).
Proof.
  unfold startTendermint. intros H.
  repeat exec_step H; subst o; eexists; (split; [reflexivity |]); split; reflexivity.
Qed.

Ltac pick_event Hin :=
  simpl in Hin;
  repeat (destruct Hin as [<- | Hin];
          [try discriminate; try (split; [reflexivity | eexists; simpl; eauto 12]) |]);
  try contradiction.

(** A failed step of the consensus stage ends the second half with
    [os.Exit(1)], after the application server was started. *)
Lemma servicesAfterNode_consensus ctx rootDir storeApp emNode t o :
  exec (servicesAfterNode ctx rootDir storeApp emNode) t o ->
  forall ev, In ev t -> failed ev = true ->
             stageOf (evCall ev) = Some StartConsensus ->
             o = Halted (OsExit 1) /\ exists srv, In (Ev (SrvStart srv) None) t.
Proof.
  unfold servicesAfterNode, startTendermint, printAndExit. cbv zeta. intros H.
  repeat exec_step H; subst o; intros ev Hin Hf Hs; pick_event Hin.
Qed.

Lemma servicesAfterNode_clients ctx rootDir storeApp emNode t o :
  exec (servicesAfterNode ctx rootDir storeApp emNode) t o ->
  bridgeClients t = [] \/ exists c, bridgeClients t = [c] /\ attachedClients t = [c].
Proof.
  unfold servicesAfterNode, startTendermint, printAndExit. cbv zeta. intros H.
  repeat exec_step H; subst o;
    first [left; reflexivity | right; eexists; split; reflexivity].
Qed.

Lemma allCalls_startNode ctx stack : allCalls nodeCall (startNode ctx stack).
Proof.
  unfold startNode, StartNode. simpl. split; [exact I |].
  intros [e |]; simpl; [exact I |]. split; [exact I |].
  intros [| ks bs]; simpl; [exact I |]. split; [exact I |].
  intros [passwords | e]; simpl; [| exact I].
  apply allCalls_bind.
  - eapply allCalls_impl; [| apply unlockRequested_loopCall].
    intros e; destruct e; simpl; auto.
  - intros _. simpl. auto.
Qed.

Lemma nodeCall_no_clients t :
  Forall nodeCall (calls t) -> bridgeClients t = [] /\ attachedClients t = [].
Proof.
  induction t as [| [e r] t IH]; [split; reflexivity |].
  simpl. intros H. inversion H as [| ? ? He Ht]; subst.
  destruct (IH Ht) as [Hb Ha]. unfold bridgeClients in *. simpl.
  destruct e; simpl in *; try contradiction; auto.
Qed.

Lemma bridgeClients_app t1 t2 : bridgeClients (t1 ++ t2) = bridgeClients t1 ++ bridgeClients t2.
Proof. unfold bridgeClients. rewrite calls_app. apply flat_map_app. Qed.

Lemma attachedClients_app t1 t2 :
  attachedClients (t1 ++ t2) = attachedClients t1 ++ attachedClients t2.
Proof. apply flat_map_app. Qed.

(** The clients of a run of the orchestrator: at most one is attached
    by the main sequence, and the bridge is built on it. *)
Lemma startServices_clients ctx rootDir storeApp t o :
  exec (startServices ctx rootDir storeApp) t o ->
  bridgeClients t = [] \/ exists c, bridgeClients t = [c] /\ attachedClients t = [c].
Proof.
  intros H. apply startServices_exec in H.
  destruct H as [(err & -> & _) | [(emNode & tn & x & Hn & -> & _)
                                  | (emNode & tn & t3 & Hn & H3 & ->)]].
  - left. reflexivity.
  - left. apply (@allCalls_exec _ _ _ _ _ (allCalls_startNode ctx emNode)) in Hn.
    apply nodeCall_no_clients in Hn. destruct Hn as [Hb _]. exact Hb.
  - apply (@allCalls_exec _ _ _ _ _ (allCalls_startNode ctx emNode)) in Hn.
    apply nodeCall_no_clients in Hn. destruct Hn as [Hb Ha].
    change (bridgeClients (tn ++ t3) = [] \/
            exists c, bridgeClients (tn ++ t3) = [c] /\ attachedClients (tn ++ t3) = [c]).
    rewrite bridgeClients_app, attachedClients_app, Hb, Ha. simpl.
    eapply servicesAfterNode_clients; eauto.
Qed.

Lemma nondecreasing_tail lo l : nondecreasing (lo :: l) = true -> nondecreasing l = true.
Proof.
  destruct l as [| x l]; [reflexivity |].
  intros H. change (((lo <=? x)%nat && nondecreasing (x :: l)) = true) in H.
  apply andb_true_iff in H. apply H.
Qed.

(** ** The attached clients *)

(** C3, as the code has it.  The main sequence attaches at most one
    client; the bridge is built on it and the handle returned holds it.
    The watcher does not receive it: the goroutine attaches a client of
    its own, first of all, and every self-derivation reads the chain
    state through that one. *)
Theorem clients_attached_separately :
  forall St (h : handler St) (s : St) (ctx : Context) (rootDir : string)
         (storeApp : StoreApp),
    let r := run h (startServices ctx rootDir storeApp) s in
    (bridgeClients (traceOf r) = [] \/
     exists c, bridgeClients (traceOf r) = [c] /\ attachedClients (traceOf r) = [c]) /\
    (forall res, outcomeOf r = Returned res ->
       exists c sv, fst res = Some sv /\ rpcClient sv = Some c /\
                    bridgeClients (traceOf r) = [c]) /\
    (forall stack events delivered s',
       let w := run h (goroutineBody (WalletWatcher stack events) delivered) s' in
       (exists err, traceOf w = [Ev (Attach stack) (Err err)]) \/
       (exists c' rest,
           traceOf w = Ev (Attach stack) (Ok c') :: rest /\
           Forall (fun wr => snd wr = NewClient c') (selfDerived (traceOf w)))).
Proof.
  intros St h s ctx rootDir storeApp. cbv zeta.
  pose proof (run_exec h (startServices ctx rootDir storeApp) s) as Hx.
  split; [| split].
  - eapply startServices_clients; eauto.
  - intros res Ho. rewrite Ho in Hx. apply startServices_returned in Hx.
    destruct Hx as (emNode & tn & b & c & a & srv & ba & cfg & pv & n & Hn & -> & ->).
    exists c, (mkServices (Some b) (Some c) (Some srv) (Some n)).
    split; [reflexivity | split; [reflexivity |]].
    apply (@allCalls_exec _ _ _ _ _ (allCalls_startNode ctx emNode)) in Hn.
    apply nodeCall_no_clients in Hn. destruct Hn as [Hb _].
    change (bridgeClients (tn ++ bringUpTrace ctx rootDir storeApp emNode b c a srv ba
                                   cfg pv n) = [c]).
    rewrite bridgeClients_app, Hb. reflexivity.
  - intros stack events delivered s'. simpl goroutineBody.
    destruct (walletWatcher_run h s' stack delivered)
      as [(err & Ht & _) | (c & known & startup & steady & Ht & _ & _ & Hd & _)].
    + left. exists err. exact Ht.
    + right. exists c, (Ev (Wallets stack) known :: startup ++ steady).
      split; [exact Ht |]. rewrite Ht.
      change (Forall (fun wr => snd wr = NewClient c) (selfDerived (startup ++ steady))).
      rewrite Hd. apply Forall_forall. intros wr Hin.
      apply in_map_iff in Hin. destruct Hin as (w & <- & _). reflexivity.
Qed.

Lemma clients_attached_separately_witness :
  let r := run sim (startServices (contextWith "") "/data" (StoreAppRef 0)) oneWallet in
  exists c sv,
    fst (Some (mkServices (Some (BackendRef 2)) (Some (ClientRef 3))
                          (Some (ServerRef 5)) (Some (TmNodeRef 7))),
         @None error) = Some sv /\
    rpcClient sv = Some c /\ bridgeClients (traceOf r) = [c].
Proof.
  exact (proj1 (proj2 (clients_attached_separately sim oneWallet (contextWith "")
                         "/data" (StoreAppRef 0))) _ eq_refl).
Defined.

(** The claim C3 fails: in the simulated world the bridge is built on
    client 3 and the watcher reads through a client of its own, whether
    the goroutine attaches after the main sequence has returned (client
    8) or as soon as it is started (client 2, the bridge then getting
    client 4). *)
Lemma shared_client_counterexample :
  let ctx := contextWith "" in
  let r := run sim (startServices ctx "/data" (StoreAppRef 0)) oneWallet in
  let late := run sim (goroutineBody (WalletWatcher (NodeRef 0) (ChanRef 1))
                         [mkWalletEvent ledger true]) (finalOf r) in
  let spawn := run sim (emNode <- MakeFullNode_ ctx ;; startNode ctx emNode) oneWallet in
  let early := run sim (goroutineBody (WalletWatcher (NodeRef 0) (ChanRef 1))
                          [mkWalletEvent ledger true]) (finalOf spawn) in
  let rest := run sim (servicesAfterNode ctx "/data" (StoreAppRef 0) (NodeRef 0))
                  (finalOf early) in
  spawned (traceOf r) = [WalletWatcher (NodeRef 0) (ChanRef 1)] /\
  bridgeClients (traceOf r) = [ClientRef 3] /\
  selfDerived (traceOf late)
    = [(ledger, NewClient (ClientRef 8)); (ledger, NewClient (ClientRef 8))] /\
  selfDerived (traceOf early)
    = [(ledger, NewClient (ClientRef 2)); (ledger, NewClient (ClientRef 2))] /\
  bridgeClients (traceOf rest) = [ClientRef 4] /\
  ~ (forall c reader, In c (bridgeClients (traceOf r)) ->
                      In reader (map snd (selfDerived (traceOf late))) ->
                      reader = NewClient c).
Proof.
  cbv zeta. repeat split; try reflexivity.
  intros H.
  specialize (H (ClientRef 3) (NewClient (ClientRef 8))
                ltac:(left; reflexivity) ltac:(left; reflexivity)).
  discriminate H.
Qed.

(** ** The claims the code departs from, on concrete runs *)

(** The claim C1 fails: when the construction of the consensus node
    fails, [startServices] does not return the error; the process exits
    with status 1 after printing it. *)
Lemma consensus_failure_counterexample :
  let r := run sim (startServices (contextWith "") "/data" (StoreAppRef 0))
               (withFaults [FNewNode] calm) in
  map evCall (failures StartConsensus (traceOf r))
    = [NewNode (config calm) (PrivValidatorRef 6) (NewLocalClientCreator (AppRef 0))] /\
  last (traceOf r) (Ev MakeFullNode (Err ErrDecrypt))
    = Ev (Println [AErr (Some (OtherError "no genesis"))]) tt /\
  outcomeOf r = Halted (OsExit 1) /\
  ~ (exists res, outcomeOf r = Returned res).
Proof.
  cbv zeta. repeat split; try reflexivity.
  intros [res H]. discriminate H.
Qed.


(** The claim C2 fails: the accounts are unlocked and the watcher is
    started before the backend service is fetched, so the stages do not
    run in the listed order; and when fetching the backend fails, the
    accounts have been unlocked all the same. *)
Lemma listed_order_counterexample :
  let ctx := contextWith "0xABC, , 0xDEF" in
  let r := run sim (startServices ctx "/data" (StoreAppRef 0)) twoAccounts in
  let f := run sim (startServices ctx "/data" (StoreAppRef 0))
               (withFaults [FService] twoAccounts) in
  map listedRank (stagesOf (traceOf r))
    = [1; 1; 3; 3; 3; 3; 3; 3; 3; 3; 3; 2; 4; 5; 5; 6; 6; 6; 7; 7; 7; 7; 7]%nat /\
  nondecreasing (map listedRank (stagesOf (traceOf r))) = false /\
  exited (outcomeOf r) = false /\
  stagesOf (traceOf f)
    = [StartExecution; StartExecution; UnlockAccounts; UnlockAccounts; UnlockAccounts;
       UnlockAccounts; UnlockAccounts; UnlockAccounts; UnlockAccounts; UnlockAccounts;
       UnlockAccounts; ResolveBackend] /\
  map evCall (failures ResolveBackend (traceOf f)) = [Service (NodeRef 0)] /\
  List.length (unlocked (finalOf f)) = 2%nat.
Proof. cbv zeta. repeat split; reflexivity. Qed.


(** ** The retry loop on a key store that refuses the passphrase *)

Lemma unlockAccount_retry_bounds_witness :
  let r := run (withKeyStoreAnswer (Some ErrDecrypt) sim)
               (unlockAccount (KeyStoreRef 0) "0xABC" 0 ["p1"]) twoAccounts in
  List.length (unlockCalls (traceOf r)) = 3%nat /\
  outcomeOf r = Halted (Fatalf "Failed to unlock account %s (%v)"
                          [AStr "0xABC"; AErr (Some ErrDecrypt)]).
Proof.
  refine (proj1 (proj1 (@unlockAccount_retry_bounds Sim
                          (withKeyStoreAnswer (Some ErrDecrypt) sim)
                          (KeyStoreRef 0) "0xABC" (mkAccount 1%N (mkURL "" "")) 0 ["p1"] _)
                   _) twoAccounts eq_refl).
  - left. split; [discriminate | lia].
  - intros passphrase s. reflexivity.
Defined.

(** * Further properties of the code *)

(** ** Splitting and trimming the [--unlock] flag *)

Lemma Split_not_nil s c : Split s c <> [].
Proof.
  destruct s as [| a s]; simpl; [discriminate |].
  destruct (Ascii.eqb a c); [discriminate |].
  destruct (Split s c); discriminate.
Qed.

Lemma concat_cons_cons sep x y l :
  String.concat sep (x :: y :: l) = (x ++ sep ++ String.concat sep (y :: l))%string.
Proof. reflexivity. Qed.

(** X1.  [Split] loses nothing: joining the pieces with the separator
    gives the string back; no piece holds the separator, and there is
    one piece more than there are separators. *)
Theorem Split_round_trip :
  forall (s : string) (c : ascii),
    String.concat (String c EmptyString) (Split s c) = s /\
    Forall (fun piece => containsByte c piece = false) (Split s c) /\
    List.length (Split s c) = S (countByte c s).
Proof.
  intros s c. induction s as [| a s (IHj & IHp & IHl)]; simpl.
  - repeat split. repeat constructor.
  - destruct (Ascii.eqb a c) eqn:E.
    + apply Ascii.eqb_eq in E. subst a.
      split; [| split].
      * destruct (Split s c) as [| y l] eqn:ES; [exfalso; exact (Split_not_nil s c ES) |].
        rewrite concat_cons_cons, IHj. reflexivity.
      * constructor; [reflexivity | exact IHp].
      * simpl. rewrite IHl. reflexivity.
    + destruct (Split s c) as [| piece pieces] eqn:ES;
        [exfalso; exact (Split_not_nil s c ES) |].
      split; [| split].
      * destruct pieces as [| y l].
        -- simpl in *. rewrite IHj. reflexivity.
        -- rewrite concat_cons_cons. rewrite concat_cons_cons in IHj.
           rewrite <- IHj. reflexivity.
      * inversion IHp as [| ? ? Hp Hps]; subst.
        constructor; [simpl; rewrite E, Hp; reflexivity | exact Hps].
      * simpl in *. exact IHl.
Qed.

Lemma stripPrefix_app p s r : stripPrefix p s = Some r -> s = p ++ r.
Proof.
  revert s; induction p as [| a p IH]; intros s H; simpl in H.
  - injection H as ->. reflexivity.
  - destruct s as [| c s]; [discriminate |].
    destruct (Ascii.eqb a c) eqn:E; [| discriminate].
    apply Ascii.eqb_eq in E. subst c. simpl. f_equal. apply IH. exact H.
Qed.

Lemma stripPrefix_more p a b r :
  stripPrefix p a = Some r -> stripPrefix p (a ++ b) = Some (r ++ b).
Proof.
  revert a; induction p as [| x p IH]; intros a H; simpl in H.
  - injection H as ->. reflexivity.
  - destruct a as [| c a]; [discriminate |]. simpl.
    destruct (Ascii.eqb x c); [apply IH; exact H | discriminate].
Qed.

Lemma stripAny_some ps s r :
  stripAny ps s = Some r -> exists p, In p ps /\ s = p ++ r.
Proof.
  induction ps as [| p ps IH]; simpl; [discriminate |].
  destruct (stripPrefix p s) as [r' |] eqn:E.
  - intros H. injection H as ->. exists p. split; [left; reflexivity |].
    apply stripPrefix_app. exact E.
  - intros H. destruct (IH H) as (q & Hq & Hs). exists q. auto.
Qed.

Lemma stripAny_more ps a b r :
  stripAny ps a = Some r -> stripAny ps (a ++ b) <> None.
Proof.
  induction ps as [| p ps IH]; simpl; [discriminate |].
  destruct (stripPrefix p a) as [r' |] eqn:E.
  - intros _. rewrite (stripPrefix_more _ _ b E). discriminate.
  - intros H. destruct (stripPrefix p (a ++ b)); [discriminate | apply IH; exact H].
Qed.

Lemma trimLeading_fixed ps :
  Forall (fun p => p <> []) ps ->
  forall n s, (List.length s <= n)%nat -> stripAny ps (trimLeading ps n s) = None.
Proof.
  intros Hne. induction n as [| n IH]; intros s Hlen; simpl.
  - destruct s; [| simpl in Hlen; lia].
    destruct (stripAny ps []) as [r |] eqn:E; [| reflexivity].
    apply stripAny_some in E. destruct E as (p & Hp & Hs).
    rewrite Forall_forall in Hne. specialize (Hne p Hp).
    destruct p; [congruence | discriminate].
  - destruct (stripAny ps s) as [r |] eqn:E; [| exact E].
    apply IH. apply stripAny_some in E. destruct E as (p & Hp & ->).
    rewrite Forall_forall in Hne. specialize (Hne p Hp).
    destruct p; [congruence |]. rewrite length_app in Hlen. simpl in Hlen. lia.
Qed.

Lemma trimLeading_suffix ps n s : exists pre, s = pre ++ trimLeading ps n s.
Proof.
  revert s; induction n as [| n IH]; intros s; simpl; [exists []; reflexivity |].
  destruct (stripAny ps s) as [r |] eqn:E; [| exists []; reflexivity].
  apply stripAny_some in E. destruct E as (p & _ & ->).
  destruct (IH r) as [pre Hpre]. exists (p ++ pre).
  rewrite <- app_assoc, <- Hpre. reflexivity.
Qed.

Lemma trimLeading_id ps n s : stripAny ps s = None -> trimLeading ps n s = s.
Proof. intros H. destruct n; simpl; [| rewrite H]; reflexivity. Qed.

Lemma spaceRunes_not_empty :
  Forall (fun p : list ascii => p <> []) spaceRunes /\
  Forall (fun p : list ascii => p <> []) (map (@rev ascii) spaceRunes).
Proof. split; repeat constructor; discriminate. Qed.

(** The two ends of what [TrimSpace] returns. *)
Lemma TrimSpace_ends s :
  exists T : list ascii,
    TrimSpace s = string_of_list_ascii T /\
    stripAny spaceRunes T = None /\
    stripAny (map (@rev ascii) spaceRunes) (rev T) = None.
Proof.
  destruct spaceRunes_not_empty as [Hsp Hsp'].
  unfold TrimSpace. cbv zeta.
  set (l := list_ascii_of_string s).
  set (l1 := trimLeading spaceRunes (List.length l) l).
  set (r1 := trimLeading (map (@rev ascii) spaceRunes) (List.length (rev l1)) (rev l1)).
  exists (rev r1). split; [reflexivity |].
  assert (F1 : stripAny (map (@rev ascii) spaceRunes) r1 = None)
    by (apply trimLeading_fixed; [exact Hsp' | apply Nat.le_refl]).
  split; [| rewrite rev_involutive; exact F1].
  destruct (trimLeading_suffix (map (@rev ascii) spaceRunes) (List.length (rev l1)) (rev l1))
    as [pre Hpre]. fold r1 in Hpre.
  assert (Hl1 : l1 = rev r1 ++ rev pre).
  { rewrite <- rev_app_distr, <- Hpre, rev_involutive. reflexivity. }
  assert (F0 : stripAny spaceRunes l1 = None)
    by (apply trimLeading_fixed; [exact Hsp | apply Nat.le_refl]).
  destruct (stripAny spaceRunes (rev r1)) as [r |] eqn:E; [| reflexivity].
  exfalso. apply (stripAny_more _ _ (rev pre) E). rewrite <- Hl1. exact F0.
Qed.

Lemma TrimSpace_fixed (T : list ascii) :
  stripAny spaceRunes T = None ->
  stripAny (map (@rev ascii) spaceRunes) (rev T) = None ->
  TrimSpace (string_of_list_ascii T) = string_of_list_ascii T.
Proof.
  intros H1 H2. unfold TrimSpace. cbv zeta.
  rewrite list_ascii_of_string_of_list_ascii.
  rewrite (@trimLeading_id _ _ _ H1), (@trimLeading_id _ _ _ H2), rev_involutive.
  reflexivity.
Qed.

(** X2.  What [TrimSpace] returns neither starts nor ends with white
    space, trimming it again changes nothing, and a string that neither
    starts nor ends with white space is returned as it is. *)
Theorem TrimSpace_trims_both_ends :
  forall s : string,
    startsWithSpace (TrimSpace s) = false /\
    endsWithSpace (TrimSpace s) = false /\
    TrimSpace (TrimSpace s) = TrimSpace s /\
    (startsWithSpace s = false -> endsWithSpace s = false -> TrimSpace s = s).
Proof.
  intros s. split; [| split; [| split]].
  - destruct (TrimSpace_ends s) as (T & -> & H1 & H2). unfold startsWithSpace.
    rewrite list_ascii_of_string_of_list_ascii, H1. reflexivity.
  - destruct (TrimSpace_ends s) as (T & -> & H1 & H2). unfold endsWithSpace.
    rewrite list_ascii_of_string_of_list_ascii, H2. reflexivity.
  - destruct (TrimSpace_ends s) as (T & -> & H1 & H2).
    apply TrimSpace_fixed; assumption.
  - unfold startsWithSpace, endsWithSpace. intros Hs He.
    destruct (stripAny spaceRunes (list_ascii_of_string s)) eqn:E1; [discriminate |].
    destruct (stripAny (map (@rev ascii) spaceRunes) (rev (list_ascii_of_string s))) eqn:E2;
      [discriminate |].
    pose proof (TrimSpace_fixed _ E1 E2) as H.
    rewrite string_of_list_ascii_of_string in H. exact H.
Qed.

Lemma TrimSpace_trims_both_ends_witness : TrimSpace "0x0a b" = "0x0a b".
Proof.
  apply (proj2 (proj2 (proj2 (TrimSpace_trims_both_ends "0x0a b")))); reflexivity.
Defined.

(** ** The console *)

(** X3.  Asked for a confirmation and without a password list,
    [getPassPhrase] reads the passphrase twice, under "Passphrase: " and
    "Repeat passphrase: ", and returns it only when both reads succeed
    and agree; two different entries, or a failed read, end the process
    with the message of that case.  With a password list the console is
    not touched, whether a confirmation is asked for or not. *)
Theorem getPassPhrase_confirmation :
  (forall St (h : handler St) (s : St) (prompt : string) (i : Z),
     let r := run h (getPassPhrase prompt true i []) s in
     exists first,
       In (Ev (PromptPassword "Passphrase: ") first) (traceOf r) /\
       match first with
       | Err err =>
           prompts (traceOf r) = ["Passphrase: "] /\
           outcomeOf r = Halted (Fatalf "Failed to read passphrase: %v" [AErr (Some err)])
       | Ok password =>
           prompts (traceOf r) = ["Passphrase: "; "Repeat passphrase: "] /\
           exists second,
             In (Ev (PromptPassword "Repeat passphrase: ") second) (traceOf r) /\
             outcomeOf r =
               match second with
               | Err err =>
                   Halted (Fatalf "Failed to read passphrase confirmation: %v"
                             [AErr (Some err)])
               | Ok confirm =>
                   if password =? confirm then Returned password
                   else Halted (Fatalf "Passphrases do not match" [])
               end
       end) /\
  (forall St (h : handler St) (s : St) (prompt : string) (confirmation : bool) (i : Z)
          (passwords : list string),
     passwords <> [] -> (0 <= i)%Z ->
     let r := run h (getPassPhrase prompt confirmation i passwords) s in
     traceOf r = [] /\ outcomeOf r = Returned (passwordFor passwords (Z.to_nat i))).
Proof.
  split.
  - intros St h s prompt i. cbv zeta. unfold getPassPhrase. simpl.
    destruct (negb (prompt =? "")); simpl;
      [destruct (h (Println [AStr prompt]) s) as [[] s1]; simpl; set (s0 := s1)
      | set (s0 := s)];
      (destruct (h (PromptPassword "Passphrase: ") s0) as [[pw | err] s2]; simpl;
       [ exists (Ok pw); split; [auto |];
         destruct (h (PromptPassword "Repeat passphrase: ") s2) as [[cf | err] s3]; simpl;
         [ destruct (pw =? cf) eqn:E; simpl;
           (split; [reflexivity |]; exists (Ok cf); split; [auto | rewrite E; reflexivity])
         | split; [reflexivity |]; exists (Err err); split; [auto | reflexivity] ]
       | exists (Err err); split; [auto |]; split; reflexivity ]).
  - intros St h s prompt confirmation i passwords Hne Hi. cbv zeta.
    rewrite getPassPhrase_preloaded by assumption. simpl.
    split; [reflexivity |]. unfold passwordFor. do 3 f_equal.
    pose proof (len_pos Hne). unfold len in *. lia.
Qed.

Lemma getPassPhrase_confirmation_witness :
  let r := run sim (getPassPhrase "New account" true 4 ["p1"; "p2"]) calm in
  traceOf r = [] /\ outcomeOf r = Returned "p2".
Proof.
  apply (proj2 getPassPhrase_confirmation Sim sim calm "New account" true 4%Z ["p1"; "p2"]).
  - discriminate.
  - lia.
Defined.

(** ** Diagnostics *)

Lemma endsWith_bind A B (p : prog A) (f : A -> prog B) :
  forall prints x, endsWith prints x p -> endsWith prints x (bind p f).
Proof.
  induction p as [a | y | e k IH]; simpl; intros prints x H.
  - contradiction.
  - exact H.
  - destruct prints as [| line more]; [contradiction |].
    destruct H as [He Hk]. split; auto.
Qed.

Lemma diagnosed_bind A B (p : prog A) (f : A -> prog B) :
  diagnosed p -> (forall a, diagnosed (f a)) -> diagnosed (bind p f).
Proof.
  intros Hp Hf. induction p as [a | y | e k IH]; simpl in *; auto.
  intros r. destruct (Hp r) as [Hd Hk]. split; [| auto].
  intros prints x Hx. apply endsWith_bind. auto.
Qed.

Lemma diagnosed_forEach A (l : list A) (body : A -> prog unit) :
  (forall a, diagnosed (body a)) -> diagnosed (forEach l body).
Proof.
  intros Hb. induction l as [| a l IH]; simpl; auto.
  apply diagnosed_bind; auto.
Qed.

Lemma endsWith_exec A (p : prog A) :
  forall prints x t o,
    endsWith prints x p -> exec p t o ->
    t = map (fun line => Ev (Println line) tt) prints /\ o = Halted x.
Proof.
  induction p as [a | y | e k IH]; simpl; intros prints x t o Hp Hx.
  - contradiction.
  - destruct Hp as [-> ->]. destruct Hx as [-> ->]. auto.
  - destruct prints as [| line more]; [contradiction |].
    destruct Hp as [-> Hk]. destruct Hx as (r & t' & -> & Hx).
    destruct (IH r _ _ _ _ (Hk r) Hx) as [-> ->]. destruct r. auto.
Qed.

Lemma diagnosed_exec A (p : prog A) :
  forall t o,
    diagnosed p -> exec p t o ->
    forall t1 ev t2 prints x,
      t = t1 ++ ev :: t2 -> diagnosis ev = Some (prints, x) ->
      t2 = map (fun line => Ev (Println line) tt) prints /\ o = Halted x.
Proof.
  induction p as [a | y | e k IH]; simpl; intros t o Hp Hx t1 ev t2 prints x Heq Hd.
  - destruct Hx as [-> _]. destruct t1; discriminate.
  - destruct Hx as [-> _]. destruct t1; discriminate.
  - destruct Hx as (r & t' & -> & Hx). destruct (Hp r) as [Hhere Hk].
    destruct t1 as [| ev1 t1]; simpl in Heq.
    + injection Heq as <- <-. eapply endsWith_exec; eauto.
    + injection Heq as _ ->. eapply IH; eauto.
Qed.

Ltac diag_tac :=
  repeat first
    [ exact I | discriminate | reflexivity | assumption
    | progress simpl
    | match goal with
      | H : Some _ = Some _ |- _ => injection H as <- <-
      | |- _ /\ _ => split
      | |- forall _, _ => intro
      | |- context [match ?x with _ => _ end] => destruct x
      | |- context [if ?x then _ else _] => destruct x
      | |- diagnosed (bind _ _) => apply diagnosed_bind
      | |- diagnosed (forEach _ _) => apply diagnosed_forEach
      end ].

Lemma diagnosed_index A (l : list A) i : diagnosed (index l i).
Proof.
  unfold index. destruct ((0 <=? i)%Z && (i <? len l)%Z); [| exact I].
  destruct (nth_error l (Z.to_nat i)); exact I.
Qed.

Lemma diagnosed_getPassPhrase prompt confirmation i passwords :
  diagnosed (getPassPhrase prompt confirmation i passwords).
Proof.
  unfold getPassPhrase.
  destruct (len passwords >? 0)%Z.
  - destruct (i <? len passwords)%Z; apply diagnosed_index.
  - diag_tac.
Qed.

Lemma diagnosed_firstUnlocked ks auth Matches : diagnosed (firstUnlocked ks Matches auth).
Proof. induction Matches as [| a l IH]; diag_tac. Qed.

Lemma diagnosed_ambiguousAddrRecovery ks Addr Matches auth :
  diagnosed (ambiguousAddrRecovery ks Addr Matches auth).
Proof.
  unfold ambiguousAddrRecovery.
  apply diagnosed_bind; [diag_tac |]. intros _.
  apply diagnosed_bind; [diag_tac |]. intros _.
  apply diagnosed_bind; [diag_tac |]. intros _.
  apply diagnosed_bind; [apply diagnosed_firstUnlocked |]. intros [m |]; [| exact I].
  apply diagnosed_bind; [diag_tac |]. intros _.
  apply diagnosed_bind; [diag_tac |]. intros _.
  apply diagnosed_bind; [| intros; exact I].
  apply diagnosed_forEach. intros a. destruct (negb (Account_eqb a m)); diag_tac.
Qed.

Lemma diagnosed_unlockTrials ks account address i passwords n err0 :
  diagnosed (unlockTrials ks account address i passwords n err0).
Proof.
  revert err0. induction n as [| n IH]; intros err0; [exact I |].
  rewrite unlockTrials_step.
  apply diagnosed_bind; [apply diagnosed_getPassPhrase |]. intros pw.
  apply diagnosed_bind; [diag_tac |].
  intros [[| Addr Matches | msg] |].
  - apply IH.
  - apply diagnosed_bind; [diag_tac |]. intros _.
    apply diagnosed_bind; [apply diagnosed_ambiguousAddrRecovery | intros; exact I].
  - exact I.
  - apply diagnosed_bind; [diag_tac | intros; exact I].
Qed.

Lemma diagnosed_unlockRequested ks passwords unlocks :
  forall i, diagnosed (unlockRequested ks passwords i unlocks).
Proof.
  induction unlocks as [| account unlocks IH]; intros i; [exact I |].
  rewrite unlockRequested_cons.
  apply diagnosed_bind; [| intros; apply IH].
  destruct (negb (TrimSpace account =? "")); [| exact I].
  apply diagnosed_bind; [| intros; exact I].
  unfold unlockAccount, call. cbn [bind diagnosed].
  intros [account0 | err]; split.
  - intros prints x Hd. discriminate Hd.
  - apply diagnosed_unlockTrials.
  - intros prints x Hd. injection Hd as <- <-. simpl. auto.
  - exact I.
Qed.

Lemma diagnosed_startNode ctx stack : diagnosed (startNode ctx stack).
Proof.
  unfold startNode, StartNode. simpl.
  intros [e |]; (split; [intros prints x Hd; discriminate Hd |]); simpl; [exact I |].
  intros [| ks bs]; (split; [intros prints x Hd; discriminate Hd |]); [exact I |].
  simpl.
  intros [passwords | e]; (split; [intros prints x Hd; discriminate Hd |]); [| exact I].
  apply diagnosed_bind; [apply diagnosed_unlockRequested |].
  intros _. diag_tac.
Qed.

Lemma diagnosed_servicesAfterNode ctx rootDir storeApp emNode :
  diagnosed (servicesAfterNode ctx rootDir storeApp emNode).
Proof.
  unfold servicesAfterNode, startTendermint, printAndExit. cbv zeta. diag_tac.
Qed.

Lemma diagnosed_startServices ctx rootDir storeApp :
  diagnosed (startServices ctx rootDir storeApp).
Proof.
  rewrite startServices_unfold.
  apply diagnosed_bind; [unfold MakeFullNode_; diag_tac |]. intros emNode.
  apply diagnosed_bind; [apply diagnosed_startNode |]. intros _.
  apply diagnosed_servicesAfterNode.
Qed.

(** X4.  Every failure the main sequence handles itself has one fixed
    end.  A failed address resolution, console read, backend lookup or
    attach is the last call of the run and the process ends in the
    fatal message of that call, carrying the error; a failure from the
    construction of the bridge on (server, basecoin application,
    consensus configuration, consensus node) is followed by the print
    of the error and nothing else, and the process exits with status
    1. *)
Theorem startServices_failure_diagnostics :
  forall St (h : handler St) (s : St) (ctx : Context) (rootDir : string)
         (storeApp : StoreApp) (t1 : trace) (ev : event) (t2 : trace)
         (prints : list (list arg)) (x : halt),
    let r := run h (startServices ctx rootDir storeApp) s in
    traceOf r = t1 ++ ev :: t2 ->
    diagnosis ev = Some (prints, x) ->
    t2 = map (fun line => Ev (Println line) tt) prints /\ outcomeOf r = Halted x.
Proof.
  intros St h s ctx rootDir storeApp t1 ev t2 prints x. cbv zeta. intros Heq Hd.
  exact (@diagnosed_exec _ _ _ _ (diagnosed_startServices ctx rootDir storeApp)
           (run_exec h (startServices ctx rootDir storeApp) s) t1 ev t2 prints x Heq Hd).
Qed.

Lemma startServices_failure_diagnostics_witness :
  let r := run sim (startServices (contextWith "0xABC, 0x123") "/data" (StoreAppRef 0))
               twoAccounts in
  skipn 8 (traceOf r) = [] /\
  outcomeOf r = Halted (Fatalf "Could not list accounts: %v"
                          [AErr (Some (OtherError "invalid account address or index"))]).
Proof.
  apply (@startServices_failure_diagnostics Sim sim twoAccounts
           (contextWith "0xABC, 0x123") "/data" (StoreAppRef 0)
           (firstn 7 (traceOf (run sim (startServices (contextWith "0xABC, 0x123") "/data"
                                          (StoreAppRef 0)) twoAccounts)))
           (Ev (MakeAddress (KeyStoreRef 0) "0x123")
               (Err (OtherError "invalid account address or index")))
           (skipn 8 (traceOf (run sim (startServices (contextWith "0xABC, 0x123") "/data"
                                         (StoreAppRef 0)) twoAccounts)))
           [] _); reflexivity.
Defined.

(** ** What [unlockAccount] returns and how often it tries *)

Tactic Notation "peel" hyp(H) "as" ident(x) ident(a) ident(ta) ident(tb) ident(Ha) :=
  apply exec_bind in H;
  destruct H as [(x & H & ->) | (a & ta & tb & Ha & H & ->)].

Lemma unlockEvents_app t1 t2 : unlockEvents (t1 ++ t2) = unlockEvents t1 ++ unlockEvents t2.
Proof. apply flat_map_app. Qed.

Lemma offeredMatches_app t1 t2 :
  offeredMatches (t1 ++ t2) = (offeredMatches t1 + offeredMatches t2)%nat.
Proof. unfold offeredMatches. rewrite unlockEvents_app, map_app. apply list_sum_app. Qed.

Lemma consoleCall_no_unlock t : Forall consoleCall (calls t) -> unlockEvents t = [].
Proof.
  induction t as [| [e r] t IH]; [reflexivity |].
  simpl. intros H. inversion H as [| ? ? He Ht]; subst.
  destruct e; simpl in *; try contradiction; auto.
Qed.

Lemma exec_console A (p : prog A) t o :
  allCalls consoleCall p -> exec p t o -> unlockEvents t = [] /\ offeredMatches t = 0%nat.
Proof.
  intros Hp Hx. pose proof (@consoleCall_no_unlock _ (@allCalls_exec _ _ _ _ _ Hp Hx)) as H.
  unfold offeredMatches. rewrite H. auto.
Qed.

Lemma getPassPhrase_consoleCall prompt confirmation i passwords :
  allCalls consoleCall (getPassPhrase prompt confirmation i passwords).
Proof.
  unfold getPassPhrase.
  destruct (len passwords >? 0)%Z.
  - destruct (i <? len passwords)%Z; apply allCalls_index.
  - all_calls.
Qed.

Lemma firstUnlocked_exec ks auth Matches :
  forall t o,
    exec (firstUnlocked ks Matches auth) t o ->
    (List.length (unlockEvents t) <= List.length Matches)%nat /\
    (forall found, o = Returned found ->
       match found with
       | Some m => exists pre, unlockEvents t = pre ++ [(ks, m, auth, None)]
       | None => True
       end) /\
    (forall x, o <> Halted x).
Proof.
  induction Matches as [| a l IH]; intros t o H; simpl in H.
  - destruct H as [-> ->]. simpl. repeat split; [lia | | discriminate].
    intros found Hf. injection Hf as <-. exact I.
  - destruct H as (r & t' & -> & H). destruct r as [e |]; simpl in H.
    + destruct (IH _ _ H) as (Hlen & Hret & Hno).
      split; [simpl; lia | split; [| exact Hno]].
      intros found Hf. specialize (Hret found Hf).
      destruct found as [m |]; [| exact I].
      destruct Hret as [pre Hpre]. exists ((ks, a, auth, Some e) :: pre).
      simpl. rewrite Hpre. reflexivity.
    + destruct H as [-> ->]. simpl. split; [lia | split; [| discriminate]].
      intros found Hf. injection Hf as <-. exists []. reflexivity.
Qed.

(** The prints of the recovery after the search: console only, and the
    value returned is the match. *)
Lemma recovery_report_exec (Matches : list Account) (m : Account) t o :
  exec (call (Printf "Your passphrase unlocked %s\n" [AURL (AccURL m)]) ;;
        call (Println [AStr "In order to avoid this warning, remove the following duplicate key files:"]) ;;
        forEach Matches (fun a =>
          if negb (Account_eqb a m)
          then call (Println [AStr "  "; AURL (AccURL a)])
          else Ret tt) ;;
        Ret m) t o ->
  unlockEvents t = [] /\ forall m', o = Returned m' -> m' = m.
Proof.
  intros H. simpl in H.
  destruct H as ([] & t1 & -> & [] & t2 & -> & H).
  assert (Hloop : allCalls consoleCall
            (forEach Matches (fun a =>
               if negb (Account_eqb a m)
               then call (Println [AStr "  "; AURL (AccURL a)]) else Ret tt))).
  { apply allCalls_forEach. intros a. destruct (negb (Account_eqb a m)); simpl; auto. }
  peel H as x a ta tb Ha.
  - split; [| discriminate].
    exact (proj1 (@exec_console _ _ _ _ Hloop H)).
  - simpl in H. destruct H as [-> ->]. rewrite app_nil_r. split.
    + exact (proj1 (@exec_console _ _ _ _ Hloop Ha)).
    + intros m' Hm. injection Hm as <-. reflexivity.
Qed.

Lemma ambiguousAddrRecovery_exec ks Addr Matches auth t o :
  exec (ambiguousAddrRecovery ks Addr Matches auth) t o ->
  (List.length (unlockEvents t) <= List.length Matches)%nat /\
  (forall m, o = Returned m -> exists pre, unlockEvents t = pre ++ [(ks, m, auth, None)]).
Proof.
  unfold ambiguousAddrRecovery. intros H. simpl in H.
  destruct H as ([] & t1 & -> & H).
  peel H as x a ta tb Ha.
  { exfalso.
    assert (Hr : forall l t' x',
               ~ exec (forEach l (fun a : Account =>
                         call (Println [AStr "  "; AURL (AccURL a)]))) t' (Halted x')).
    { induction l as [| b l IHl]; simpl; intros t' x' Hx.
      - destruct Hx; discriminate.
      - destruct Hx as ([] & t'' & -> & Hx). eapply IHl; eauto. }
    eapply Hr; eauto. }
  assert (Hta : unlockEvents ta = []).
  { apply (@exec_console _ (forEach Matches (fun a : Account =>
             call (Println [AStr "  "; AURL (AccURL a)]))) _ (Returned a)); [| exact Ha].
    apply allCalls_forEach. intros b. simpl. auto. }
  simpl in H. destruct H as ([] & t2 & -> & H).
  peel H as x a0 ta0 tb Ha0.
  { destruct (@firstUnlocked_exec _ _ _ _ _ H) as (_ & _ & Hno). exfalso. exact (Hno x eq_refl). }
  destruct (@firstUnlocked_exec _ _ _ _ _ Ha0) as (Hlen & Hret & _).
  specialize (Hret a0 eq_refl).
  destruct a0 as [m |].
  - destruct (@recovery_report_exec _ _ _ _ H) as [Hrep Hval].
    change (unlockEvents (Ev (Printf "Multiple key files exist for address %x:\n"
                                [AAddr Addr]) tt
                          :: ta ++ Ev (Println [AStr "Testing your passphrase against all of them..."]) tt
                          :: ta0 ++ tb))
      with (unlockEvents (ta ++ Ev (Println [AStr "Testing your passphrase against all of them..."]) tt
                          :: ta0 ++ tb)).
    rewrite unlockEvents_app, Hta.
    change (unlockEvents (Ev (Println [AStr "Testing your passphrase against all of them..."]) tt
                          :: ta0 ++ tb))
      with (unlockEvents (ta0 ++ tb)).
    rewrite unlockEvents_app, Hrep, app_nil_r. simpl.
    split; [exact Hlen |].
    intros m' Hm. rewrite (Hval m' Hm). exact Hret.
  - simpl in H. destruct H as [-> ->]. rewrite app_nil_r.
    change (unlockEvents (Ev (Printf "Multiple key files exist for address %x:\n"
                                [AAddr Addr]) tt
                          :: ta ++ Ev (Println [AStr "Testing your passphrase against all of them..."]) tt
                          :: ta0))
      with (unlockEvents (ta ++ Ev (Println [AStr "Testing your passphrase against all of them..."]) tt
                          :: ta0)).
    rewrite unlockEvents_app, Hta.
    split; [exact Hlen | discriminate].
Qed.

Arguments ambiguousAddrRecovery : simpl never.

Lemma offeredMatches_cons ks a p r t :
  offeredMatches (Ev (Unlock ks a p) r :: t) =
  ((match r with
    | Some (AmbiguousAddrError _ Matches) => List.length Matches
    | _ => 0
    end) + offeredMatches t)%nat.
Proof. reflexivity. Qed.

Lemma unlockTrials_sound ks account address i passwords :
  forall n err0 t o,
    exec (unlockTrials ks account address i passwords n err0) t o ->
    (List.length (unlockEvents t) <= n + offeredMatches t)%nat /\
    (forall a pw, o = Returned (a, pw) ->
       exists pre, unlockEvents t = pre ++ [(ks, a, pw, None)]).
Proof.
  induction n as [| n IH]; intros err0 t o H.
  - simpl in H. destruct H as [-> ->]. simpl. split; [lia | discriminate].
  - rewrite unlockTrials_step in H. peel H as x a ta tb Ha.
    + destruct (@exec_console _ _ _ _ (getPassPhrase_consoleCall _ _ _ _) H) as [-> ->].
      simpl. split; [lia | discriminate].
    + destruct (@exec_console _ _ _ _ (getPassPhrase_consoleCall _ _ _ _) Ha) as [Hu Hm].
      rewrite unlockEvents_app, offeredMatches_app, Hu, Hm. simpl app. simpl plus.
      simpl in H. destruct H as (r & t' & -> & H).
      rewrite offeredMatches_cons.
      change (unlockEvents (Ev (Unlock ks account a) r :: t'))
        with ((ks, account, a, r) :: unlockEvents t').
      destruct r as [[| Addr Matches | msg] |]; simpl in H.
      * destruct (IH _ _ _ H) as [Hlen Hret]. split; [simpl; lia |].
        intros a' pw Ho. destruct (Hret a' pw Ho) as [pre Hpre].
        exists ((ks, account, a, Some ErrDecrypt) :: pre). rewrite Hpre. reflexivity.
      * destruct H as ([] & t'' & -> & H).
        change (exec (a0 <- ambiguousAddrRecovery ks Addr Matches a ;; Ret (a0, a)) t'' o) in H.
        peel H as x a0 ta0 tb0 Ha1.
        -- destruct (@ambiguousAddrRecovery_exec _ _ _ _ _ _ H) as [Hlen _].
           change (unlockEvents (Ev (Log Info "Unlocked account"
                                       [AStr "address"; AAddr (AccAddress account)]) tt :: t''))
             with (unlockEvents t'').
           change (offeredMatches (Ev (Log Info "Unlocked account"
                                         [AStr "address"; AAddr (AccAddress account)]) tt :: t''))
             with (offeredMatches t'').
           split; [simpl; lia | discriminate].
        -- simpl in H. destruct H as [-> ->]. rewrite app_nil_r.
           destruct (@ambiguousAddrRecovery_exec _ _ _ _ _ _ Ha1) as [Hlen Hret].
           change (unlockEvents (Ev (Log Info "Unlocked account"
                                       [AStr "address"; AAddr (AccAddress account)]) tt :: ta0))
             with (unlockEvents ta0).
           change (offeredMatches (Ev (Log Info "Unlocked account"
                                         [AStr "address"; AAddr (AccAddress account)]) tt :: ta0))
             with (offeredMatches ta0).
           split; [simpl; lia |].
           intros a' pw Ho. injection Ho as <- <-.
           destruct (Hret a0 eq_refl) as [pre Hpre].
           exists ((ks, account, a, Some (AmbiguousAddrError Addr Matches)) :: pre).
           rewrite Hpre. reflexivity.
      * destruct H as [-> ->]. simpl. split; [lia | discriminate].
      * destruct H as ([] & t'' & -> & -> & ->). simpl. split; [lia |].
        intros a' pw Ho. injection Ho as <- <-. exists []. reflexivity.
Qed.

Lemma unlockAccount_sound ks address i passwords t o :
  exec (unlockAccount ks address i passwords) t o ->
  (List.length (unlockEvents t) <= 3 + offeredMatches t)%nat /\
  (forall a pw, o = Returned (a, pw) ->
     exists pre, unlockEvents t = pre ++ [(ks, a, pw, None)]).
Proof.
  unfold unlockAccount, call. cbn [bind exec]. intros (r & t' & -> & H).
  destruct r as [account | err].
  - exact (@unlockTrials_sound _ _ _ _ _ _ _ _ _ H).
  - simpl in H. destruct H as [-> ->]. simpl. split; [lia | discriminate].
Qed.

(** X5.  When [unlockAccount] returns an account and a passphrase, the
    last [Unlock] call of the run was made on that account with that
    passphrase and succeeded: after a plain success as after an
    ambiguous-match recovery, what is returned is what was unlocked. *)
Theorem unlockAccount_returns_what_it_unlocked :
  forall St (h : handler St) (s : St) (ks : KeyStore) (address : string) (i : Z)
         (passwords : list string) (a : Account) (pw : string),
    let r := run h (unlockAccount ks address i passwords) s in
    outcomeOf r = Returned (a, pw) ->
    exists earlier, unlockEvents (traceOf r) = earlier ++ [(ks, a, pw, None)].
Proof.
  intros St h s ks address i passwords a pw. cbv zeta. intros Ho.
  exact (proj2 (@unlockAccount_sound _ _ _ _ _ _
                  (run_exec h (unlockAccount ks address i passwords) s)) a pw Ho).
Qed.

Lemma unlockAccount_returns_what_it_unlocked_witness :
  let r := run sim (unlockAccount (KeyStoreRef 0) "0x0a" 0 ["bravo"]) threeKeyFiles in
  exists earlier, unlockEvents (traceOf r) = earlier ++ [(KeyStoreRef 0, keyB, "bravo", None)].
Proof.
  apply (@unlockAccount_returns_what_it_unlocked Sim sim threeKeyFiles (KeyStoreRef 0)
           "0x0a" 0%Z ["bravo"] keyB "bravo").
  reflexivity.
Defined.

(** X6.  [unlockAccount] calls [Unlock] at most three times, plus at
    most once for every key file an ambiguous-match answer offered. *)
Theorem unlockAccount_unlock_bound :
  forall St (h : handler St) (s : St) (ks : KeyStore) (address : string) (i : Z)
         (passwords : list string),
    let r := run h (unlockAccount ks address i passwords) s in
    (List.length (unlockEvents (traceOf r)) <= 3 + offeredMatches (traceOf r))%nat.
Proof.
  intros St h s ks address i passwords. cbv zeta.
  exact (proj1 (@unlockAccount_sound _ _ _ _ _ _
                  (run_exec h (unlockAccount ks address i passwords) s))).
Qed.

(** ** What the operator sees of the retry loop *)

Lemma headings_step e rest :
  headings (e :: rest) = headings rest \/
  exists line p rest', e = Println [AStr line] /\ rest = PromptPassword p :: rest'.
Proof.
  destruct e; try (left; reflexivity).
  destruct args as [| [line | | | |] [| b args]]; try (left; reflexivity).
  destruct rest as [| [] rest']; try (left; reflexivity).
  right. eauto.
Qed.

Lemma headings_none es :
  Forall notPrompt es ->
  headings es = [] /\
  flat_map (fun e => match e with PromptPassword p => [p] | _ => [] end) es = [].
Proof.
  induction 1 as [| e es He Hes [IH1 IH2]]; [split; reflexivity |].
  split.
  - destruct (headings_step e es) as [-> | (line & p & rest' & _ & ->)]; [exact IH1 |].
    inversion Hes as [| ? ? Hp _]. contradiction.
  - destruct e; simpl in *; auto; contradiction.
Qed.

Lemma ambiguousAddrRecovery_notPrompt ks Addr Matches auth :
  allCalls notPrompt (ambiguousAddrRecovery ks Addr Matches auth).
Proof. apply ambiguousAddrRecovery_calls; simpl; auto. Qed.

Lemma attemptLine_not_empty address k : negb (attemptLine address k =? "") = true.
Proof. reflexivity. Qed.

Lemma getPassPhrase_interactive_exec prompt i t o :
  negb (prompt =? "") = true ->
  exec (getPassPhrase prompt false i []) t o ->
  exists r,
    t = [Ev (Println [AStr prompt]) tt; Ev (PromptPassword "Passphrase: ") r] /\
    o = match r with
        | Ok password => Returned password
        | Err err => Halted (Fatalf "Failed to read passphrase: %v" [AErr (Some err)])
        end.
Proof.
  intros Hne. unfold getPassPhrase. simpl. rewrite Hne. simpl.
  intros ([] & t1 & -> & r & t2 & -> & H). exists r.
  destruct r; simpl in H; destruct H as [-> ->]; auto.
Qed.

Lemma unlockTrials_headings ks account address i :
  forall n err0 t o,
    exec (unlockTrials ks account address i [] n err0) t o ->
    exists k, (k <= n)%nat /\
              prompts t = repeat "Passphrase: " k /\
              headings (calls t) = map (attemptLine address) (firstn k (attemptNumbers n)).
Proof.
  induction n as [| n IH]; intros err0 t o H.
  - simpl in H. destruct H as [-> _]. exists 0%nat. auto.
  - rewrite unlockTrials_step in H.
    change ("Unlocking account " ++ address ++ " | Attempt "
            ++ itoa (3 - Z.of_nat (S n) + 1) ++ "/" ++ itoa 3)%string
      with (attemptLine address (3 - Z.of_nat (S n) + 1)) in H.
    peel H as x pw ta tb Ha.
    + destruct (@getPassPhrase_interactive_exec _ _ _ _ (attemptLine_not_empty address _) H)
        as (r & -> & _).
      exists 1%nat. split; [lia |]. split; reflexivity.
    + destruct (@getPassPhrase_interactive_exec _ _ _ _ (attemptLine_not_empty address _) Ha)
        as (r & -> & _).
      cbn [bind call exec] in H. destruct H as (r' & t' & -> & H).
      assert (Hshape : forall k,
                 prompts t' = repeat "Passphrase: " k ->
                 headings (calls t') = map (attemptLine address) (firstn k (attemptNumbers n)) ->
                 (k <= n)%nat ->
                 exists k0, (k0 <= S n)%nat /\
                   prompts ([Ev (Println [AStr (attemptLine address (3 - Z.of_nat (S n) + 1))]) tt;
                             Ev (PromptPassword "Passphrase: ") r]
                            ++ Ev (Unlock ks account pw) r' :: t')
                   = repeat "Passphrase: " k0 /\
                   headings (calls ([Ev (Println [AStr (attemptLine address
                                                         (3 - Z.of_nat (S n) + 1))]) tt;
                                     Ev (PromptPassword "Passphrase: ") r]
                                    ++ Ev (Unlock ks account pw) r' :: t'))
                   = map (attemptLine address) (firstn k0 (attemptNumbers (S n)))).
      { intros k Hp Hh Hk. exists (S k). split; [lia |]. split.
        - change (prompts ([Ev (Println [AStr (attemptLine address (3 - Z.of_nat (S n) + 1))]) tt;
                            Ev (PromptPassword "Passphrase: ") r]
                           ++ Ev (Unlock ks account pw) r' :: t'))
            with ("Passphrase: " :: prompts t').
          rewrite Hp. reflexivity.
        - change (headings (calls ([Ev (Println [AStr (attemptLine address
                                                        (3 - Z.of_nat (S n) + 1))]) tt;
                                    Ev (PromptPassword "Passphrase: ") r]
                                   ++ Ev (Unlock ks account pw) r' :: t')))
            with (attemptLine address (3 - Z.of_nat (S n) + 1) :: headings (calls t')).
          rewrite Hh. reflexivity. }
      assert (Hquiet : Forall notPrompt (calls t') -> exists k0, (k0 <= S n)%nat /\
                   prompts ([Ev (Println [AStr (attemptLine address (3 - Z.of_nat (S n) + 1))]) tt;
                             Ev (PromptPassword "Passphrase: ") r]
                            ++ Ev (Unlock ks account pw) r' :: t')
                   = repeat "Passphrase: " k0 /\
                   headings (calls ([Ev (Println [AStr (attemptLine address
                                                         (3 - Z.of_nat (S n) + 1))]) tt;
                                     Ev (PromptPassword "Passphrase: ") r]
                                    ++ Ev (Unlock ks account pw) r' :: t'))
                   = map (attemptLine address) (firstn k0 (attemptNumbers (S n)))).
      { intros Hq. destruct (headings_none Hq) as [Hh Hp].
        apply (Hshape 0%nat); [exact Hp | exact Hh | lia]. }
      destruct r' as [[| Addr Matches | msg] |].
      * destruct (IH _ _ _ H) as (k & Hk & Hp & Hh). apply (Hshape k); assumption.
      * apply Hquiet. cbn [bind call exec] in H. destruct H as ([] & t'' & -> & H).
        simpl. constructor; [exact I |].
        peel H as x a ta tb Hb.
        -- exact (@allCalls_exec _ _ _ _ _ (ambiguousAddrRecovery_notPrompt _ _ _ _) H).
        -- simpl in H. destruct H as [-> _]. rewrite app_nil_r.
           exact (@allCalls_exec _ _ _ _ _ (ambiguousAddrRecovery_notPrompt _ _ _ _) Hb).
      * apply Hquiet. simpl in H. destruct H as [-> _]. constructor.
      * apply Hquiet. simpl in H. destruct H as ([] & t'' & -> & -> & _).
        repeat constructor.
Qed.

(** X7.  Without a password list [unlockAccount] asks for the
    passphrase at most three times, always under "Passphrase: ", and
    each question comes right after the line "Unlocking account
    <address> | Attempt k/3", with k counting 1, 2, 3. *)
Theorem unlockAccount_numbers_its_prompts :
  forall St (h : handler St) (s : St) (ks : KeyStore) (address : string) (i : Z),
    let r := run h (unlockAccount ks address i []) s in
    exists k, (k <= 3)%nat /\
              prompts (traceOf r) = repeat "Passphrase: " k /\
              headings (calls (traceOf r))
                = map (attemptLine address) (firstn k [1; 2; 3]%Z).
Proof.
  intros St h s ks address i. cbv zeta.
  pose proof (run_exec h (unlockAccount ks address i []) s) as H.
  generalize dependent (outcomeOf (run h (unlockAccount ks address i []) s)).
  generalize (traceOf (run h (unlockAccount ks address i []) s)).
  intros t o H.
  unfold unlockAccount, call in H. cbn [bind exec] in H.
  destruct H as (r & t' & -> & H).
  destruct r as [account | err].
  - destruct (@unlockTrials_headings _ _ _ _ _ _ _ _ H) as (k & Hk & Hp & Hh).
    exists k. split; [exact Hk |]. split; [exact Hp | exact Hh].
  - simpl in H. destruct H as [-> _]. exists 0%nat. split; [lia |]. split; reflexivity.
Qed.

(** ** The log line of an ambiguous match *)

Lemma getPassPhrase_own_exits prompt confirmation i passwords t x :
  exec (getPassPhrase prompt confirmation i passwords) t (Halted x) ->
  x <> Fatalf "None of the listed files could be unlocked." [].
Proof.
  unfold getPassPhrase, index. intros H.
  repeat (cbn [bind call exec] in H;
          match type of H with
          | exists _ _, _ /\ _ => destruct H as (? & ? & -> & H)
          | context [if ?c then _ else _] => destruct c
          | context [match nth_error ?l ?k with _ => _ end] => destruct (nth_error l k)
          | context [match ?c with _ => _ end] => is_var c; destruct c
          end);
    cbn [bind call exec] in H; destruct H as [_ H];
    first [discriminate H | injection H as H; subst x; discriminate].
Qed.

Lemma unlockTrials_logs_before_recovery ks account address i passwords :
  forall n err0 t,
    exec (unlockTrials ks account address i passwords n err0) t
         (Halted (Fatalf "None of the listed files could be unlocked." [])) ->
    In (Log Info "Unlocked account" [AStr "address"; AAddr (AccAddress account)]) (calls t).
Proof.
  induction n as [| n IH]; intros err0 t H.
  - simpl in H. destruct H as [_ H]. discriminate H.
  - rewrite unlockTrials_step in H. apply exec_bind in H.
    destruct H as [(x & H & Hx) | (pw & ta & tb & Ha & H & ->)].
    + exfalso. injection Hx as Hx.
      exact (@getPassPhrase_own_exits _ _ _ _ _ _ H (eq_sym Hx)).
    + cbn [bind call exec] in H. destruct H as (r & t' & -> & H).
      rewrite calls_app. apply in_or_app. right.
      destruct r as [[| Addr Matches | msg] |].
      * right. eapply IH. exact H.
      * cbn [bind call exec] in H. destruct H as ([] & t'' & -> & H).
        right. left. reflexivity.
      * simpl in H. destruct H as [_ H]. discriminate H.
      * simpl in H. destruct H as ([] & t'' & -> & _ & H). discriminate H.
Qed.

(** X8.  The line "Unlocked account" is logged as soon as [Unlock]
    answers with an ambiguous match, before any key file is tried: a
    run of [unlockAccount] that ends with "None of the listed files
    could be unlocked." has logged the resolved address as unlocked. *)
Theorem unlockAccount_logs_unlocked_before_recovery :
  forall St (h : handler St) (s : St) (ks : KeyStore) (address : string) (i : Z)
         (passwords : list string),
    let r := run h (unlockAccount ks address i passwords) s in
    outcomeOf r = Halted (Fatalf "None of the listed files could be unlocked." []) ->
    exists account,
      In (Ev (MakeAddress ks address) (Ok account)) (traceOf r) /\
      In (Log Info "Unlocked account" [AStr "address"; AAddr (AccAddress account)])
         (calls (traceOf r)).
Proof.
  intros St h s ks address i passwords. cbv zeta. intros Ho.
  pose proof (run_exec h (unlockAccount ks address i passwords) s) as H.
  rewrite Ho in H. clear Ho.
  generalize dependent (traceOf (run h (unlockAccount ks address i passwords) s)).
  intros t H.
  unfold unlockAccount, call in H. cbn [bind exec] in H.
  destruct H as (r & t' & -> & H).
  destruct r as [account | err].
  - exists account. split; [left; reflexivity |].
    right. exact (@unlockTrials_logs_before_recovery _ _ _ _ _ _ _ _ H).
  - simpl in H. destruct H as [_ H]. discriminate H.
Qed.

Lemma unlockAccount_logs_unlocked_before_recovery_witness :
  let r := run sim (unlockAccount (KeyStoreRef 0) "0x0a" 0 ["delta"]) threeLockedFiles in
  exists account,
    In (Ev (MakeAddress (KeyStoreRef 0) "0x0a") (Ok account)) (traceOf r) /\
    In (Log Info "Unlocked account" [AStr "address"; AAddr (AccAddress account)])
       (calls (traceOf r)).
Proof.
  apply (@unlockAccount_logs_unlocked_before_recovery Sim sim threeLockedFiles
           (KeyStoreRef 0) "0x0a" 0%Z ["delta"]).
  reflexivity.
Defined.

(** ** The consensus node *)

(** X9.  [startTendermint] never ends the process: it returns, either
    the error of its first failed step, after which it calls nothing
    more and hands back no node, or the node it built and started.  The
    node is built from the parsed configuration, the validator loaded
    from the file the configuration names, and the in-process client
    creator when a basecoin application is given. *)
Theorem startTendermint_hands_back_first_failure :
  forall St (h : handler St) (s : St) (basecoinApp : option App),
    let r := run h (startTendermint basecoinApp) s in
    exists res,
      outcomeOf r = Returned res /\
      match snd res with
      | Some err =>
          fst res = None /\
          exists before ev,
            traceOf r = before ++ [ev] /\ consensusError ev = Some err /\
            existsb failed before = false
      | None =>
          exists cfg pv n,
            fst res = Some n /\
            traceOf r = [Ev ParseConfig (Ok cfg);
                         Ev (LoadOrGenPrivValidatorFS (PrivValidatorFile cfg)) pv;
                         Ev (NewNode cfg pv (clientCreatorFor basecoinApp cfg)) (Ok n);
                         Ev (TmStart n) None]
      end.
Proof.
  intros St h s basecoinApp. cbv zeta.
  pose proof (run_exec h (startTendermint basecoinApp) s) as H.
  generalize dependent (outcomeOf (run h (startTendermint basecoinApp) s)).
  generalize (traceOf (run h (startTendermint basecoinApp) s)).
  intros t o H. unfold startTendermint in H.
  change (match basecoinApp with
          | Some a => NewLocalClientCreator a
          | None => DefaultClientCreator (ProxyApp ?c) (ABCI ?c) (DBDir ?c)
          end) with (clientCreatorFor basecoinApp c) in H.
  repeat exec_step H; subst o; eexists; (split; [reflexivity |]); simpl;
    first
      [ do 3 eexists; split; reflexivity
      | split; [reflexivity |];
        first
          [ eexists [], _; split; [reflexivity | split; reflexivity]
          | eexists [_; _], _; split; [reflexivity | split; reflexivity]
          | eexists [_; _; _], _; split; [reflexivity | split; reflexivity] ] ].
Qed.

(** ** The start of the watcher *)

Lemma loopCall_no_setup t : Forall loopCall (calls t) -> filter watcherSetup (calls t) = [].
Proof.
  induction t as [| [e r] t IH]; [reflexivity |].
  simpl. intros H. inversion H as [| ? ? He Ht]; subst.
  destruct e; simpl in *; try contradiction; auto.
Qed.

Lemma earlyCall_no_setup t : Forall earlyCall (calls t) -> filter watcherSetup (calls t) = [].
Proof.
  induction t as [| [e r] t IH]; [reflexivity |].
  simpl. intros H. inversion H as [| ? ? He Ht]; subst.
  destruct e; simpl in *; try contradiction; auto.
Qed.

(** X10.  [startNode] sets the watcher up last and only when every
    requested account was unlocked: a run that returns ends with the
    making of a channel of capacity 16, its subscription at the node
    and the start of one goroutine over that node and that channel, and
    does nothing of the kind before; a run that ends the process makes
    no channel and starts no goroutine. *)
Theorem startNode_starts_watcher_last :
  forall St (h : handler St) (s : St) (ctx : Context) (stack : Node),
    let r := run h (startNode ctx stack) s in
    (outcomeOf r = Returned tt /\
     exists before events,
       traceOf r = before ++ [Ev (MakeChan 16) events;
                              Ev (Subscribe stack events) tt;
                              Ev (Go (WalletWatcher stack events)) tt] /\
       filter watcherSetup (calls before) = []) \/
    (exited (outcomeOf r) = true /\ filter watcherSetup (calls (traceOf r)) = []).
Proof.
  intros St h s ctx stack. cbv zeta.
  pose proof (run_exec h (startNode ctx stack) s) as H.
  generalize dependent (outcomeOf (run h (startNode ctx stack) s)).
  generalize (traceOf (run h (startNode ctx stack) s)).
  intros t o H. apply startNode_exec in H.
  destruct H as [(He & _ & Ho) | (ks & bs & passwords & t1 & o1 & t2 & -> & H1 & H2)].
  - right. split; [exact Ho | apply earlyCall_no_setup; exact He].
  - pose proof (@allCalls_exec _ _ _ _ _ (unlockRequested_loopCall ks passwords _ _) H1)
      as Hl.
    apply loopCall_no_setup in Hl.
    destruct H2 as [(x & -> & -> & ->) | (-> & -> & events & ->)].
    + right. split; [reflexivity |]. rewrite app_nil_r. simpl. exact Hl.
    + left. split; [reflexivity |].
      exists (Ev (NodeStart stack) None :: Ev (Backends stack) (ks :: bs)
              :: Ev MakePasswordList (Ok passwords) :: t1), events.
      split; [reflexivity |]. simpl. exact Hl.
Qed.

(** ** The log of the watcher *)

Lemma exec_forEach_inv A (body : A -> prog unit) (P : trace -> Prop) :
  P [] ->
  (forall t1 t2, P t1 -> P t2 -> P (t1 ++ t2)) ->
  (forall x t o, exec (body x) t o -> P t /\ o = Returned tt) ->
  forall l t o, exec (forEach l body) t o -> P t /\ o = Returned tt.
Proof.
  intros Hnil Happ Hb. induction l as [| x l IH]; simpl; intros t o H.
  - destruct H as [-> ->]. auto.
  - apply exec_bind in H.
    destruct H as [(y & H & ->) | ([] & t1 & t2 & H1 & H2 & ->)].
    + apply Hb in H. destruct H as [_ H]. discriminate H.
    + destruct (Hb _ _ _ H1) as [HP _]. destruct (IH _ _ H2) as [HP2 ->]. auto.
Qed.

Lemma warnings_app t1 t2 : warnings (t1 ++ t2) = warnings t1 ++ warnings t2.
Proof. unfold warnings. rewrite calls_app. apply flat_map_app. Qed.

Lemma failedOpens_app t1 t2 : failedOpens (t1 ++ t2) = failedOpens t1 ++ failedOpens t2.
Proof. apply flat_map_app. Qed.

Lemma infoLines_app t1 t2 : infoLines (t1 ++ t2) = infoLines t1 ++ infoLines t2.
Proof. unfold infoLines. rewrite calls_app. apply flat_map_app. Qed.

Lemma derivationPaths_app t1 t2 :
  derivationPaths (t1 ++ t2) = derivationPaths t1 ++ derivationPaths t2.
Proof. unfold derivationPaths. rewrite calls_app. apply flat_map_app. Qed.

Lemma statusReads_app t1 t2 : statusReads (t1 ++ t2) = statusReads t1 ++ statusReads t2.
Proof. unfold statusReads. rewrite calls_app. apply flat_map_app. Qed.

Lemma watcherLog_app t1 t2 : watcherLog t1 -> watcherLog t2 -> watcherLog (t1 ++ t2).
Proof.
  intros (Hw1 & Hi1 & Hd1) (Hw2 & Hi2 & Hd2). split; [| split].
  - rewrite warnings_app, failedOpens_app, map_app, Hw1, Hw2. reflexivity.
  - rewrite infoLines_app, flat_map_app, Hi1, Hi2. reflexivity.
  - rewrite derivationPaths_app. apply Forall_app. auto.
Qed.

Lemma openKnown_logs reader w t o :
  exec (openKnown reader w) t o ->
  (watcherLog t /\ statusReads t = []) /\ o = Returned tt.
Proof.
  unfold openKnown. intros H.
  repeat exec_step H; subst o;
    (split; [split; [split; [| split] |] |]); try reflexivity; repeat constructor.
Qed.

Lemma onEvent_logs reader event t o :
  exec (onEvent reader event) t o ->
  (watcherLog t /\ statusReads t = openedOk t) /\ o = Returned tt.
Proof.
  unfold onEvent. destruct event as [w arrive]. simpl Arrive. simpl EvWallet.
  destruct arrive; intros H;
    repeat exec_step H; subst o;
    (split; [split; [split; [| split] |] |]); try reflexivity; repeat constructor.
Qed.

Lemma walletWatcher_logs stack delivered t o :
  exec (walletWatcher stack delivered) t o ->
  watcherLog t /\ exists startup, openedOk t = startup ++ statusReads t.
Proof.
  rewrite walletWatcher_unfold. cbn [bind call exec]. intros (r & t' & -> & H).
  destruct r as [c | err].
  - cbn [bind call exec] in H. destruct H as (known & t'' & -> & H).
    apply exec_bind in H.
    destruct H as [(y & H & ->) | ([] & t1 & t2 & H1 & H2 & ->)].
    + apply (@exec_forEach_inv _ (openKnown (NewClient c))
               (fun t => watcherLog t /\ statusReads t = [])) in H.
      * destruct H as [_ H]. discriminate H.
      * split; [repeat constructor | reflexivity].
      * intros ta tb [Ha Sa] [Hb Sb]. split; [apply watcherLog_app; assumption |].
        rewrite statusReads_app, Sa, Sb. reflexivity.
      * intros x ta oa. apply openKnown_logs.
    + apply (@exec_forEach_inv _ (openKnown (NewClient c))
               (fun t => watcherLog t /\ statusReads t = [])) in H1.
      * apply (@exec_forEach_inv _ (onEvent (NewClient c))
                 (fun t => watcherLog t /\ statusReads t = openedOk t)) in H2.
        -- destruct H1 as [[L1 S1] _]. destruct H2 as [[L2 S2] _].
           split.
           ++ apply (@watcherLog_app [Ev (Attach stack) (Ok c); Ev (Wallets stack) known]
                       (t1 ++ t2)).
              ** repeat constructor.
              ** apply watcherLog_app; assumption.
           ++ exists (openedOk t1).
              change (openedOk (t1 ++ t2) = openedOk t1 ++ statusReads (t1 ++ t2)).
              rewrite openedOk_app, statusReads_app, S1, S2. reflexivity.
        -- split; [repeat constructor | reflexivity].
        -- intros ta tb [Ha Sa] [Hb Sb]. split; [apply watcherLog_app; assumption |].
           rewrite statusReads_app, openedOk_app, Sa, Sb. reflexivity.
        -- intros x ta oa. apply onEvent_logs.
      * split; [repeat constructor | reflexivity].
      * intros ta tb [Ha Sa] [Hb Sb]. split; [apply watcherLog_app; assumption |].
        rewrite statusReads_app, Sa, Sb. reflexivity.
      * intros x ta oa. apply openKnown_logs.
  - simpl in H. destruct H as [-> _]. split; [repeat constructor |].
    exists []. reflexivity.
Qed.

(** X12.  The log of the watcher follows its wallet calls.  Every
    failed [Open] is warned of, with the URL of the wallet and the
    error, and nothing else is; every information line is either "New
    wallet appeared", with the URL of a wallet and the status just read
    from it, or "Old wallet dropped", with the URL of the wallet being
    closed; every self-derivation starts from
    [accounts.DefaultBaseDerivationPath]; and a status is read only of
    a wallet whose open has just succeeded, the statuses read being the
    last of the successful opens. *)
Theorem walletWatcher_logs_what_it_does :
  forall St (h : handler St) (s : St) (stack : Node) (delivered : list WalletEvent),
    let t := traceOf (run h (walletWatcher stack delivered) s) in
    warnings t = map warningFor (failedOpens t) /\
    infoLines t = flat_map announcement t /\
    Forall (fun path => path = DefaultBaseDerivationPath) (derivationPaths t) /\
    exists startup, openedOk t = startup ++ statusReads t.
Proof.
  intros St h s stack delivered. cbv zeta.
  destruct (@walletWatcher_logs _ _ _ _ (run_exec h (walletWatcher stack delivered) s))
    as [(Hw & Hi & Hd) Hs].
  auto.
Qed.

(** ** The wiring of the services *)

Lemma wired_incl ctx rootDir storeApp t t' e :
  (forall ev, In ev t -> In ev t') ->
  wired ctx rootDir storeApp t e -> wired ctx rootDir storeApp t' e.
Proof.
  intros Hi. destruct e; simpl; auto.
  - intros (stack & H1 & H2). eauto.
  - intros (Hm & b & c & H). eauto 6.
  - intros (Ha & Ht & b & c & H). eauto 8.
  - intros (Hm & addr & transport & a & H). eauto 8.
  - intros (addr & transport & a & H). eauto 8.
  - intros (cfg & H & Hf). eauto.
  - intros (H1 & H2 & ba & H3 & Hp). eauto 8.
  - intros (cfg & pv & papp & H). eauto 8.
Qed.

Lemma wiredFrom_bind A B ctx rootDir storeApp (p : prog A) (f : A -> prog B) :
  forall seen,
    wiredFrom ctx rootDir storeApp seen p ->
    (forall a t, exec p t (Returned a) ->
                 wiredFrom ctx rootDir storeApp (rev t ++ seen) (f a)) ->
    wiredFrom ctx rootDir storeApp seen (bind p f).
Proof.
  induction p as [a | y | e k IH]; simpl; intros seen Hp Hf.
  - apply (Hf a []). auto.
  - exact I.
  - destruct Hp as [He Hk]. split; [exact He |]. intros r.
    apply IH; [apply Hk |]. intros a t Hx.
    specialize (Hf a (Ev e r :: t)). simpl in Hf. rewrite <- app_assoc in Hf.
    apply Hf. exists r, t. auto.
Qed.

Lemma wiredFrom_exec A ctx rootDir storeApp (p : prog A) :
  forall seen t o,
    wiredFrom ctx rootDir storeApp seen p -> exec p t o ->
    forall t1 ev t2,
      t = t1 ++ ev :: t2 -> wired ctx rootDir storeApp (rev t1 ++ seen) (evCall ev).
Proof.
  induction p as [a | y | e k IH]; simpl; intros seen t o Hp Hx t1 ev t2 Heq.
  - destruct Hx as [-> _]. destruct t1; discriminate.
  - destruct Hx as [-> _]. destruct t1; discriminate.
  - destruct Hx as (r & t' & -> & Hx). destruct Hp as [He Hk].
    destruct t1 as [| ev1 t1]; simpl in Heq.
    + injection Heq as <- _. exact He.
    + injection Heq as <- ->. simpl. rewrite <- app_assoc.
      exact (IH r _ _ _ (Hk r) Hx t1 ev t2 eq_refl).
Qed.

Lemma wiredFrom_allCalls A ctx rootDir storeApp (Q : effect -> Prop) (p : prog A) :
  (forall e seen, Q e -> wired ctx rootDir storeApp seen e) ->
  allCalls Q p -> forall seen, wiredFrom ctx rootDir storeApp seen p.
Proof.
  intros HQ. induction p as [a | y | e k IH]; simpl; auto.
  intros [He Hk] seen. split; auto.
Qed.

Lemma allCalls_startNodeCall ctx stack : allCalls startNodeCall (startNode ctx stack).
Proof.
  unfold startNode, StartNode. simpl. split; [exact I |].
  intros [e |]; simpl; [exact I |]. split; [exact I |].
  intros [| ks bs]; simpl; [exact I |]. split; [exact I |].
  intros [passwords | e]; simpl; [| exact I].
  apply allCalls_bind.
  - eapply allCalls_impl; [| apply unlockRequested_loopCall].
    intros e; destruct e; simpl; auto.
  - intros _. simpl. auto.
Qed.

Lemma wiredFrom_servicesAfterNode ctx rootDir storeApp emNode seen :
  In (Ev MakeFullNode (Ok emNode)) seen ->
  wiredFrom ctx rootDir storeApp seen (servicesAfterNode ctx rootDir storeApp emNode).
Proof.
  intros Hin. unfold servicesAfterNode, startTendermint, printAndExit. cbv zeta.
  change (match ?ba with
          | Some a => NewLocalClientCreator a
          | None => DefaultClientCreator (ProxyApp ?c) (ABCI ?c) (DBDir ?c)
          end) with (clientCreatorFor ba c).
  repeat first
    [ exact I | exact Hin
    | progress cbn [bind call wiredFrom wired snd fst]
    | match goal with
      | |- _ /\ _ => split
      | |- forall _, _ => intro
      | |- wiredFrom _ _ _ _ (match ?x with _ => _ end) => destruct x
      | |- wiredFrom _ _ _ _ (bind (match ?x with _ => _ end) _) => destruct x
      | |- _ = _ => reflexivity
      | |- In _ _ => simpl; eauto 25
      | |- exists _, _ => eexists
      end ].
Qed.

Lemma wiredFrom_startServices ctx rootDir storeApp :
  wiredFrom ctx rootDir storeApp [] (startServices ctx rootDir storeApp).
Proof.
  rewrite startServices_unfold.
  apply wiredFrom_bind.
  - unfold MakeFullNode_. simpl. split; [exact I |]. intros [n | err]; exact I.
  - intros emNode t Hx. unfold MakeFullNode_ in Hx. simpl in Hx.
    destruct Hx as (r & t' & -> & Hx). destruct r as [n | err]; simpl in Hx;
      [| destruct Hx as [_ Hx]; discriminate Hx].
    destruct Hx as [-> Hx]. injection Hx as ->.
    apply wiredFrom_bind.
    + apply (@wiredFrom_allCalls _ ctx rootDir storeApp startNodeCall).
      * intros e seen He. destruct e; simpl in *; try contradiction; exact I.
      * apply allCalls_startNodeCall.
    + intros [] tn Hn. apply wiredFrom_servicesAfterNode.
      apply in_or_app. right. simpl. auto.
Qed.

(** X13.  Each service is built on what the steps before it answered.
    In every run of [startServices] the backend and the client are
    asked of the node [MakeFullNode] answered; the bridge is built on
    that backend and that client; the server is built on that bridge,
    at the address and with the transport of the ABCI flags, and it is
    that server which is started; the basecoin application is created
    from the root directory and the store the function was given; the
    consensus node is built from the parsed configuration, the
    validator loaded from the file this configuration names and a
    client creator over that basecoin application, and it is that node
    which is started. *)
Theorem startServices_builds_on_earlier_answers :
  forall St (h : handler St) (s : St) (ctx : Context) (rootDir : string)
         (storeApp : StoreApp) (t1 : trace) (ev : event) (t2 : trace),
    let r := run h (startServices ctx rootDir storeApp) s in
    traceOf r = t1 ++ ev :: t2 ->
    wired ctx rootDir storeApp t1 (evCall ev).
Proof.
  intros St h s ctx rootDir storeApp t1 ev t2. cbv zeta. intros Heq.
  apply wired_incl with (t := rev t1 ++ []).
  - intros ev' Hin. rewrite app_nil_r in Hin. apply in_rev. exact Hin.
  - exact (@wiredFrom_exec _ ctx rootDir storeApp _ _ _ _
             (wiredFrom_startServices ctx rootDir storeApp)
             (run_exec h (startServices ctx rootDir storeApp) s) t1 ev t2 Heq).
Qed.

Lemma startServices_builds_on_earlier_answers_witness :
  let t := traceOf (run sim (startServices (contextWith "0xABC") "/data" (StoreAppRef 0))
                        twoAccounts) in
  wired (contextWith "0xABC") "/data" (StoreAppRef 0) (firstn 12 t)
        (NewEthermintApplication (BackendRef 2) (ClientRef 3)).
Proof.
  intros t.
  apply (@startServices_builds_on_earlier_answers Sim sim twoAccounts
           (contextWith "0xABC") "/data" (StoreAppRef 0)
           (firstn 12 t)
           (Ev (NewEthermintApplication (BackendRef 2) (ClientRef 3)) (Ok (EthAppRef 4)))
           (skipn 13 t)).
  reflexivity.
Defined.

(** ** The addresses handed to the resolution *)

Lemma Split_length s c : List.length (Split s c) = S (countByte c s).
Proof.
  induction s as [| a s IH]; simpl; [reflexivity |].
  destruct (Ascii.eqb a c); simpl; [rewrite IH; reflexivity |].
  destruct (Split s c) as [| piece pieces]; [discriminate IH | exact IH].
Qed.

Lemma TrimSpace_clean s :
  startsWithSpace (TrimSpace s) = false /\ endsWithSpace (TrimSpace s) = false.
Proof.
  destruct (TrimSpace_ends s) as (T & -> & H1 & H2).
  unfold startsWithSpace, endsWithSpace.
  rewrite list_ascii_of_string_of_list_ascii, H1, H2. split; reflexivity.
Qed.

(** X14.  No address [startNode] hands to the resolution is empty or
    starts or ends with white space, and there is at most one
    resolution more than the [--unlock] flag has commas. *)
Theorem startNode_resolves_clean_addresses :
  forall St (h : handler St) (s : St) (ctx : Context) (stack : Node),
    let r := run h (startNode ctx stack) s in
    Forall (fun a => a <> "" /\ startsWithSpace a = false /\ endsWithSpace a = false)
           (resolutions (traceOf r)) /\
    (List.length (resolutions (traceOf r))
     <= S (countByte "," (GlobalString ctx UnlockedAccountFlag_Name)))%nat.
Proof.
  intros St h s ctx stack. cbv zeta.
  destruct (startNode_resolutions h s ctx stack) as [(rest & Hw) _].
  split.
  - apply Forall_forall. intros a Hin.
    assert (Ha : In a (requested (Split (GlobalString ctx UnlockedAccountFlag_Name) ","))).
    { rewrite Hw. apply in_or_app. left. exact Hin. }
    unfold requested in Ha. apply filter_In in Ha. destruct Ha as [Hm Hne].
    apply in_map_iff in Hm. destruct Hm as (entry & <- & _).
    split; [| apply TrimSpace_clean].
    intros He. rewrite He in Hne. discriminate Hne.
  - set (unlocks := Split (GlobalString ctx UnlockedAccountFlag_Name) ",") in *.
    pose proof (Split_length (GlobalString ctx UnlockedAccountFlag_Name) ",") as Hl.
    fold unlocks in Hl. rewrite <- Hl.
    pose proof (filter_length_le (fun a => negb (a =? "")) (map TrimSpace unlocks)) as Hf.
    rewrite length_map in Hf. fold (requested unlocks) in Hf.
    rewrite Hw, length_app in Hf. lia.
Qed.

(** * Failures, order and completion of the stages *)

(** ** Verdicts on the paths of a program *)

Lemma reportCall_quiet e (r : resp e) u : reportCall e -> verdict u (Ev e r) = None.
Proof. destruct e; simpl; intros H; try contradiction; reflexivity. Qed.

Lemma reportCall_unstaged e : reportCall e -> stageOf e = None.
Proof. destruct e; simpl; intros H; try contradiction; reflexivity. Qed.

Lemma reports_unstaged t : Forall reportCall (calls t) -> stagesOf t = [].
Proof.
  induction t as [| [e r] t IH]; [reflexivity |].
  simpl. intros H. inversion H as [| ? ? He Ht]; subst.
  rewrite stagesOf_cons, (@reportCall_unstaged _ He). auto.
Qed.

Lemma endsBy_bind A B (p : prog A) (f : A -> prog B) :
  forall tail x, endsBy tail x p -> endsBy tail x (bind p f).
Proof.
  induction p as [a | y | e k IH]; simpl; intros tail x H.
  - contradiction.
  - exact H.
  - destruct tail as [| e' more]; [contradiction |].
    destruct H as (He & Hr & Hk). auto.
Qed.

Lemma endsBy_exec A (p : prog A) :
  forall tail x t o,
    endsBy tail x p -> exec p t o ->
    calls t = tail /\ Forall reportCall (calls t) /\ o = Halted x.
Proof.
  induction p as [a | y | e k IH]; simpl; intros tail x t o Hp Hx.
  - contradiction.
  - destruct Hp as [-> ->]. destruct Hx as [-> ->]. repeat split. constructor.
  - destruct tail as [| e' more]; [contradiction |].
    destruct Hp as (<- & Hr & Hk). destruct Hx as (r & t' & -> & Hx).
    destruct (IH r _ _ _ _ (Hk r) Hx) as (Hc & Hf & ->).
    simpl. rewrite Hc. repeat split. constructor; [exact Hr | rewrite <- Hc; exact Hf].
Qed.

Lemma judged_bind A B (post1 : A -> unlocking -> Prop) (post2 : B -> unlocking -> Prop)
    (p : prog A) (f : A -> prog B) :
  forall u,
    judged post1 u p ->
    (forall a u', post1 a u' -> judged post2 u' (f a)) ->
    judged post2 u (bind p f).
Proof.
  induction p as [a | y | e k IH]; cbn [judged bind]; intros u Hp Hf.
  - apply Hf. exact Hp.
  - contradiction.
  - intros r. specialize (Hp r).
    destruct (verdict u (Ev e r)) as [[tail x] |].
    + apply endsBy_bind. exact Hp.
    + apply IH; assumption.
Qed.

Lemma judged_post A (post post' : A -> unlocking -> Prop) (p : prog A) :
  (forall a u', post a u' -> post' a u') ->
  forall u, judged post u p -> judged post' u p.
Proof.
  intros Himp. induction p as [a | y | e k IH]; cbn [judged]; intros u Hp; auto.
  intros r. specialize (Hp r).
  destruct (verdict u (Ev e r)) as [[tail x] |]; auto.
Qed.

Lemma judged_forEach A (l : list A) (body : A -> prog unit) :
  (forall a u, judged (fun _ u' => u' = u) u (body a)) ->
  forall u, judged (fun _ u' => u' = u) u (forEach l body).
Proof.
  intros Hb. induction l as [| a l IH]; intros u; cbn [forEach judged]; [reflexivity |].
  apply judged_bind with (post1 := fun _ u' => u' = u); [apply Hb |].
  intros _ u' ->. apply IH.
Qed.

(** What [judged] says of the executions. *)
Lemma judged_exec A (post : A -> unlocking -> Prop) (p : prog A) :
  forall u t o,
    judged post u p -> exec p t o ->
    (forall t1 ev t2 tail x,
        t = t1 ++ ev :: t2 -> verdict (unlockingFrom u t1) ev = Some (tail, x) ->
        calls t2 = tail /\ Forall reportCall (calls t2) /\ o = Halted x) /\
    match o with
    | Returned a => post a (unlockingFrom u t)
    | Halted x =>
        exists t1 ev t2,
          t = t1 ++ ev :: t2 /\ verdict (unlockingFrom u t1) ev = Some (calls t2, x)
    end.
Proof.
  induction p as [a | y | e k IH]; cbn [judged exec]; intros u t o Hp Hx.
  - destruct Hx as [-> ->]. split; [| exact Hp].
    intros [| ? ?] ? ? ? ? Heq; discriminate.
  - contradiction.
  - destruct Hx as (r & t' & -> & Hx). specialize (Hp r).
    destruct (verdict u (Ev e r)) as [[tail x] |] eqn:Hver.
    + destruct (@endsBy_exec _ _ _ _ _ _ Hp Hx) as (Hc & Hf & ->).
      split.
      * intros t1 ev t2 tail' x' Heq Hv. destruct t1 as [| ev1 t1]; simpl in Heq.
        -- injection Heq as <- <-. cbn [unlockingFrom fold_left] in Hv. rewrite Hver in Hv.
           injection Hv as <- <-. auto.
        -- exfalso. injection Heq as _ ->.
           rewrite calls_app in Hf. apply Forall_app in Hf. destruct Hf as [_ Hf].
           simpl in Hf. inversion Hf as [| ? ? He _]; subst.
           destruct ev as [e0 r0]. simpl in He.
           rewrite (@reportCall_quiet e0 r0 _ He) in Hv. discriminate Hv.
      * exists [], (Ev e r), t'. split; [reflexivity |].
        cbn [unlockingFrom fold_left]. rewrite Hc. exact Hver.
    + destruct (IH r _ _ _ Hp Hx) as [Hstop Hend]. split.
      * intros t1 ev t2 tail x Heq Hv. destruct t1 as [| ev1 t1]; simpl in Heq.
        -- injection Heq as <- <-. cbn [unlockingFrom fold_left] in Hv.
           rewrite Hver in Hv. discriminate Hv.
        -- injection Heq as <- ->. cbn [unlockingFrom fold_left] in Hv.
           eapply Hstop; eauto.
      * destruct o as [a | x]; [exact Hend |].
        destruct Hend as (t1 & ev & t2 & -> & Hv).
        exists (Ev e r :: t1), ev, t2. split; [reflexivity | exact Hv].
Qed.

(** ** The verdicts of the code *)

Lemma judged_getPassPhrase prompt i passwords u :
  (0 <= i)%Z -> judged (fun _ u' => u' = u) u (getPassPhrase prompt false i passwords).
Proof.
  intros Hi. destruct passwords as [| p passwords].
  - unfold getPassPhrase. change (len (@nil string) >? 0)%Z with false. cbv iota.
    destruct (negb (prompt =? "")); cbn [bind call judged].
    + intros []. simpl. intros [pw | err]; simpl; auto.
    + intros [pw | err]; simpl; auto.
  - rewrite getPassPhrase_preloaded; [reflexivity | discriminate | exact Hi].
Qed.

(** The recovery from an ambiguous match: the search over the key files
    it offered, then the report. *)
Lemma judged_firstUnlocked A (post : A -> unlocking -> Prop) ks auth
    (f : option Account -> prog A) :
  f None = Halt (Fatalf "None of the listed files could be unlocked." []) ->
  (forall m u', uPending u' = false -> judged post u' (f (Some m))) ->
  forall Matches address refused pending,
    Matches <> [] ->
    judged post (mkUnlocking address refused (Some Matches) pending)
           (bind (firstUnlocked ks Matches auth) f).
Proof.
  intros Hnone Hsome. induction Matches as [| a rest IH]; intros address refused pending Hne;
    [congruence |].
  cbn [firstUnlocked bind call judged]. intros [err |].
  - destruct rest as [| b rest'].
    + simpl. rewrite Hnone. simpl. auto.
    + change (judged post (mkUnlocking address refused (Some (b :: rest')) pending)
                (bind (firstUnlocked ks (b :: rest') auth) f)).
      apply IH. discriminate.
  - change (judged post (mkUnlocking address refused (Some (a :: rest)) false)
              (f (Some a))).
    apply Hsome. reflexivity.
Qed.

Lemma judged_println args u : judged (fun _ u' => u' = u) u (call (Println args)).
Proof. cbn [call judged]. intros []. reflexivity. Qed.

Lemma judged_printf format args u : judged (fun _ u' => u' = u) u (call (Printf format args)).
Proof. cbn [call judged]. intros []. reflexivity. Qed.

Lemma judged_log lvl msg ctx u : judged (fun _ u' => u' = u) u (call (Log lvl msg ctx)).
Proof. cbn [call judged]. intros []. reflexivity. Qed.

Lemma judged_ambiguousAddrRecovery ks Addr Matches auth address refused pending :
  Matches <> [] ->
  judged (fun _ u' => uPending u' = false)
         (mkUnlocking address refused (Some Matches) pending)
         (ambiguousAddrRecovery ks Addr Matches auth).
Proof.
  intros Hne. unfold ambiguousAddrRecovery.
  set (u := mkUnlocking address refused (Some Matches) pending).
  apply judged_bind with (post1 := fun _ u' => u' = u); [apply judged_printf |].
  intros _ u' ->.
  apply judged_bind with (post1 := fun _ u' => u' = u).
  { apply judged_forEach. intros a u0. apply judged_println. }
  intros _ u' ->.
  apply judged_bind with (post1 := fun _ u' => u' = u); [apply judged_println |].
  intros _ u' ->. unfold u.
  apply judged_firstUnlocked; [reflexivity | | exact Hne].
  intros m u' Hu'.
  apply judged_bind with (post1 := fun _ u0 => u0 = u'); [apply judged_printf |].
  intros _ u0 ->.
  apply judged_bind with (post1 := fun _ u0 => u0 = u'); [apply judged_println |].
  intros _ u0 ->.
  apply judged_bind with (post1 := fun _ u0 => u0 = u').
  { apply judged_forEach. intros a u0.
    destruct (negb (Account_eqb a m)); [apply judged_println | reflexivity]. }
  intros _ u0 ->. exact Hu'.
Qed.

(** The retry loop, entered for the attempt [refused + 1]. *)
Lemma judged_unlockTrials ks account address i passwords :
  (0 <= i)%Z ->
  forall n refused pending err0,
    (refused + S n = 3)%nat ->
    judged (fun _ u' => uPending u' = false)
           (mkUnlocking address refused None pending)
           (unlockTrials ks account address i passwords (S n) err0).
Proof.
  intros Hi. induction n as [| n IH]; intros refused pending err0 Hn;
    rewrite unlockTrials_step;
    (apply judged_bind
       with (post1 := fun _ u' => u' = mkUnlocking address refused None pending);
     [apply judged_getPassPhrase; exact Hi |]);
    intros pw u' ->; unfold call; cbn [bind judged];
    intros [[| Addr Matches | msg] |].
  - (* the third refusal *)
    assert (refused = 2%nat) by lia. subst refused. simpl. auto.
  - destruct Matches as [| m ms].
    + unfold ambiguousAddrRecovery. simpl. auto 10.
    + change (judged (fun _ u' => uPending u' = false)
                (mkUnlocking address refused (Some (m :: ms)) pending)
                (call (Log Info "Unlocked account"
                         [AStr "address"; AAddr (AccAddress account)]) ;;
                 a <- ambiguousAddrRecovery ks Addr (m :: ms) pw ;; Ret (a, pw))).
      apply judged_bind
        with (post1 := fun _ u' => u' = mkUnlocking address refused (Some (m :: ms)) pending);
        [apply judged_log |].
      intros _ u' ->.
      apply judged_bind with (post1 := fun _ u' => uPending u' = false);
        [apply judged_ambiguousAddrRecovery; discriminate |].
      intros a u' Hu'. exact Hu'.
  - simpl. auto.
  - simpl. intros []. reflexivity.
  - (* a refusal before the third *)
    assert (Hlt : (refused <? 2)%nat = true) by (apply Nat.ltb_lt; lia).
    unfold verdict, advance. cbn [uOffered uRefused uAddress uPending]. rewrite Hlt.
    apply IH. lia.
  - destruct Matches as [| m ms].
    + unfold ambiguousAddrRecovery. simpl. auto 10.
    + change (judged (fun _ u' => uPending u' = false)
                (mkUnlocking address refused (Some (m :: ms)) pending)
                (call (Log Info "Unlocked account"
                         [AStr "address"; AAddr (AccAddress account)]) ;;
                 a <- ambiguousAddrRecovery ks Addr (m :: ms) pw ;; Ret (a, pw))).
      apply judged_bind
        with (post1 := fun _ u' => u' = mkUnlocking address refused (Some (m :: ms)) pending);
        [apply judged_log |].
      intros _ u' ->.
      apply judged_bind with (post1 := fun _ u' => uPending u' = false);
        [apply judged_ambiguousAddrRecovery; discriminate |].
      intros a u' Hu'. exact Hu'.
  - simpl. auto.
  - simpl. intros []. reflexivity.
Qed.

Lemma judged_unlockAccount ks address i passwords u :
  (0 <= i)%Z ->
  judged (fun _ u' => uPending u' = false) u (unlockAccount ks address i passwords).
Proof.
  intros Hi. unfold unlockAccount, call. cbn [bind judged].
  intros [account | err].
  - change (judged (fun _ u' => uPending u' = false) (mkUnlocking address 0 None true)
              (unlockTrials ks account address i passwords 3 None)).
    apply judged_unlockTrials; [exact Hi | reflexivity].
  - simpl. auto.
Qed.

Lemma judged_unlockRequested ks passwords unlocks :
  forall i u,
    (0 <= i)%Z -> uPending u = false ->
    judged (fun _ u' => uPending u' = false) u (unlockRequested ks passwords i unlocks).
Proof.
  induction unlocks as [| account unlocks IH]; intros i u Hi Hu; [exact Hu |].
  rewrite unlockRequested_cons.
  apply judged_bind with (post1 := fun _ u' => uPending u' = false).
  - destruct (negb (TrimSpace account =? "")); [| exact Hu].
    apply judged_bind with (post1 := fun _ u' => uPending u' = false);
      [apply judged_unlockAccount; exact Hi |].
    intros a u' Hu'. exact Hu'.
  - intros _ u' Hu'. apply IH; [lia | exact Hu'].
Qed.

Lemma judged_startNode ctx stack u :
  uPending u = false ->
  judged (fun _ u' => uPending u' = false) u (startNode ctx stack).
Proof.
  intros Hu. unfold startNode, StartNode. cbn [bind call judged].
  intros [e |]; [simpl; auto |].
  change (judged (fun _ u' => uPending u' = false) u
            (backends <- call (Backends stack) ;;
             match backends with
             | [] => Halt (Panic "index out of range")
             | ks :: _ =>
                 r <- call MakePasswordList ;;
                 match r with
                 | Err err =>
                     Halt (Fatalf "Failed to read password file: %v" [AErr (Some err)])
                 | Ok passwords =>
                     unlockRequested ks passwords 0
                       (Split (GlobalString ctx UnlockedAccountFlag_Name) ",") ;;
                     events <- call (MakeChan 16) ;;
                     call (Subscribe stack events) ;;
                     call (Go (WalletWatcher stack events))
                 end
             end)).
  cbn [bind call judged].
  intros [| ks bs]; [simpl; auto |].
  change (judged (fun _ u' => uPending u' = false) u
            (r <- call MakePasswordList ;;
             match r with
             | Err err =>
                 Halt (Fatalf "Failed to read password file: %v" [AErr (Some err)])
             | Ok passwords =>
                 unlockRequested ks passwords 0
                   (Split (GlobalString ctx UnlockedAccountFlag_Name) ",") ;;
                 events <- call (MakeChan 16) ;;
                 call (Subscribe stack events) ;;
                 call (Go (WalletWatcher stack events))
             end)).
  cbn [bind call judged].
  intros [passwords | err]; [| simpl; auto].
  change (judged (fun _ u' => uPending u' = false) u
            (unlockRequested ks passwords 0
               (Split (GlobalString ctx UnlockedAccountFlag_Name) ",") ;;
             events <- call (MakeChan 16) ;;
             call (Subscribe stack events) ;;
             call (Go (WalletWatcher stack events)))).
  apply judged_bind with (post1 := fun _ u' => uPending u' = false);
    [apply judged_unlockRequested; [lia | exact Hu] |].
  intros _ u' Hu'. simpl. intros events [] []. exact Hu'.
Qed.

Lemma judged_servicesAfterNode ctx rootDir storeApp emNode u :
  judged (fun res _ => snd res = None) u (servicesAfterNode ctx rootDir storeApp emNode).
Proof.
  unfold servicesAfterNode, startTendermint, printAndExit. cbv zeta.
  repeat first
    [ reflexivity
    | progress simpl
    | match goal with
      | |- _ /\ _ => split
      | |- True => exact I
      | |- forall _, _ => intro
      | |- context [match ?x with _ => _ end] => is_var x; destruct x
      end ].
Qed.

Lemma judged_startServices ctx rootDir storeApp :
  judged (fun res _ => snd res = None) idle (startServices ctx rootDir storeApp).
Proof.
  rewrite startServices_unfold.
  apply judged_bind with (post1 := fun _ u' => u' = idle).
  { unfold MakeFullNode_. cbn [bind call judged]. intros [n | err]; simpl; auto. }
  intros emNode u' ->.
  apply judged_bind with (post1 := fun _ u' => uPending u' = false);
    [apply judged_startNode; reflexivity |].
  intros _ u' _. apply judged_servicesAfterNode.
Qed.

(** ** The order of the calls *)

Lemma ordered_weaken A (p : prog A) :
  forall lo hi lo' hi',
    ordered lo hi p -> (lo' <= lo)%nat -> (hi <= hi')%nat -> ordered lo' hi' p.
Proof.
  induction p as [a | x | e k IH]; cbn [ordered]; auto.
  intros lo hi lo' hi' Hp Hlo Hhi.
  destruct (fineRank e) as [n |].
  - destruct Hp as [Hb Hk]. split; [lia |].
    intros r. eapply IH; [apply Hk | lia | lia].
  - intros r. eapply IH; eauto.
Qed.

Lemma ordered_bind A B (p : prog A) (f : A -> prog B) :
  forall lo mid hi,
    (lo <= mid)%nat -> (mid <= hi)%nat ->
    ordered lo mid p -> (forall a, ordered mid hi (f a)) ->
    ordered lo hi (bind p f).
Proof.
  induction p as [a | x | e k IH]; cbn [ordered bind]; intros lo mid hi Hlo Hhi Hp Hf.
  - eapply ordered_weaken; [apply Hf | lia | lia].
  - exact I.
  - destruct (fineRank e) as [n |].
    + destruct Hp as [Hb Hk]. split; [lia |].
      intros r. apply IH with (mid := mid); [lia | lia | apply Hk | exact Hf].
    + intros r. apply IH with (mid := mid); [lia | lia | apply Hp | exact Hf].
Qed.

Lemma ordered_forEach A (l : list A) (body : A -> prog unit) (n : nat) :
  (forall x, ordered n n (body x)) -> ordered n n (forEach l body).
Proof.
  intros Hb. induction l as [| x l IH]; cbn [forEach]; [exact I |].
  apply ordered_bind with (mid := n); auto.
Qed.

Lemma fineRanks_cons e r t :
  fineRanks (Ev e r :: t) =
  match fineRank e with Some n => n :: fineRanks t | None => fineRanks t end.
Proof. unfold fineRanks. simpl. destruct (fineRank e); reflexivity. Qed.

Lemma ordered_exec A (p : prog A) :
  forall lo hi t o,
    ordered lo hi p -> exec p t o -> nondecreasing (lo :: fineRanks t) = true.
Proof.
  induction p as [a | x | e k IH]; cbn [ordered exec]; intros lo hi t o Hp Hx.
  - destruct Hx as [-> ->]. reflexivity.
  - destruct Hx as [-> ->]. reflexivity.
  - destruct Hx as (r & t' & -> & Hx). rewrite fineRanks_cons.
    destruct (fineRank e) as [n |].
    + destruct Hp as [Hb Hk]. pose proof (IH r _ _ _ _ (Hk r) Hx) as Hnd.
      change (((lo <=? n)%nat && nondecreasing (n :: fineRanks t')) = true).
      rewrite Hnd. replace (lo <=? n)%nat with true by (symmetry; apply Nat.leb_le; lia).
      reflexivity.
    + exact (IH r _ _ _ _ (Hp r) Hx).
Qed.

Ltac ordered_tac :=
  repeat first
    [ exact I | lia | assumption
    | progress simpl
    | match goal with
      | |- _ /\ _ => split
      | |- forall _, _ => intro
      | |- context [match ?x with _ => _ end] => destruct x
      | |- context [if ?x then _ else _] => destruct x
      | |- ordered ?lo _ (bind _ _) => apply ordered_bind with (mid := lo)
      | |- ordered _ _ (forEach _ _) => apply ordered_forEach
      end ].

Lemma ordered_index A (l : list A) i lo hi : ordered lo hi (index l i).
Proof.
  unfold index. destruct ((0 <=? i)%Z && (i <? len l)%Z); [| exact I].
  destruct (nth_error l (Z.to_nat i)); exact I.
Qed.

Lemma ordered_getPassPhrase prompt confirmation i passwords :
  ordered 4 4 (getPassPhrase prompt confirmation i passwords).
Proof.
  unfold getPassPhrase.
  destruct (len passwords >? 0)%Z.
  - destruct (i <? len passwords)%Z; apply ordered_index.
  - ordered_tac.
Qed.

Lemma ordered_firstUnlocked ks auth Matches : ordered 4 4 (firstUnlocked ks Matches auth).
Proof. induction Matches as [| a l IH]; ordered_tac. Qed.

Lemma ordered_ambiguousAddrRecovery ks Addr Matches auth :
  ordered 4 4 (ambiguousAddrRecovery ks Addr Matches auth).
Proof.
  unfold ambiguousAddrRecovery.
  apply ordered_bind with (mid := 4%nat); [lia | lia | ordered_tac |]. intros _.
  apply ordered_bind with (mid := 4%nat); [lia | lia | ordered_tac |]. intros _.
  apply ordered_bind with (mid := 4%nat); [lia | lia | ordered_tac |]. intros _.
  apply ordered_bind with (mid := 4%nat);
    [lia | lia | apply ordered_firstUnlocked |]. intros [m |]; [| exact I].
  apply ordered_bind with (mid := 4%nat); [lia | lia | ordered_tac |]. intros _.
  apply ordered_bind with (mid := 4%nat); [lia | lia | ordered_tac |]. intros _.
  apply ordered_bind with (mid := 4%nat); [lia | lia | | intros; exact I].
  apply ordered_forEach. intros x. destruct (negb (Account_eqb x m)); ordered_tac.
Qed.

Lemma ordered_unlockTrials ks account address i passwords n err0 :
  ordered 4 4 (unlockTrials ks account address i passwords n err0).
Proof.
  revert err0. induction n as [| n IH]; intros err0; [exact I |].
  rewrite unlockTrials_step.
  apply ordered_bind with (mid := 4%nat); [lia | lia | apply ordered_getPassPhrase |].
  intros pw.
  apply ordered_bind with (mid := 4%nat); [lia | lia | ordered_tac |].
  intros [[| Addr Matches | msg] |].
  - apply IH.
  - apply ordered_bind with (mid := 4%nat); [lia | lia | ordered_tac |]. intros _.
    apply ordered_bind with (mid := 4%nat);
      [lia | lia | apply ordered_ambiguousAddrRecovery | intros; exact I].
  - exact I.
  - apply ordered_bind with (mid := 4%nat); [lia | lia | ordered_tac | intros; exact I].
Qed.

Lemma ordered_unlockRequested ks passwords unlocks :
  forall i, ordered 4 4 (unlockRequested ks passwords i unlocks).
Proof.
  induction unlocks as [| account unlocks IH]; intros i; [exact I |].
  rewrite unlockRequested_cons.
  apply ordered_bind with (mid := 4%nat); [lia | lia | | intros; apply IH].
  destruct (negb (TrimSpace account =? "")); [| exact I].
  apply ordered_bind with (mid := 4%nat); [lia | lia | | intros; exact I].
  unfold unlockAccount, call. cbn [bind ordered].
  change (fineRank (MakeAddress ks (TrimSpace account))) with (Some 4%nat). cbv iota.
  split; [lia |].
  intros [account0 | err]; [apply ordered_unlockTrials | exact I].
Qed.

Lemma ordered_startNode ctx stack : ordered 2 5 (startNode ctx stack).
Proof.
  unfold startNode, StartNode. simpl. split; [lia |].
  intros [e |]; simpl; [exact I |].
  split; [lia |]. intros [| ks bs]; [exact I |].
  simpl. split; [lia |].
  intros [passwords | e]; simpl; [| exact I].
  apply ordered_bind with (mid := 4%nat); [lia | lia | |].
  - eapply ordered_weaken; [apply ordered_unlockRequested | lia | lia].
  - intros _. ordered_tac.
Qed.

Lemma ordered_servicesAfterNode ctx rootDir storeApp emNode :
  ordered 6 14 (servicesAfterNode ctx rootDir storeApp emNode).
Proof.
  unfold servicesAfterNode, startTendermint, printAndExit. cbv zeta. ordered_tac.
Qed.

Lemma ordered_startServices ctx rootDir storeApp :
  ordered 2 14 (startServices ctx rootDir storeApp).
Proof.
  rewrite startServices_unfold.
  apply ordered_bind with (mid := 2%nat); [lia | lia | |].
  - unfold MakeFullNode_. ordered_tac.
  - intros emNode.
    apply ordered_bind with (mid := 5%nat); [lia | lia | apply ordered_startNode |].
    intros _. eapply ordered_weaken; [apply ordered_servicesAfterNode | lia | lia].
Qed.

(** ** What a stage finds done *)

Lemma entered_incl seen seen' st :
  (forall ev, In ev seen -> In ev seen') -> entered seen st -> entered seen' st.
Proof.
  intros Hi. destruct st; simpl; auto; intros H;
    repeat match goal with H0 : exists _, _ |- _ => destruct H0 end; eauto 8.
Qed.

Lemma prepared_incl seen seen' e :
  (forall ev, In ev seen -> In ev seen') -> prepared seen e -> prepared seen' e.
Proof.
  intros Hi. unfold prepared. destruct (stageOf e); [apply entered_incl; exact Hi | auto].
Qed.

Lemma preparedFrom_bind A B (p : prog A) (f : A -> prog B) :
  forall seen,
    preparedFrom seen p ->
    (forall a t, exec p t (Returned a) -> preparedFrom (rev t ++ seen) (f a)) ->
    preparedFrom seen (bind p f).
Proof.
  induction p as [a | y | e k IH]; cbn [preparedFrom bind]; intros seen Hp Hf.
  - apply (Hf a []). simpl. auto.
  - exact I.
  - destruct Hp as [He Hk]. split; [exact He |]. intros r.
    apply IH; [apply Hk |]. intros a t Hx.
    specialize (Hf a (Ev e r :: t)). simpl in Hf. rewrite <- app_assoc in Hf.
    apply Hf. exists r, t. auto.
Qed.

Lemma preparedFrom_exec A (p : prog A) :
  forall seen t o,
    preparedFrom seen p -> exec p t o ->
    forall t1 ev t2, t = t1 ++ ev :: t2 -> prepared (rev t1 ++ seen) (evCall ev).
Proof.
  induction p as [a | y | e k IH]; cbn [preparedFrom exec]; intros seen t o Hp Hx t1 ev t2 Heq.
  - destruct Hx as [-> _]. destruct t1; discriminate.
  - destruct Hx as [-> _]. destruct t1; discriminate.
  - destruct Hx as (r & t' & -> & Hx). destruct Hp as [He Hk].
    destruct t1 as [| ev1 t1]; simpl in Heq.
    + injection Heq as <- _. exact He.
    + injection Heq as <- ->. simpl. rewrite <- app_assoc.
      exact (IH r _ _ _ (Hk r) Hx t1 ev t2 eq_refl).
Qed.

(** A program whose calls all belong to the unlock stage, once the
    execution node is started. *)
Lemma preparedFrom_loop A (p : prog A) :
  allCalls loopCall p ->
  forall seen,
    (exists stack, In (Ev (NodeStart stack) None) seen) -> preparedFrom seen p.
Proof.
  induction p as [a | y | e k IH]; cbn [allCalls preparedFrom]; auto.
  intros [He Hk] seen (stack & Hin). split.
  - destruct e; simpl in He; try contradiction; simpl; try exact I; exists stack; exact Hin.
  - intros r. apply IH; [apply Hk |]. exists stack. right. exact Hin.
Qed.

Lemma preparedFrom_startNode ctx stack seen : preparedFrom seen (startNode ctx stack).
Proof.
  unfold startNode, StartNode. cbn [bind call preparedFrom].
  split; [exact I |]. intros [e |]; [exact I |].
  change (preparedFrom (Ev (NodeStart stack) None :: seen)
            (backends <- call (Backends stack) ;;
             match backends with
             | [] => Halt (Panic "index out of range")
             | ks :: _ =>
                 r <- call MakePasswordList ;;
                 match r with
                 | Err err =>
                     Halt (Fatalf "Failed to read password file: %v" [AErr (Some err)])
                 | Ok passwords =>
                     unlockRequested ks passwords 0
                       (Split (GlobalString ctx UnlockedAccountFlag_Name) ",") ;;
                     events <- call (MakeChan 16) ;;
                     call (Subscribe stack events) ;;
                     call (Go (WalletWatcher stack events))
                 end
             end)).
  cbn [bind call preparedFrom].
  split; [exists stack; left; reflexivity |]. intros [| ks bs]; [exact I |].
  change (preparedFrom (Ev (Backends stack) (ks :: bs) :: Ev (NodeStart stack) None :: seen)
            (r <- call MakePasswordList ;;
             match r with
             | Err err =>
                 Halt (Fatalf "Failed to read password file: %v" [AErr (Some err)])
             | Ok passwords =>
                 unlockRequested ks passwords 0
                   (Split (GlobalString ctx UnlockedAccountFlag_Name) ",") ;;
                 events <- call (MakeChan 16) ;;
                 call (Subscribe stack events) ;;
                 call (Go (WalletWatcher stack events))
             end)).
  cbn [bind call preparedFrom].
  split; [exists stack; simpl; auto |]. intros [passwords | err]; [| exact I].
  change (preparedFrom (Ev MakePasswordList (Ok passwords)
                        :: Ev (Backends stack) (ks :: bs)
                        :: Ev (NodeStart stack) None :: seen)
            (unlockRequested ks passwords 0
               (Split (GlobalString ctx UnlockedAccountFlag_Name) ",") ;;
             events <- call (MakeChan 16) ;;
             call (Subscribe stack events) ;;
             call (Go (WalletWatcher stack events)))).
  apply preparedFrom_bind.
  - apply preparedFrom_loop; [apply unlockRequested_loopCall |].
    exists stack. simpl. auto.
  - intros _ t _.
    assert (Hin : In (Ev (NodeStart stack) None)
                     (rev t ++ Ev MakePasswordList (Ok passwords)
                      :: Ev (Backends stack) (ks :: bs)
                      :: Ev (NodeStart stack) None :: seen)).
    { apply in_or_app. right. simpl. auto. }
    simpl. repeat split; try (exists stack; simpl; auto); intros; exact I.
Qed.

Lemma preparedFrom_servicesAfterNode ctx rootDir storeApp emNode seen :
  (exists g, In (Ev (Go g) tt) seen) ->
  preparedFrom seen (servicesAfterNode ctx rootDir storeApp emNode).
Proof.
  intros (g & Hin). unfold servicesAfterNode, startTendermint, printAndExit. cbv zeta.
  repeat first
    [ exact I
    | progress cbn [bind call preparedFrom prepared stageOf entered snd fst]
    | match goal with
      | |- _ /\ _ => split
      | |- forall _, _ => intro
      | |- preparedFrom _ (match ?x with _ => _ end) => destruct x
      | |- preparedFrom _ (bind (match ?x with _ => _ end) _) => destruct x
      | |- exists g0, In (Ev (Go g0) tt) _ => exists g; simpl; auto 30
      | |- In _ _ => simpl; eauto 30
      | |- exists _, _ => eexists
      end ].
Qed.

Lemma preparedFrom_startServices ctx rootDir storeApp :
  preparedFrom [] (startServices ctx rootDir storeApp).
Proof.
  rewrite startServices_unfold.
  apply preparedFrom_bind.
  - unfold MakeFullNode_. simpl. split; [exact I |]. intros [n | err]; exact I.
  - intros emNode t _.
    apply preparedFrom_bind; [apply preparedFrom_startNode |].
    intros [] tn Hn. apply preparedFrom_servicesAfterNode.
    apply startNode_exec in Hn.
    destruct Hn as [(_ & _ & Hd) | (ks & bs & pws & t1 & o1 & t2 & -> & _ & Hend)];
      [discriminate Hd |].
    destruct Hend as [(x & _ & Hd & _) | (_ & _ & events & ->)]; [discriminate Hd |].
    exists (WalletWatcher emNode events).
    apply in_or_app. left. apply -> in_rev.
    right. right. right. apply in_or_app. right. simpl. auto.
Qed.

(** ** The unlock stage, seen from the stages after it *)

Lemma settled_quiet l :
  Forall settled (calls l) ->
  (forall u, unlockingFrom u l = u) /\ resolutions l = [] /\ spawned l = [].
Proof.
  induction l as [| [e r] l IH]; [repeat split |].
  simpl. intros H. inversion H as [| ? ? He Hl]; subst.
  destruct (IH Hl) as (Hu & Hr & Hs).
  unfold resolutions, spawned in *. simpl.
  destruct e; simpl in He; try contradiction; simpl; repeat split; auto.
Qed.

Lemma allCalls_settled ctx rootDir storeApp emNode :
  allCalls settled (servicesAfterNode ctx rootDir storeApp emNode).
Proof.
  unfold servicesAfterNode, startTendermint, printAndExit. cbv zeta.
  repeat first
    [ exact I
    | progress simpl
    | match goal with
      | |- _ /\ _ => split
      | |- forall _, _ => intro
      | |- context [match ?x with _ => _ end] => is_var x; destruct x
      end ].
Qed.

Lemma spawned_app t1 t2 : spawned (t1 ++ t2) = spawned t1 ++ spawned t2.
Proof. unfold spawned. rewrite calls_app. apply flat_map_app. Qed.

Lemma unlockingFrom_app u t1 t2 :
  unlockingFrom u (t1 ++ t2) = unlockingFrom (unlockingFrom u t1) t2.
Proof. apply fold_left_app. Qed.

(** A run of [startNode] that returns has resolved every requested
    entry, left no account to unlock and started one watcher. *)
Lemma startNode_completed ctx stack tn u :
  uPending u = false ->
  exec (startNode ctx stack) tn (Returned tt) ->
  resolutions tn = requested (Split (GlobalString ctx UnlockedAccountFlag_Name) ",") /\
  uPending (unlockingFrom u tn) = false /\
  (exists events, spawned tn = [WalletWatcher stack events]) /\
  In (Ev (NodeStart stack) None) tn.
Proof.
  intros Hu Hn.
  pose proof (@judged_exec _ _ _ _ _ _ (@judged_startNode ctx stack u Hu) Hn) as [_ Hpost].
  split; [| split; [exact Hpost | split]].
  3: { apply startNode_exec in Hn.
       destruct Hn as [(_ & _ & Hd) | (ks & bs & pws & t1 & o1 & t2 & -> & _ & _)];
         [discriminate Hd | left; reflexivity]. }
  - apply startNode_exec in Hn.
    destruct Hn as [(_ & _ & Hd) | (ks & bs & pws & t1 & o1 & t2 & -> & H1 & Hend)];
      [discriminate Hd |].
    destruct Hend as [(x & _ & Hd & _) | (-> & _ & events & ->)]; [discriminate Hd |].
    destruct (@unlockRequested_resolutions _ _ _ _ _ _ H1) as (rest & Hreq & Hret).
    rewrite (Hret eq_refl), app_nil_r in Hreq. rewrite Hreq.
    change (resolutions (t1 ++ [Ev (MakeChan 16) events; Ev (Subscribe stack events) tt;
                                Ev (Go (WalletWatcher stack events)) tt])
            = resolutions t1).
    rewrite resolutions_app. apply app_nil_r.
  - apply startNode_exec in Hn.
    destruct Hn as [(_ & _ & Hd) | (ks & bs & pws & t1 & o1 & t2 & -> & H1 & Hend)];
      [discriminate Hd |].
    destruct Hend as [(x & _ & Hd & _) | (-> & _ & events & ->)]; [discriminate Hd |].
    exists events.
    change (spawned (t1 ++ [Ev (MakeChan 16) events; Ev (Subscribe stack events) tt;
                            Ev (Go (WalletWatcher stack events)) tt])
            = [WalletWatcher stack events]).
    rewrite spawned_app.
    pose proof (@allCalls_exec _ _ _ _ _ (unlockRequested_loopCall ks pws _ _) H1) as Hl.
    apply loopCall_no_setup in Hl.
    assert (Hs : spawned t1 = []).
    { unfold spawned. clear - Hl. induction (calls t1) as [| e es IH]; [reflexivity |].
      simpl in Hl. destruct e; simpl in *; try discriminate; auto. }
    rewrite Hs. reflexivity.
Qed.

Lemma startServices_unlock_completed ctx rootDir storeApp t o :
  exec (startServices ctx rootDir storeApp) t o ->
  forall t1 ev t2 st,
    t = t1 ++ ev :: t2 -> stageOf (evCall ev) = Some st -> (3 <= codeRank st)%nat ->
    resolutions t1 = requested (Split (GlobalString ctx UnlockedAccountFlag_Name) ",") /\
    uPending (unlockingAfter t1) = false /\
    exists stack events,
      spawned t1 = [WalletWatcher stack events] /\ In (Ev (NodeStart stack) None) t1.
Proof.
  intros Hx t1 ev t2 st Heq Hst Hrank.
  assert (Hearly : forall emNode tn o', exec (startNode ctx emNode) tn o' ->
                     ~ In ev (Ev MakeFullNode (Ok emNode) :: tn)).
  { intros emNode tn o' Hn [<- | Hin]; [simpl in Hst; injection Hst as <-; simpl in Hrank; lia |].
    destruct (@staged_exec _ _ _ _ _ _ (staged_startNode ctx emNode) Hn) as (_ & Hhi & _).
    pose proof (@in_stagesOf _ _ _ Hin Hst) as Hin'.
    rewrite Forall_forall in Hhi. specialize (Hhi _ Hin'). simpl in Hhi. lia. }
  apply startServices_exec in Hx.
  destruct Hx as [(err & Ht & _) | [(emNode & tn & x & Hn & Ht & _)
                                   | (emNode & tn & t3 & Hn & H3 & Ht)]].
  - exfalso. rewrite Ht in Heq. destruct t1 as [| ? [| ? ?]]; try discriminate.
    injection Heq as <-. simpl in Hst. injection Hst as <-. simpl in Hrank. lia.
  - exfalso. apply (Hearly _ _ _ Hn). rewrite <- Ht, Heq. apply in_elt.
  - rewrite Ht in Heq.
    change (Ev MakeFullNode (Ok emNode) :: tn ++ t3)
      with ((Ev MakeFullNode (Ok emNode) :: tn) ++ t3) in Heq.
    symmetry in Heq. apply app_eq_app in Heq.
    destruct Heq as (l & [[Ha Hb] | [Ha Hb]]).
    + subst t1.
      pose proof (@allCalls_exec _ _ _ _ _ (allCalls_settled ctx rootDir storeApp emNode) H3)
        as Hq.
      rewrite Hb, calls_app in Hq. apply Forall_app in Hq. destruct Hq as [Hq _].
      destruct (settled_quiet _ Hq) as (Hu & Hr & Hs).
      destruct (@startNode_completed ctx emNode tn idle eq_refl Hn)
        as (Hr' & Hp' & (events & Hs') & Hin').
      split; [| split].
      * change (resolutions (tn ++ l) = requested
                  (Split (GlobalString ctx UnlockedAccountFlag_Name) ",")).
        rewrite resolutions_app, Hr, app_nil_r. exact Hr'.
      * unfold unlockingAfter.
        change (uPending (unlockingFrom idle (tn ++ l)) = false).
        rewrite unlockingFrom_app, Hu. exact Hp'.
      * exists emNode, events. split.
        -- change (spawned (tn ++ l) = [WalletWatcher emNode events]).
           rewrite spawned_app, Hs, app_nil_r. exact Hs'.
        -- right. apply in_or_app. left. exact Hin'.
    + destruct l as [| ev' l].
      * rewrite app_nil_r in Ha. simpl in Hb. subst t1.
        destruct (@startNode_completed ctx emNode tn idle eq_refl Hn)
          as (Hr & Hp & (events & Hs) & Hin).
        split; [exact Hr | split; [exact Hp |]]. exists emNode, events.
        split; [exact Hs | right; exact Hin].
      * exfalso. simpl in Hb. injection Hb as <- _.
        apply (Hearly _ _ _ Hn). rewrite Ha. apply in_elt.
Qed.

(** ** The passphrases tried for each entry *)

Lemma sessions_quiet es :
  Forall notResolution es ->
  forall rest,
    attemptsOf (es ++ rest) = attemptsOf es ++ attemptsOf rest /\
    unlockSessions (es ++ rest) = unlockSessions rest.
Proof.
  induction 1 as [| e es He _ IH]; intros rest; [split; reflexivity |].
  destruct (IH rest) as [Ha Hs].
  destruct e; simpl in *; try contradiction; auto.
  rewrite Ha. auto.
Qed.

Lemma sessions_tail es2 :
  attemptsOf es2 = [] -> unlockSessions es2 = [] ->
  forall es1,
    attemptsOf (es1 ++ es2) = attemptsOf es1 /\
    unlockSessions (es1 ++ es2) = unlockSessions es1.
Proof.
  intros Ha0 Hs0.
  induction es1 as [| e es1 [IHa IHs]]; [simpl; auto |].
  destruct e; simpl; try rewrite IHa; try rewrite IHs; auto.
Qed.

Lemma attemptsOf_trials pw es :
  Forall (trialCall pw) es -> Forall (fun p => p = pw) (attemptsOf es).
Proof.
  induction 1 as [| e es He _ IH]; [constructor |].
  destruct e; simpl in *; auto; try contradiction.
Qed.

Lemma trialCall_notResolution pw es : Forall (trialCall pw) es -> Forall notResolution es.
Proof.
  apply Forall_impl. intros e; destruct e; simpl; auto.
Qed.

(** The trace of the loop is empty or starts with a resolution. *)
Lemma unlockRequested_head ks passwords unlocks :
  forall i t o,
    exec (unlockRequested ks passwords i unlocks) t o -> attemptsOf (calls t) = [].
Proof.
  induction unlocks as [| account unlocks IH]; intros i t o Hx.
  - simpl in Hx. destruct Hx as [-> _]. reflexivity.
  - rewrite unlockRequested_cons in Hx. apply exec_bind in Hx.
    assert (Hfirst : forall t1 o1,
               exec (if negb (TrimSpace account =? "")
                     then unlockAccount ks (TrimSpace account) i passwords ;; Ret tt
                     else Ret tt) t1 o1 ->
               t1 = [] \/ exists r t', t1 = Ev (MakeAddress ks (TrimSpace account)) r :: t').
    { intros t1 o1 H1. destruct (negb (TrimSpace account =? "")).
      - apply exec_bind in H1.
        destruct H1 as [(x & H1 & _) | (a & ta & tb & H1 & _ & ->)];
          apply unlockAccount_exec in H1; destruct H1 as (r & t' & -> & _);
          right; simpl; eauto.
      - simpl in H1. destruct H1 as [-> _]. left. reflexivity. }
    destruct Hx as [(x & Hx & _) | ([] & t1 & t2 & H1 & H2 & ->)].
    + destruct (Hfirst _ _ Hx) as [-> | (r & t' & ->)]; reflexivity.
    + destruct (Hfirst _ _ H1) as [-> | (r & t' & ->)]; [| reflexivity].
      simpl. eapply IH; eauto.
Qed.

Lemma requestedAt_positions unlocks :
  forall i,
    Forall (fun req => exists entry,
                nth_error unlocks (fst req - i) = Some entry /\ (i <= fst req)%nat /\
                snd req = TrimSpace entry)
           (requestedAt i unlocks).
Proof.
  induction unlocks as [| account unlocks IH]; intros i; [constructor |].
  simpl. apply Forall_app. split.
  - destruct (negb (TrimSpace account =? "")); [| constructor].
    constructor; [| constructor]. exists account. simpl.
    rewrite Nat.sub_diag. auto.
  - eapply Forall_impl; [| apply (IH (S i))].
    intros req (entry & Hn & Hi & Hs). exists entry.
    replace (fst req - i)%nat with (S (fst req - S i)) by lia. simpl. auto with arith.
Qed.

Lemma requestedAt_requested unlocks :
  forall i, map snd (requestedAt i unlocks) = requested unlocks.
Proof.
  induction unlocks as [| account unlocks IH]; intros i; [reflexivity |].
  simpl. rewrite requested_cons, map_app, IH.
  destruct (negb (TrimSpace account =? "")); reflexivity.
Qed.

(** With a password list, the resolutions of the loop are those of the
    non-blank entries, in order, and every passphrase tried for an
    entry is the one of the entry's own position. *)
Lemma unlockRequested_sessions ks passwords unlocks :
  passwords <> [] ->
  forall i0 t o,
    exec (unlockRequested ks passwords (Z.of_nat i0) unlocks) t o ->
    exists served rest,
      requestedAt i0 unlocks = served ++ rest /\
      Forall2 (servedWith passwords) served (unlockSessions (calls t)) /\
      (o = Returned tt -> rest = []).
Proof.
  intros Hne. induction unlocks as [| account unlocks IH]; intros i0 t o Hx.
  - simpl in Hx. destruct Hx as [-> ->]. exists [], []. repeat split. constructor.
  - rewrite unlockRequested_cons in Hx.
    replace (Z.of_nat i0 + 1)%Z with (Z.of_nat (S i0)) in Hx by lia.
    assert (Hseg : forall t1 o1,
               exec (unlockAccount ks (TrimSpace account) (Z.of_nat i0) passwords) t1 o1 ->
               exists r t', t1 = Ev (MakeAddress ks (TrimSpace account)) r :: t' /\
                            Forall notResolution (calls t') /\
                            Forall (fun p => p = passwordFor passwords i0)
                                   (attemptsOf (calls t'))).
    { intros t1 o1 H1. apply unlockAccount_exec in H1.
      destruct H1 as (r & t' & -> & Hno & Htr).
      specialize (Htr Hne (Nat2Z.is_nonneg i0)). rewrite Nat2Z.id in Htr.
      exists r, t'. split; [reflexivity | split; [exact Hno |]].
      apply attemptsOf_trials. exact Htr. }
    simpl requestedAt.
    apply exec_bind in Hx.
    destruct Hx as [(x & Hx & ->) | ([] & t1 & t2 & H1 & H2 & ->)].
    + destruct (negb (TrimSpace account =? "")); [| simpl in Hx; destruct Hx; discriminate].
      apply exec_bind in Hx.
      destruct Hx as [(x' & Hx & _) | (a & t1 & t2 & _ & H2 & _)];
        [| simpl in H2; destruct H2; discriminate].
      destruct (Hseg _ _ Hx) as (r & t' & -> & Hno & Hpw).
      exists [(i0, TrimSpace account)], (requestedAt (S i0) unlocks).
      split; [reflexivity | split; [| discriminate]].
      simpl.
      destruct (sessions_quiet Hno []) as [_ Hs]. rewrite app_nil_r in Hs. rewrite Hs.
      constructor; [| constructor]. split; [reflexivity | exact Hpw].
    + destruct (IH (S i0) _ _ H2) as (served & rest & Hreq & Hall & Hret).
      pose proof (@unlockRequested_head _ _ _ _ _ _ H2) as Hhead.
      destruct (negb (TrimSpace account =? "")).
      * apply exec_bind in H1.
        destruct H1 as [(x' & _ & Hd) | (a & t1' & t2' & H1 & H2' & ->)];
          [discriminate |].
        simpl in H2'. destruct H2' as [-> _]. rewrite app_nil_r.
        destruct (Hseg _ _ H1) as (r & t' & -> & Hno & Hpw).
        exists ((i0, TrimSpace account) :: served), rest.
        split; [simpl; rewrite Hreq; reflexivity | split; [| exact Hret]].
        simpl. rewrite calls_app.
        destruct (sessions_quiet Hno (calls t2)) as [Ha Hs]. rewrite Ha, Hs, Hhead, app_nil_r.
        constructor; [split; [reflexivity | exact Hpw] | exact Hall].
      * simpl in H1. destruct H1 as [-> _].
        exists served, rest. simpl. auto.
Qed.

(** The same, of a run of [startNode]. *)
Lemma startNode_sessions St (h : handler St) (s : St) ctx stack passwords :
  let r := run h (startNode ctx stack) s in
  In passwords (passwordLists (traceOf r)) -> passwords <> [] ->
  exists served rest,
    requestedAt 0 (Split (GlobalString ctx UnlockedAccountFlag_Name) ",") = served ++ rest /\
    Forall2 (servedWith passwords) served (unlockSessions (calls (traceOf r))) /\
    (outcomeOf r = Returned tt -> rest = []).
Proof.
  cbv zeta. pose proof (run_exec h (startNode ctx stack) s) as Hx.
  generalize dependent (outcomeOf (run h (startNode ctx stack) s)).
  generalize (traceOf (run h (startNode ctx stack) s)).
  intros t o Hx. apply startNode_exec in Hx.
  destruct Hx as [(He & Hl & Hd) | (ks & bs & pws & t1 & o1 & t2 & -> & H1 & Hend)].
  - rewrite Hl. intros [].
  - intros Hin Hne.
    assert (Hl1 : passwordLists t1 = []).
    { apply loopCall_no_lists. eapply allCalls_exec; [| exact H1].
      apply unlockRequested_loopCall. }
    assert (Ht2 : passwordLists t2 = [] /\ attemptsOf (calls t2) = [] /\
                  unlockSessions (calls t2) = []).
    { destruct Hend as [(x & _ & _ & ->) | (_ & _ & ev & ->)]; repeat split. }
    destruct Ht2 as (Hl2 & Ha2 & Hs2).
    change (In passwords (pws :: passwordLists (t1 ++ t2))) in Hin.
    unfold passwordLists in Hin, Hl1, Hl2.
    rewrite flat_map_app, Hl1, Hl2 in Hin. simpl in Hin.
    destruct Hin as [<- | []].
    destruct (@unlockRequested_sessions ks _ _ Hne 0%nat _ _ H1)
      as (served & rest & Hreq & Hall & Hret).
    exists served, rest. split; [exact Hreq | split].
    + change (Forall2 (servedWith pws) served (unlockSessions (calls (t1 ++ t2)))).
      rewrite calls_app. destruct (sessions_tail _ Ha2 Hs2 (calls t1)) as [_ ->]. exact Hall.
    + intros Ho. apply Hret.
      destruct Hend as [(x & _ & Hd & _) | (-> & _ & _)]; [| reflexivity].
      rewrite Hd in Ho. discriminate Ho.
Qed.

(** ** The error policy of the orchestrator *)

Lemma calls_nil t : calls t = [] -> t = [].
Proof. destruct t; [reflexivity | discriminate]. Qed.

Lemma calls_println line t : calls t = [Println line] -> t = [Ev (Println line) tt].
Proof.
  destruct t as [| [e r] [| ? ?]]; simpl; intros H; try discriminate.
  injection H as ->. destruct r. reflexivity.
Qed.

(** The verdict on a failed step of the consensus stage. *)
Lemma consensus_verdict ev :
  failed ev = true -> stageOf (evCall ev) = Some StartConsensus ->
  exists err, forall u, verdict u ev = Some ([Println [AErr (Some err)]], OsExit 1).
Proof.
  destruct ev as [e r]. unfold failed. simpl evCall. simpl evAnswer.
  destruct e; simpl; intros Hf Hs; try discriminate.
  - destruct r as [a | err]; [discriminate | exists err; intros u; reflexivity].
  - destruct r as [a | err]; [discriminate | exists err; intros u; reflexivity].
  - destruct r as [a | err]; [discriminate | exists err; intros u; reflexivity].
  - destruct r as [err |]; [exists err; intros u; reflexivity | discriminate].
Qed.

(** C1, as the code has it.  [startServices] has one error policy.
    Every failure ends the process with its diagnostic and nothing
    else: the failure of a step of any stage, the refusal that exhausts
    the unlocking of an account included, is followed by exactly the
    calls and the end that [verdict] lists for it, a fatal message
    that carries the error or the print of the error and
    [os.Exit(1)]; and the process ends for no other reason.  A failed
    step of the consensus stage is followed by the print of its error
    alone and the exit with status 1, at a point where the execution
    node and the application server were started; [startTendermint]
    itself ends no process, it returns the error, and no node with it.
    [startServices] never returns an error. *)
Theorem startServices_exits_on_every_failure :
  forall St (h : handler St) (s : St) (ctx : Context) (rootDir : string)
         (storeApp : StoreApp),
    let r := run h (startServices ctx rootDir storeApp) s in
    (forall t1 ev t2 tail x,
        traceOf r = t1 ++ ev :: t2 -> verdict (unlockingAfter t1) ev = Some (tail, x) ->
        calls t2 = tail /\ outcomeOf r = Halted x) /\
    (forall x, outcomeOf r = Halted x ->
       exists t1 ev t2,
         traceOf r = t1 ++ ev :: t2 /\ verdict (unlockingAfter t1) ev = Some (calls t2, x)) /\
    (forall ev, In ev (traceOf r) -> failed ev = true -> exited (outcomeOf r) = true) /\
    (forall t1 ev t2,
        traceOf r = t1 ++ ev :: t2 -> failed ev = true ->
        stageOf (evCall ev) = Some StartConsensus ->
        (exists err,
            verdict (unlockingAfter t1) ev = Some ([Println [AErr (Some err)]], OsExit 1) /\
            t2 = [Ev (Println [AErr (Some err)]) tt]) /\
        outcomeOf r = Halted (OsExit 1) /\
        exists stack srv,
          In (Ev (NodeStart stack) None) t1 /\ In (Ev (SrvStart srv) None) t1) /\
    (forall res, outcomeOf r = Returned res -> snd res = None) /\
    (forall basecoinApp s',
       let q := run h (startTendermint basecoinApp) s' in
       exists res,
         outcomeOf q = Returned res /\
         isSome (snd res) = existsb failed (traceOf q) /\
         isSome (fst res) = negb (isSome (snd res))).
Proof.
  intros St h s ctx rootDir storeApp. cbv zeta.
  pose proof (run_exec h (startServices ctx rootDir storeApp) s) as Hx.
  destruct (@judged_exec _ _ _ _ _ _ (judged_startServices ctx rootDir storeApp) Hx)
    as [Hstop Hend].
  assert (Hfail : forall t1 ev t2 tail x,
             traceOf (run h (startServices ctx rootDir storeApp) s) = t1 ++ ev :: t2 ->
             verdict (unlockingAfter t1) ev = Some (tail, x) ->
             calls t2 = tail /\
             outcomeOf (run h (startServices ctx rootDir storeApp) s) = Halted x).
  { intros t1 ev t2 tail x Heq Hv.
    destruct (Hstop t1 ev t2 tail x Heq Hv) as (Hc & _ & Ho). auto. }
  split; [exact Hfail |]. split; [| split; [| split; [| split]]].
  - intros x Ho. rewrite Ho in Hend. exact Hend.
  - intros ev Hin Hf. apply in_split in Hin. destruct Hin as (t1 & t2 & Heq).
    destruct (@staged_exec _ _ _ _ _ _ (staged_startServices ctx rootDir storeApp) Hx)
      as (_ & _ & Hs).
    exact (proj2 (Hs t1 ev t2 Heq Hf)).
  - intros t1 ev t2 Heq Hf Hs.
    destruct (consensus_verdict ev Hf Hs) as (err & Hv).
    destruct (Hfail t1 ev t2 _ _ Heq (Hv _)) as [Hc Ho].
    split; [| split; [exact Ho |]].
    + exists err. split; [apply Hv | apply calls_println; exact Hc].
    + destruct (@startServices_unlock_completed _ _ _ _ _ Hx t1 ev t2 StartConsensus Heq Hs)
        as (_ & _ & stack & events & _ & Hnode); [simpl; lia |].
      pose proof (@preparedFrom_exec _ _ _ _ _
                    (preparedFrom_startServices ctx rootDir storeApp) Hx t1 ev t2 Heq)
        as Hprep.
      unfold prepared in Hprep. rewrite Hs in Hprep.
      apply (@entered_incl _ t1) in Hprep;
        [| intros ev' Hin; rewrite app_nil_r in Hin; apply in_rev; exact Hin].
      destruct Hprep as (srv & Hsrv). exists stack, srv. auto.
  - intros res Ho. rewrite Ho in Hend. exact Hend.
  - intros basecoinApp s'.
    apply (@startTendermint_exec _ _ _ (run_exec h (startTendermint basecoinApp) s')).
Qed.

Lemma startServices_exits_on_every_failure_witness :
  outcomeOf (run sim (startServices (contextWith "") "/data" (StoreAppRef 0))
               (withFaults [FNewNode] calm)) = Halted (OsExit 1) /\
  outcomeOf (run refusing (startServices (contextWith "0xABC") "/data" (StoreAppRef 0))
               twoAccounts)
  = Halted (Fatalf "Failed to unlock account %s (%v)"
              [AStr "0xABC"; AErr (Some ErrDecrypt)]).
Proof.
  split.
  - refine (proj1 (proj2 (proj1 (proj2 (proj2 (proj2
              (startServices_exits_on_every_failure sim (withFaults [FNewNode] calm)
                 (contextWith "") "/data" (StoreAppRef 0)))))
              (firstn 17 (traceOf (run sim (startServices (contextWith "") "/data"
                                              (StoreAppRef 0))
                                     (withFaults [FNewNode] calm))))
              (Ev (NewNode (config calm) (PrivValidatorRef 6)
                     (NewLocalClientCreator (AppRef 0)))
                  (Err (OtherError "no genesis")))
              [Ev (Println [AErr (Some (OtherError "no genesis"))]) tt]
              _ eq_refl eq_refl))).
    vm_compute. reflexivity.
  - refine (proj2 (proj1 (startServices_exits_on_every_failure refusing twoAccounts
                            (contextWith "0xABC") "/data" (StoreAppRef 0))
                     (firstn 7 (traceOf (run refusing
                                           (startServices (contextWith "0xABC") "/data"
                                              (StoreAppRef 0)) twoAccounts)))
                     (Ev (Unlock (KeyStoreRef 0) (mkAccount 1%N (mkURL "" "")) "p1")
                         (Some ErrDecrypt))
                     [] [] _ _ _)).
    + vm_compute. reflexivity.
    + vm_compute. reflexivity.
Defined.

(** ** The order of the stages *)

(** C2, as the code has it.  The calls of a run follow the order of the
    stages in the code: execution node, unlock and watcher, backend,
    client, bridge, application server, consensus; within the second
    stage every call of the unlocking comes before the three calls that
    set the watcher up.  A call of a stage finds the last step of the
    stage before answered without error, and a call of the backend
    stage or of a later one finds the unlock stage completed: every
    requested address resolved, no account left to unlock, one watcher
    started.  After a failure, the refusal that exhausts the unlocking
    of an account included, no call of any stage is made and the
    process is gone; a run that returns went through every stage and
    met no failure. *)
Theorem startServices_stages_in_code_order :
  forall St (h : handler St) (s : St) (ctx : Context) (rootDir : string)
         (storeApp : StoreApp),
    let r := run h (startServices ctx rootDir storeApp) s in
    nondecreasing (map codeRank (stagesOf (traceOf r))) = true /\
    nondecreasing (fineRanks (traceOf r)) = true /\
    (forall t1 ev t2 st,
        traceOf r = t1 ++ ev :: t2 -> stageOf (evCall ev) = Some st -> entered t1 st) /\
    (forall t1 ev t2 st,
        traceOf r = t1 ++ ev :: t2 -> stageOf (evCall ev) = Some st ->
        (codeRank ResolveBackend <= codeRank st)%nat ->
        resolutions t1 = requested (Split (GlobalString ctx UnlockedAccountFlag_Name) ",") /\
        uPending (unlockingAfter t1) = false /\
        exists stack events,
          spawned t1 = [WalletWatcher stack events] /\ In (Ev (NodeStart stack) None) t1) /\
    (forall t1 ev t2, traceOf r = t1 ++ ev :: t2 -> failed ev = true ->
                      stagesOf t2 = [] /\ exited (outcomeOf r) = true) /\
    (forall t1 ev t2 tail x,
        traceOf r = t1 ++ ev :: t2 -> verdict (unlockingAfter t1) ev = Some (tail, x) ->
        stagesOf t2 = [] /\ outcomeOf r = Halted x) /\
    (exited (outcomeOf r) = false ->
     (forall st, In st (stagesOf (traceOf r))) /\
     (forall ev, In ev (traceOf r) -> failed ev = false) /\
     (forall t1 ev t2, traceOf r = t1 ++ ev :: t2 -> verdict (unlockingAfter t1) ev = None)).
Proof.
  intros St h s ctx rootDir storeApp. cbv zeta.
  pose proof (run_exec h (startServices ctx rootDir storeApp) s) as Hx.
  destruct (@staged_exec _ _ _ _ _ _ (staged_startServices ctx rootDir storeApp) Hx)
    as (Hnd & _ & Hstop).
  destruct (@judged_exec _ _ _ _ _ _ (judged_startServices ctx rootDir storeApp) Hx)
    as [Hverdict _].
  split; [exact (nondecreasing_tail _ _ Hnd) |].
  split; [exact (nondecreasing_tail _ _
                   (@ordered_exec _ _ _ _ _ _ (ordered_startServices ctx rootDir storeApp)
                      Hx)) |].
  split; [| split; [| split; [exact Hstop | split]]].
  - intros t1 ev t2 st Heq Hst.
    pose proof (@preparedFrom_exec _ _ _ _ _
                  (preparedFrom_startServices ctx rootDir storeApp) Hx t1 ev t2 Heq) as Hp.
    unfold prepared in Hp. rewrite Hst in Hp.
    apply (@entered_incl _ t1) in Hp; [exact Hp |].
    intros ev' Hin. rewrite app_nil_r in Hin. apply in_rev. exact Hin.
  - intros t1 ev t2 st Heq Hst Hrank.
    exact (@startServices_unlock_completed _ _ _ _ _ Hx t1 ev t2 st Heq Hst Hrank).
  - intros t1 ev t2 tail x Heq Hv.
    destruct (Hverdict t1 ev t2 tail x Heq Hv) as (_ & Hrep & Ho).
    split; [apply reports_unstaged; exact Hrep | exact Ho].
  - intros Hret. split; [| split].
    + destruct (outcomeOf (run h (startServices ctx rootDir storeApp) s))
        as [res | x] eqn:Ho; [| discriminate].
      apply startServices_returned in Hx.
      destruct Hx as (emNode & tn & b & c & a & srv & ba & cfg & pv & n & Hn & -> & _).
      destruct (@startNode_returned _ _ _ Hn) as (rest & -> & Hun).
      intros st.
      rewrite (@stagesOf_cons MakeFullNode (Ok emNode)). simpl stageOf. cbv iota.
      rewrite stagesOf_app, (@stagesOf_cons (NodeStart emNode) None).
      simpl stageOf. cbv iota.
      destruct st;
        try (left; reflexivity);
        try (right; right; apply in_or_app; left; exact Hun);
        right; right; apply in_or_app; right; simpl; auto 20.
    + intros ev Hin. destruct (failed ev) eqn:Hf; [| reflexivity].
      apply in_split in Hin. destruct Hin as (t1 & t2 & Heq).
      destruct (Hstop t1 ev t2 Heq Hf) as [_ Hd]. rewrite Hd in Hret. discriminate.
    + intros t1 ev t2 Heq.
      destruct (verdict (unlockingAfter t1) ev) as [[tail x] |] eqn:Hv; [| reflexivity].
      destruct (Hverdict t1 ev t2 tail x Heq Hv) as (_ & _ & Ho).
      rewrite Ho in Hret. discriminate Hret.
Qed.

Lemma startServices_stages_in_code_order_witness :
  exited (outcomeOf (run sim (startServices (contextWith "0xABC, , 0xDEF") "/data"
                                (StoreAppRef 0))
                       (withFaults [FService] twoAccounts))) = true /\
  (stagesOf [] = [] /\
   outcomeOf (run refusing (startServices (contextWith "0xABC") "/data" (StoreAppRef 0))
                twoAccounts)
   = Halted (Fatalf "Failed to unlock account %s (%v)"
               [AStr "0xABC"; AErr (Some ErrDecrypt)])) /\
  resolutions (firstn 13 (traceOf (run sim (startServices (contextWith "0xABC, , 0xDEF")
                                              "/data" (StoreAppRef 0)) twoAccounts)))
  = requested (Split "0xABC, , 0xDEF" ",").
Proof.
  pose proof (startServices_stages_in_code_order sim (withFaults [FService] twoAccounts)
                (contextWith "0xABC, , 0xDEF") "/data" (StoreAppRef 0))
    as (_ & _ & _ & _ & Hfailed & _).
  pose proof (startServices_stages_in_code_order refusing twoAccounts
                (contextWith "0xABC") "/data" (StoreAppRef 0))
    as (_ & _ & _ & _ & _ & Hrefused & _).
  pose proof (startServices_stages_in_code_order sim twoAccounts
                (contextWith "0xABC, , 0xDEF") "/data" (StoreAppRef 0))
    as (_ & _ & _ & Hcompleted & _).
  split; [| split].
  - refine (proj2 (Hfailed
                     (firstn 13 (traceOf (run sim (startServices
                                                     (contextWith "0xABC, , 0xDEF")
                                                     "/data" (StoreAppRef 0))
                                            (withFaults [FService] twoAccounts))))
                     (Ev (Service (NodeRef 0)) (Err (OtherError "unknown service")))
                     [] _ eq_refl)).
    vm_compute. reflexivity.
  - refine (Hrefused
              (firstn 7 (traceOf (run refusing
                                    (startServices (contextWith "0xABC") "/data"
                                       (StoreAppRef 0)) twoAccounts)))
              (Ev (Unlock (KeyStoreRef 0) (mkAccount 1%N (mkURL "" "")) "p1")
                  (Some ErrDecrypt))
              [] [] _ _ _).
    + vm_compute. reflexivity.
    + vm_compute. reflexivity.
  - refine (proj1 (Hcompleted
                     (firstn 13 (traceOf (run sim (startServices
                                                     (contextWith "0xABC, , 0xDEF")
                                                     "/data" (StoreAppRef 0)) twoAccounts)))
                     (Ev (Service (NodeRef 0)) (Ok (BackendRef 2)))
                     (skipn 14 (traceOf (run sim (startServices
                                                    (contextWith "0xABC, , 0xDEF")
                                                    "/data" (StoreAppRef 0)) twoAccounts)))
                     ResolveBackend _ eq_refl _)).
    + vm_compute. reflexivity.
    + simpl. lia.
Defined.

(** ** The watcher and its log *)

Lemma warnedAtOnce_nil : warnedAtOnce [].
Proof. intros [| ? ?] ? ? ? Heq; discriminate. Qed.

Lemma warnedAtOnce_app t1 t2 : warnedAtOnce t1 -> warnedAtOnce t2 -> warnedAtOnce (t1 ++ t2).
Proof.
  intros H1 H2 ta ev tb f Heq Hf. apply app_eq_app in Heq.
  destruct Heq as (l & [[Ha Hb] | [Ha Hb]]).
  - destruct l as [| ev' l].
    + simpl in Hb. exact (H2 [] ev tb f (eq_sym Hb) Hf).
    + simpl in Hb. injection Hb as <- ->.
      destruct (H1 ta ev l f Ha Hf) as (msg & rest & ->).
      exists msg, (rest ++ t2). reflexivity.
  - exact (H2 l ev tb f Hb Hf).
Qed.

Lemma warnedAtOnce_cons ev t : failedOpens [ev] = [] -> warnedAtOnce t -> warnedAtOnce (ev :: t).
Proof.
  intros Hev Ht [| ev1 t1] ev' t2 f Heq Hf; simpl in Heq.
  - injection Heq as <- _. rewrite Hev in Hf. discriminate Hf.
  - injection Heq as _ ->. exact (Ht t1 ev' t2 f eq_refl Hf).
Qed.

Lemma warnedAtOnce_pair w passphrase err msg :
  warnedAtOnce [Ev (WalletOpen w passphrase) (Some err);
                Ev (Log Warn msg (warningFor (w, err))) tt].
Proof.
  intros [| ev1 [| ev2 [| ? ?]]] ev t2 f Heq Hf; simpl in Heq.
  - injection Heq as <- <-. simpl in Hf. injection Hf as <-. eauto.
  - injection Heq as _ <- _. discriminate Hf.
  - destruct t2; discriminate.
  - destruct t2; discriminate.
Qed.

Lemma openKnown_warns reader w t o :
  exec (openKnown reader w) t o -> warnedAtOnce t /\ o = Returned tt.
Proof.
  unfold openKnown. intros H.
  repeat exec_step H; subst o; (split; [| reflexivity]).
  - apply warnedAtOnce_pair.
  - repeat (apply warnedAtOnce_cons; [reflexivity |]). apply warnedAtOnce_nil.
Qed.

Lemma onEvent_warns reader event t o :
  exec (onEvent reader event) t o -> warnedAtOnce t /\ o = Returned tt.
Proof.
  unfold onEvent. destruct event as [w arrive]. simpl Arrive. simpl EvWallet.
  destruct arrive; intros H; repeat exec_step H; subst o; (split; [| reflexivity]);
    first [ apply warnedAtOnce_pair
          | repeat (apply warnedAtOnce_cons; [reflexivity |]); apply warnedAtOnce_nil ].
Qed.

Lemma walletWatcher_warns stack delivered t o :
  exec (walletWatcher stack delivered) t o -> warnedAtOnce t.
Proof.
  rewrite walletWatcher_unfold. cbn [bind call exec]. intros (r & t' & -> & H).
  destruct r as [c | err].
  - cbn [bind call exec] in H. destruct H as (known & t'' & -> & H).
    apply warnedAtOnce_cons; [reflexivity |]. apply warnedAtOnce_cons; [reflexivity |].
    apply exec_bind in H.
    destruct H as [(y & H & ->) | ([] & t1 & t2 & H1 & H2 & ->)].
    + apply (@exec_forEach_inv _ (openKnown (NewClient c)) warnedAtOnce) in H.
      * destruct H as [_ H]. discriminate H.
      * apply warnedAtOnce_nil.
      * apply warnedAtOnce_app.
      * intros x ta oa. apply openKnown_warns.
    + apply warnedAtOnce_app.
      * apply (@exec_forEach_inv _ (openKnown (NewClient c)) warnedAtOnce) in H1;
          [apply H1 | apply warnedAtOnce_nil | apply warnedAtOnce_app
          | intros x ta oa; apply openKnown_warns].
      * apply (@exec_forEach_inv _ (onEvent (NewClient c)) warnedAtOnce) in H2;
          [apply H2 | apply warnedAtOnce_nil | apply warnedAtOnce_app
          | intros x ta oa; apply onEvent_warns].
  - simpl in H. destruct H as [-> _].
    apply warnedAtOnce_cons; [reflexivity | apply warnedAtOnce_nil].
Qed.

(** C8.  Unless its own attach fails, the watcher opens the wallets
    known at start and then performs exactly one open or close per
    delivered event, in the order of delivery; a wallet is self-derived
    exactly when its open succeeded, and the loop reaches the end of
    the deliveries whatever the opens answer.  A failed open is only
    logged: the call that follows it at once is the warning with the
    URL of the wallet and the error, the warnings of a run are those of
    its failed opens and no others, and the wallet is not derived. *)
Theorem walletWatcher_follows_events :
  forall St (h : handler St) (s : St) (stack : Node) (delivered : list WalletEvent),
    let r := run h (walletWatcher stack delivered) s in
    ((exists err,
         traceOf r = [Ev (Attach stack) (Err err)] /\
         outcomeOf r = Halted (Fatalf "Failed to attach to self: %v" [AErr (Some err)])) \/
     (exists c known startup steady,
         traceOf r = Ev (Attach stack) (Ok c) :: Ev (Wallets stack) known
                     :: startup ++ steady /\
         walletOps startup = map Opened known /\
         walletOps steady = map opOf delivered /\
         selfDerived (startup ++ steady)
           = map (fun w => (w, NewClient c)) (openedOk (startup ++ steady)) /\
         outcomeOf r = Returned tt)) /\
    warnedAtOnce (traceOf r) /\
    warnings (traceOf r) = map warningFor (failedOpens (traceOf r)).
Proof.
  intros St h s stack delivered. cbv zeta.
  split; [exact (walletWatcher_run h s stack delivered) |].
  pose proof (run_exec h (walletWatcher stack delivered) s) as Hx.
  split.
  - exact (@walletWatcher_warns _ _ _ _ Hx).
  - destruct (@walletWatcher_logs _ _ _ _ Hx) as [(Hw & _) _]. exact Hw.
Qed.

(** ** The passphrase of each entry *)

(** C9.  When a non-empty password list was read, no prompt is shown,
    and the passphrase of every unlock is the entry of the list for the
    position of its own entry of the comma-split flag, blank entries
    counted, the last entry for the positions beyond the list: the
    resolutions of the run are those of the non-blank entries in their
    order, all of them unless the run is cut short, and every
    passphrase tried between the resolution of an entry and the next
    resolution is the one of that entry's position.  In the first run
    shown the second address stands at position 2 behind a blank entry
    and is tried three times, each time with the third password; in the
    second the same address is listed twice and is tried with the
    password of each position in turn. *)
Theorem preloaded_password_by_position :
  (forall St (h : handler St) (s : St) (ctx : Context) (stack : Node)
          (passwords : list string),
     let r := run h (startNode ctx stack) s in
     let unlocks := Split (GlobalString ctx UnlockedAccountFlag_Name) "," in
     In passwords (passwordLists (traceOf r)) -> passwords <> [] ->
     prompts (traceOf r) = [] /\
     Forall (byPosition unlocks passwords) (unlockLog (traceOf r)) /\
     exists served rest,
       requestedAt 0 unlocks = served ++ rest /\
       Forall2 (servedWith passwords) served (unlockSessions (calls (traceOf r))) /\
       (outcomeOf r = Returned tt -> rest = [])) /\
  (forall unlocks : list string,
     map snd (requestedAt 0 unlocks) = requested unlocks /\
     Forall (fun req => exists entry,
                 nth_error unlocks (fst req) = Some entry /\ snd req = TrimSpace entry)
            (requestedAt 0 unlocks)) /\
  (let r := run sim (startNode (contextWith "0xABC, , 0xDEF") (NodeRef 0)) secondLocked in
   unlockLog (traceOf r)
   = [("0xABC", "p1"); ("0xDEF", "p3"); ("0xDEF", "p3"); ("0xDEF", "p3")] /\
   unlockSessions (calls (traceOf r)) = [("0xABC", ["p1"]); ("0xDEF", ["p3"; "p3"; "p3"])]) /\
  (let r := run sim (startNode (contextWith "0xABC,0xABC") (NodeRef 0))
                (withPasswords ["p1"; "zz"] twoAccounts) in
   unlockSessions (calls (traceOf r)) = [("0xABC", ["p1"]); ("0xABC", ["zz"; "zz"; "zz"])]).
Proof.
  split; [| split; [| split]].
  - intros St h s ctx stack passwords. cbv zeta. intros Hin Hne.
    destruct (startNode_log h s ctx stack Hin Hne) as [Hp Hlog].
    split; [exact Hp | split; [exact Hlog |]].
    exact (startNode_sessions h s ctx stack Hin Hne).
  - intros unlocks. split; [apply requestedAt_requested |].
    eapply Forall_impl; [| apply (requestedAt_positions unlocks 0)].
    intros req (entry & Hn & _ & Hs). rewrite Nat.sub_0_r in Hn. eauto.
  - cbv zeta. split; reflexivity.
  - reflexivity.
Qed.

Lemma preloaded_password_by_position_witness :
  let r := run sim (startNode (contextWith "0xABC,0xABC") (NodeRef 0))
               (withPasswords ["p1"; "zz"] twoAccounts) in
  prompts (traceOf r) = [] /\
  Forall (byPosition (Split "0xABC,0xABC" ",") ["p1"; "zz"]) (unlockLog (traceOf r)) /\
  exists served rest,
    requestedAt 0 (Split "0xABC,0xABC" ",") = served ++ rest /\
    Forall2 (servedWith ["p1"; "zz"]) served (unlockSessions (calls (traceOf r))) /\
    (outcomeOf r = Returned tt -> rest = []).
Proof.
  apply (proj1 preloaded_password_by_position Sim sim
           (withPasswords ["p1"; "zz"] twoAccounts)
           (contextWith "0xABC,0xABC") (NodeRef 0) ["p1"; "zz"]).
  - simpl. left. reflexivity.
  - discriminate.
Defined.

(** ** Run-time panics *)

(** The only verdict that is a panic is the one on an empty list of
    backends. *)
Lemma panic_verdict u ev tail what :
  verdict u ev = Some (tail, Panic what) ->
  tail = [] /\ exists stack, ev = Ev (Backends stack) [].
Proof.
  destruct ev as [e r]. destruct u as [address refused offered pending].
  destruct e; simpl;
    repeat (match goal with
            | |- context [match ?x with _ => _ end] => is_var x; destruct x
            | |- context [if ?x then _ else _] => destruct x
            end; simpl);
    intros H; try discriminate H.
  injection H as <- _. split; [reflexivity |]. eexists. reflexivity.
Qed.

(** X11.  [startNode] takes the first key store backend without a
    check: wherever [Backends] answers the empty list, the run stops at
    that answer in the panic of the index, and no run goes on without a
    key store.  It is the only run-time panic of [startServices]: a run
    that ends in a panic ends with that answer, so the index into the
    password list is always in range. *)
Theorem startServices_panics_exactly_without_backend :
  forall St (h : handler St) (s : St) (ctx : Context) (rootDir : string)
         (storeApp : StoreApp),
    let r := run h (startServices ctx rootDir storeApp) s in
    (forall t1 stack t2,
        traceOf r = t1 ++ Ev (Backends stack) [] :: t2 ->
        t2 = [] /\ outcomeOf r = Halted (Panic "index out of range")) /\
    (forall what,
        outcomeOf r = Halted (Panic what) ->
        exists before stack, traceOf r = before ++ [Ev (Backends stack) []]).
Proof.
  intros St h s ctx rootDir storeApp. cbv zeta.
  pose proof (run_exec h (startServices ctx rootDir storeApp) s) as Hx.
  destruct (@judged_exec _ _ _ _ _ _ (judged_startServices ctx rootDir storeApp) Hx)
    as [Hstop Hend].
  split.
  - intros t1 stack t2 Heq.
    destruct (Hstop t1 (Ev (Backends stack) []) t2 [] (Panic "index out of range")
                Heq eq_refl) as (Hc & _ & Ho).
    split; [apply calls_nil; exact Hc | exact Ho].
  - intros what Ho. rewrite Ho in Hend.
    destruct Hend as (t1 & ev & t2 & Heq & Hv).
    destruct (panic_verdict _ _ Hv) as (Hc & stack & ->).
    apply calls_nil in Hc. subst t2. exists t1, stack. exact Heq.
Qed.

Lemma startServices_panics_exactly_without_backend_witness :
  let r := run (withoutKeyStore sim) (startServices (contextWith "0xABC") "/data"
                                        (StoreAppRef 0)) twoAccounts in
  skipn 3 (traceOf r) = [] /\ outcomeOf r = Halted (Panic "index out of range").
Proof.
  intros r.
  apply (proj1 (@startServices_panics_exactly_without_backend Sim (withoutKeyStore sim)
                  twoAccounts (contextWith "0xABC") "/data" (StoreAppRef 0))
           [Ev MakeFullNode (Ok (NodeRef 0)); Ev (NodeStart (NodeRef 0)) None]
           (NodeRef 0) (skipn 3 (traceOf r))).
  reflexivity.
Defined.
